(** * Giveaway resolution engine of [app.js]

    A shallow embedding of the giveaway bot of [src/app.js]: the entry form
    ([modal_join]), the resolution of a giveaway ([resolveGiveaway]), the
    double-down buttons ([dd_yes], [dd_no]), the double-down timeout and the
    forced end; the handler of the interactions, which finds them by the
    custom id of the component; the timers; and the creation of a giveaway
    from the web page ([/api/create]).

    - JavaScript numbers are IEEE 754 binary64 values: [spec_float] with the
      operations of [SpecFloat] at precision 53 and maximal exponent 1024,
      rounding to nearest, ties to even. The main number, the tiebreak and the
      roll are integers, kept in [Z].
    - [giveaways.json] is the list of giveaways; every handler loads it,
      changes the giveaway found by [find] in place and saves the whole list.
      The stake of an entry is kept as JSON holds it (a number or [null]); the
      other numbers of a giveaway are kept as the handlers compute them, where
      the file holds what JSON keeps of them ([toJSON]: [null] for a number
      that is not finite). The statements about amounts therefore assume that
      the numbers read from the file are JSON numbers, and speak of the
      numbers written as JSON keeps them. Reading and writing the files do
      not fail.
    - random.org is a script of answers, one per request, each a number or a
      failure; the ranges asked for are recorded.
    - Discord is seen through the replies sent and through one boolean, whether
      the edit of the announcement of a winner succeeds; the other edits of
      messages, whose failures the handlers ignore, are left out.
    - The handlers run one after the other. *)

From Stdlib Require Import ZArith List Bool String Ascii Lia Permutation.
From Stdlib Require Import Floats.SpecFloat.
From Stdlib Require Import DecimalString.
Import ListNotations.
Open Scope string_scope.
Open Scope list_scope.
Open Scope Z_scope.

(** ** JavaScript numbers *)

Module Js.

Definition number := spec_float.

Definition prec64 : Z := 53.
Definition emax64 : Z := 1024.

Definition NaN : number := S754_nan.
Definition zero : number := S754_zero false.

(** The number that an integer literal or an integer value denotes. *)
Definition of_Z (z : Z) : number := binary_normalize prec64 emax64 z 0 false.

Definition add : number -> number -> number := SFadd prec64 emax64.
Definition sub : number -> number -> number := SFsub prec64 emax64.
Definition mul : number -> number -> number := SFmul prec64 emax64.
Definition div : number -> number -> number := SFdiv prec64 emax64.
Definition ltb : number -> number -> bool := SFltb.
Definition leb : number -> number -> bool := SFleb.

(** A number that [JSON.stringify] writes as a number; it writes [NaN] and the
    infinities as [null]. *)
Definition isFinite (x : number) : bool :=
  match x with
  | S754_zero _ | S754_finite _ _ _ => true
  | _ => false
  end.

(** [0 <= x], which holds of both zeros and of no [NaN]. *)
Definition nonneg (x : number) : Prop := leb zero x = true.

(** A number with the given sign bit: not [NaN]. *)
Definition signed (s : bool) (x : number) : Prop :=
  match x with
  | S754_zero s' | S754_infinity s' | S754_finite s' _ _ => s' = s
  | S754_nan => False
  end.

(** The mantissa of 100, which is [hundred_m * 2^-46]. *)
Definition hundred_m : positive := 7036874417766400.

(** A binary64 value that a JSON file holds as a number. *)
Definition jsonNumber (x : number) : Prop :=
  isFinite x = true /\ valid_binary prec64 emax64 x = true.

(** [Math.floor]. A finite value [m * 2^e] with [0 <= e] is an integer. *)
Definition Math_floor (x : number) : number :=
  match x with
  | S754_finite s m e =>
      if 0 <=? e then x
      else
        let q := Z.shiftr (Zpos m) (- e) in
        if s then
          if Z.shiftl q (- e) =? Zpos m then of_Z (- q) else of_Z (- (q + 1))
        else of_Z q
  | _ => x
  end.

(** [Math.max] of two arguments: [NaN] if either is, and [+0] above [-0]. *)
Definition Math_max (a b : number) : number :=
  match SFcompare a b with
  | None => NaN
  | Some Lt => b
  | Some Gt => a
  | Some Eq => match a with S754_zero true => b | _ => a end
  end.

(** *** Strings: code units below 256 *)

Definition code (c : ascii) : Z := Z.of_nat (nat_of_ascii c).

(** White space and line terminators that [parseInt] and [parseFloat] skip. *)
Definition isWhiteSpace (c : ascii) : bool :=
  let n := code c in
  ((9 <=? n) && (n <=? 13)) || (n =? 32) || (n =? 160).

Fixpoint trimStart (s : string) : string :=
  match s with
  | String c t => if isWhiteSpace c then trimStart t else s
  | EmptyString => s
  end.

Definition lowerChar (c : ascii) : ascii :=
  let n := code c in
  if ((65 <=? n) && (n <=? 90)) || ((192 <=? n) && (n <=? 222) && negb (n =? 215))
  then ascii_of_nat (Z.to_nat (n + 32)) else c.

Fixpoint toLowerCase (s : string) : string :=
  match s with
  | String c t => String (lowerChar c) (toLowerCase t)
  | EmptyString => EmptyString
  end.

(** The value of a digit in the given radix, if it is one. *)
Definition digitValue (radix : Z) (c : ascii) : option Z :=
  let n := code c in
  let v := if (48 <=? n) && (n <=? 57) then n - 48
           else if (97 <=? n) && (n <=? 122) then n - 87
           else if (65 <=? n) && (n <=? 90) then n - 55
           else radix in
  if v <? radix then Some v else None.

(** The longest prefix of digits, most significant first, and what follows. *)
Fixpoint spanDigits (radix : Z) (s : string) : list Z * string :=
  match s with
  | String c t =>
      match digitValue radix c with
      | Some v => let (ds, rest) := spanDigits radix t in (v :: ds, rest)
      | None => ([], s)
      end
  | EmptyString => ([], s)
  end.

Definition digitsValue (radix : Z) (ds : list Z) : Z :=
  fold_left (fun acc d => acc * radix + d) ds 0.

(** An optional sign: [true] for a minus. *)
Definition takeSign (s : string) : bool * string :=
  match s with
  | String "-" t => (true, t)
  | String "+" t => (false, t)
  | _ => (false, s)
  end.

(** [parseInt(s)] without a radix; [None] is [NaN]. The result is only
    compared with 0 and 100 and then stored, so the integer itself stands
    for the number ([-0] compares as 0 and is written as 0). *)
Definition parseInt (s : string) : option Z :=
  let (neg, s1) := takeSign (trimStart s) in
  let (radix, s2) :=
    match s1 with
    | String "0" (String "x" t) | String "0" (String "X" t) => (16, t)
    | _ => (10, s1)
    end in
  match fst (spanDigits radix s2) with
  | [] => None
  | ds => Some (if neg then - digitsValue radix ds else digitsValue radix ds)
  end.

(** The binary64 value nearest to [m * 10^e], for [0 < m]. *)
Definition decimal (neg : bool) (m : positive) (e : Z) : number :=
  match e with
  | Zneg k => div (S754_finite neg m 0) (S754_finite false (Pos.pow 10 k) 0)
  | _ => binary_normalize prec64 emax64
           ((if neg then Zneg m else Zpos m) * 10 ^ e) 0 false
  end.

(** [parseFloat(s)]: the longest prefix of [s], after white space, that is a
    decimal literal. *)
Definition parseFloat (s : string) : number :=
  let (neg, s1) := takeSign (trimStart s) in
  if prefix "Infinity" s1 then S754_infinity neg
  else
    let (ip, s2) := spanDigits 10 s1 in
    let (fp, s3) :=
      match s2 with
      | String "." t => spanDigits 10 t
      | _ => ([], s2)
      end in
    match ip ++ fp with
    | [] => NaN
    | ds =>
        let ex :=
          match s3 with
          | String "e" t | String "E" t =>
              let (eneg, t') := takeSign t in
              let v := digitsValue 10 (fst (spanDigits 10 t')) in
              if eneg then - v else v
          | _ => 0
          end in
        match digitsValue 10 ds with
        | Zpos m => decimal neg m (ex - Z.of_nat (List.length fp))
        | _ => S754_zero neg
        end
    end.

(** Decimal text of an integer, as in a template string. *)
Definition showZ (z : Z) : string := NilZero.string_of_int (Z.to_int z).

End Js.

Import Js.

(** ** Data files *)

(** A property of an object: missing, [null], or set. *)
Inductive field (A : Type) : Type :=
  | absent
  | null
  | value (a : A).
Arguments absent {A}.
Arguments null {A}.
Arguments value {A} a.

(** What [JSON.stringify] followed by [JSON.parse] leaves of a number. *)
Definition toJSON (x : number) : option number :=
  match x with
  | S754_zero _ => Some zero
  | S754_finite _ _ _ => Some x
  | _ => None
  end.

(** An entry of a giveaway. [stakeC] is as the file holds it: [None] when the
    stake was written as [null]. [doubleDownDeadline] is missing until the
    entry wins and the winner is announced. *)
Record Entry := {
  entryId : string;
  userId : string;
  username : string;
  main : Z;
  tiebreak : Z;
  stakeC : option number;
  choice : string;
  riskProfile : string;
  joinedAt : Z;
  doubleDownDeadline : option Z
}.

(** [g.winner]; its properties [userId], [username], [main], [tiebreak],
    [choice] and [stake] carry the prefix [w_] here. *)
Record Winner := {
  w_userId : string;
  w_username : string;
  w_main : Z;
  w_tiebreak : Z;
  w_choice : string;
  w_stake : number;
  payoutC : number;
  baseWinC : number;
  potShareC : number
}.

Inductive DoubleDownState := pending | no | yes_win | yes_lose.

Record DoubleDown := {
  state : DoubleDownState;
  deadline : Z;
  winnerId : string
}.

Inductive Result :=
  | ResultError (error message : string)
  | ResultNoWinners (roll : Z)
  | ResultResolved (roll : Z) (resolvedCount : nat).

(** A giveaway; [gid] is its property [id]. *)
Record Giveaway := {
  gid : string;
  title : string;
  prize : string;
  creatorId : string;
  channelId : string;
  messageId : option string;
  createdAt : Z;
  endsAt : Z;
  entries : list Entry;
  pot : number;
  ended : bool;
  roll : option Z;
  winner : field Winner;
  result : option Result;
  doubleDown : option DoubleDown
}.

Record Profile := { potSharePercent : option number }.

Record Config := {
  cfg_pot : number;
  conversionRateUSDPerC : number;
  houseEdge : option number;
  riskProfiles : list (string * Profile)
}.

Definition defaultConfig : Config := {|
  cfg_pot := of_Z 1000;
  conversionRateUSDPerC := div (of_Z 6) (of_Z 10);
  houseEdge := Some (div (of_Z 2) (of_Z 100));
  riskProfiles := [ ("low", {| potSharePercent := Some (of_Z 30) |});
                    ("high", {| potSharePercent := Some (of_Z 70) |}) ]
|}.

(** *** Assignments to the properties of a giveaway *)

Definition set_entries (v : list Entry) (g : Giveaway) : Giveaway :=
  {| gid := gid g; title := title g; prize := prize g; creatorId := creatorId g;
     channelId := channelId g; messageId := messageId g; createdAt := createdAt g;
     endsAt := endsAt g; entries := v; pot := pot g; ended := ended g;
     roll := roll g; winner := winner g; result := result g;
     doubleDown := doubleDown g |}.

Definition set_pot (v : number) (g : Giveaway) : Giveaway :=
  {| gid := gid g; title := title g; prize := prize g; creatorId := creatorId g;
     channelId := channelId g; messageId := messageId g; createdAt := createdAt g;
     endsAt := endsAt g; entries := entries g; pot := v; ended := ended g;
     roll := roll g; winner := winner g; result := result g;
     doubleDown := doubleDown g |}.

Definition set_ended (v : bool) (g : Giveaway) : Giveaway :=
  {| gid := gid g; title := title g; prize := prize g; creatorId := creatorId g;
     channelId := channelId g; messageId := messageId g; createdAt := createdAt g;
     endsAt := endsAt g; entries := entries g; pot := pot g; ended := v;
     roll := roll g; winner := winner g; result := result g;
     doubleDown := doubleDown g |}.

Definition set_roll (v : option Z) (g : Giveaway) : Giveaway :=
  {| gid := gid g; title := title g; prize := prize g; creatorId := creatorId g;
     channelId := channelId g; messageId := messageId g; createdAt := createdAt g;
     endsAt := endsAt g; entries := entries g; pot := pot g; ended := ended g;
     roll := v; winner := winner g; result := result g;
     doubleDown := doubleDown g |}.

Definition set_winner (v : field Winner) (g : Giveaway) : Giveaway :=
  {| gid := gid g; title := title g; prize := prize g; creatorId := creatorId g;
     channelId := channelId g; messageId := messageId g; createdAt := createdAt g;
     endsAt := endsAt g; entries := entries g; pot := pot g; ended := ended g;
     roll := roll g; winner := v; result := result g;
     doubleDown := doubleDown g |}.

Definition set_result (v : option Result) (g : Giveaway) : Giveaway :=
  {| gid := gid g; title := title g; prize := prize g; creatorId := creatorId g;
     channelId := channelId g; messageId := messageId g; createdAt := createdAt g;
     endsAt := endsAt g; entries := entries g; pot := pot g; ended := ended g;
     roll := roll g; winner := winner g; result := v;
     doubleDown := doubleDown g |}.

Definition set_doubleDown (v : option DoubleDown) (g : Giveaway) : Giveaway :=
  {| gid := gid g; title := title g; prize := prize g; creatorId := creatorId g;
     channelId := channelId g; messageId := messageId g; createdAt := createdAt g;
     endsAt := endsAt g; entries := entries g; pot := pot g; ended := ended g;
     roll := roll g; winner := winner g; result := result g;
     doubleDown := v |}.

Definition set_payoutC (v : number) (w : Winner) : Winner :=
  {| w_userId := w_userId w; w_username := w_username w; w_main := w_main w;
     w_tiebreak := w_tiebreak w; w_choice := w_choice w; w_stake := w_stake w;
     payoutC := v; baseWinC := baseWinC w; potShareC := potShareC w |}.

Definition set_state (v : DoubleDownState) (d : DoubleDown) : DoubleDown :=
  {| state := v; deadline := deadline d; winnerId := winnerId d |}.

Definition set_doubleDownDeadline (v : option Z) (e : Entry) : Entry :=
  {| entryId := entryId e; userId := userId e; username := username e;
     main := main e; tiebreak := tiebreak e; stakeC := stakeC e;
     choice := choice e; riskProfile := riskProfile e; joinedAt := joinedAt e;
     doubleDownDeadline := v |}.

(** ** The world around the handlers *)

(** The callbacks given to [setTimeout]. *)
Inductive Timer :=
  | ResolveTimer (id : string)
  | DoubleDownTimer (id : string).

(** What a handler lets the outside see: its replies to the interaction, with
    the text of the reply or the values that the text is made of; what it
    writes on the error console; the timer it arms; and the [TypeError] with
    which it ends when [finalWinner] is [undefined]. *)
Inductive Effect :=
  | Reply (content : string)
  | ReplyJoined (main tiebreak : Z) (choice : string) (stake : number) (risk : string)
  | ReplyDoubleDownWin (add : number)
  | ReplyDoubleDownLose (ret : number)
  | ConsoleError (what : string)
  | SetTimeout (callback : Timer) (delay : Z)
  | TypeError.

(** An answer of random.org: the integer drawn, or the message of the error
    that [randomOrgInteger] throws. *)
Inductive Answer :=
  | Drawn (n : Z)
  | Failed (message : string).

(** [giveaways] is the content of [giveaways.json]; [randomOrg] the answers
    that random.org will give, in order (once the script is used up every
    request fails); [asked] the ranges requested so far. *)
Record World := {
  giveaways : list Giveaway;
  randomOrg : list Answer;
  asked : list (Z * Z)
}.

Definition M (A : Type) : Type := World -> A * World.

Definition ret {A} (a : A) : M A := fun w => (a, w).

Definition bind {A B} (m : M A) (k : A -> M B) : M B :=
  fun w => let (a, w') := m w in k a w'.

Notation "x <- m ;; k" := (bind m (fun x => k))
  (at level 61, m at next level, right associativity).

Definition randomOrgInteger (min max : Z) : M Answer := fun w =>
  (hd (Failed "") (randomOrg w),
   {| giveaways := giveaways w; randomOrg := tl (randomOrg w);
      asked := asked w ++ [(min, max)] |}).

(** The world in which random.org will answer [script] from now on. *)
Definition withRandomOrg (script : list Answer) (w : World) : World :=
  {| giveaways := giveaways w; randomOrg := script; asked := asked w |}.

Definition loadGiveaways : M (list Giveaway) := fun w => (giveaways w, w).

Definition saveGiveaways (data : list Giveaway) : M unit := fun w =>
  (tt, {| giveaways := data; randomOrg := randomOrg w; asked := asked w |}).

(** [data.giveaways.find(x => x.id === id)] *)
Definition findGiveaway (id : string) (data : list Giveaway) : option Giveaway :=
  find (fun x => String.eqb (gid x) id) data.

(** The data after the giveaway that [findGiveaway] returned has been changed
    in place into [g']. *)
Fixpoint assign (id : string) (g' : Giveaway) (data : list Giveaway) : list Giveaway :=
  match data with
  | x :: rest => if String.eqb (gid x) id then g' :: rest else x :: assign id g' rest
  | [] => []
  end.

(** [l[i]] for a number [i]; [None] is [undefined]. *)
Definition at_ {A} (l : list A) (i : Z) : option A :=
  if i <? 0 then None else nth_error l (Z.to_nat i).

(** ** Resolution of a giveaway *)

(** A reference to an entry of [g.entries]: its index and the entry. The
    arrays built during resolution hold the entry objects themselves. *)
Definition Ref : Type := nat * Entry.

Definition refs (es : list Entry) : list Ref :=
  combine (seq 0 (List.length es)) es.

(** The callback of [g.entries.filter]. *)
Definition isCandidate (roll : Z) (entry : Entry) : bool :=
  if String.eqb (choice entry) "under" then roll <=? main entry
  else if String.eqb (choice entry) "over" then roll >=? main entry
  else false.

Definition winnersCandidates (roll : Z) (es : list Entry) : list Ref :=
  filter (fun w => isCandidate roll (snd w)) (refs es).

(** [grouped[w.main] = grouped[w.main] || []; grouped[w.main].push(w)], on
    an object kept as the list of its properties in the order in which they
    were created. *)
Fixpoint pushGroup (w : Ref) (grouped : list (Z * list Ref)) : list (Z * list Ref) :=
  match grouped with
  | (k, arr) :: rest =>
      if k =? main (snd w) then (k, arr ++ [w]) :: rest
      else (k, arr) :: pushGroup w rest
  | [] => [(main (snd w), [w])]
  end.

Definition groupByMain (cands : list Ref) : list (Z * list Ref) :=
  fold_left (fun grouped w => pushGroup w grouped) cands [].

(** A property name that is an array index. *)
Definition isIndex (k : Z) : bool := (0 <=? k) && (k <? 4294967295).

Fixpoint insertAsc (k : Z) (l : list Z) : list Z :=
  match l with
  | x :: rest => if k <=? x then k :: l else x :: insertAsc k rest
  | [] => [k]
  end.

(** [Object.keys]: the array indices in ascending order, then the other
    names in the order of their creation. *)
Definition objectKeys (grouped : list (Z * list Ref)) : list Z :=
  let ks := map fst grouped in
  fold_right insertAsc [] (filter isIndex ks)
    ++ filter (fun k => negb (isIndex k)) ks.

(** [grouped[key]], for a key of the object. *)
Definition getGroup (grouped : list (Z * list Ref)) (key : Z) : list Ref :=
  match find (fun p => fst p =? key) grouped with
  | Some p => snd p
  | None => []
  end.

(** [arr.sort((a,b) => b.tiebreak - a.tiebreak)]: the sort is stable, so the
    result is the one of inserting from the right, each entry before the first
    one whose tiebreak is not higher. *)
Fixpoint insertByTiebreak (a : Ref) (l : list Ref) : list Ref :=
  match l with
  | b :: rest =>
      if tiebreak (snd b) <=? tiebreak (snd a) then a :: l
      else b :: insertByTiebreak a rest
  | [] => [a]
  end.

Definition sortByTiebreak (arr : list Ref) : list Ref :=
  fold_right insertByTiebreak [] arr.

(** [arr.filter(e => e.tiebreak === top.tiebreak)] for [top = arr[0]]. *)
Definition tiedTop (sorted : list Ref) : list Ref :=
  match sorted with
  | top :: _ => filter (fun e => tiebreak (snd e) =? tiebreak (snd top)) sorted
  | [] => []
  end.

(** The body of the loop over the groups: what it pushes on [resolved]
    ([None] is [undefined]). *)
Definition resolveGroup (arr : list Ref) : M (option Ref) :=
  match arr with
  | [a] => ret (Some a)
  | _ =>
      let sorted := sortByTiebreak arr in
      let tied := tiedTop sorted in
      match tied with
      | [_] => ret (hd_error sorted)
      | _ =>
          r <- randomOrgInteger 0 (Z.of_nat (List.length tied) - 1) ;;
          match r with
          | Drawn i => ret (at_ tied i)
          | Failed _ => ret (hd_error tied)
          end
      end
  end.

Fixpoint resolveGroups (groups : list (list Ref)) : M (list (option Ref)) :=
  match groups with
  | arr :: rest =>
      x <- resolveGroup arr ;;
      xs <- resolveGroups rest ;;
      ret (x :: xs)
  | [] => ret []
  end.

Definition undefinedOr {A} (x : option (option A)) : option A :=
  match x with
  | Some a => a
  | None => None
  end.

(** The choice of [finalWinner] among [resolved]. *)
Definition pickFinalWinner (resolved : list (option Ref)) : M (option Ref) :=
  match resolved with
  | [x] => ret x
  | _ =>
      r <- randomOrgInteger 0 (Z.of_nat (List.length resolved) - 1) ;;
      match r with
      | Drawn idx => ret (undefinedOr (at_ resolved idx))
      | Failed _ => ret (undefinedOr (hd_error resolved))
      end
  end.

(** From the candidates to [resolved] and [finalWinner]. *)
Definition chooseWinner (cands : list Ref) : M (list (option Ref) * option Ref) :=
  let grouped := groupByMain cands in
  resolved <- resolveGroups (map (getGroup grouped) (objectKeys grouped)) ;;
  finalWinner <- pickFinalWinner resolved ;;
  ret (resolved, finalWinner).

(** *** Payout *)

(** The names of the members of [Object.prototype], which every object read
    from a JSON file inherits. *)
Definition inheritedNames : list string :=
  [ "constructor"; "__defineGetter__"; "__defineSetter__"; "hasOwnProperty";
    "__lookupGetter__"; "__lookupSetter__"; "isPrototypeOf";
    "propertyIsEnumerable"; "toString"; "valueOf"; "__proto__";
    "toLocaleString" ].

(** [cfg.riskProfiles[name]]: the profile of that name in the file; failing
    that, under an inherited name, the member of [Object.prototype], which is
    not [undefined] and has no [potSharePercent]. [None] is [undefined]. *)
Definition getProfile (cfg : Config) (name : string) : option Profile :=
  match find (fun p => String.eqb (fst p) name) (riskProfiles cfg) with
  | Some p => Some (snd p)
  | None =>
      if existsb (String.eqb name) inheritedNames
      then Some {| potSharePercent := None |}
      else None
  end.

Definition orElse {A} (x : option A) (d : A) : A :=
  match x with
  | Some a => a
  | None => d
  end.

Definition winProbability (finalWinner : Entry) : number :=
  let prob :=
    if String.eqb (choice finalWinner) "under"
    then div (add (of_Z (main finalWinner)) (of_Z 1)) (of_Z 101)
    else div (sub (of_Z 101) (of_Z (main finalWinner))) (of_Z 101) in
  if leb prob zero then div (of_Z 1) (of_Z 101) else prob.

Definition baseWinOf (cfg : Config) (finalWinner : Entry) : number :=
  let houseEdge := orElse (houseEdge cfg) (div (of_Z 2) (of_Z 100)) in
  let multiplier :=
    mul (div (of_Z 1) (winProbability finalWinner)) (sub (of_Z 1) houseEdge) in
  let stake := orElse (stakeC finalWinner) (of_Z 1) in
  div (Math_floor (mul (mul stake multiplier) (of_Z 100))) (of_Z 100).

(** [potSharePercent], from the profile of the winner's risk, or, when there
    is none under that name, from the profile "low"; 0 when the profile found
    has no [potSharePercent] or when there is no profile. *)
Definition potSharePercentOf (cfg : Config) (finalWinner : Entry) : number :=
  let profile :=
    match getProfile cfg (riskProfile finalWinner) with
    | Some p => Some p
    | None => getProfile cfg "low"
    end in
  match profile with
  | Some p => orElse (potSharePercent p) zero
  | None => zero
  end.

Definition potShareAmountOf (cfg : Config) (gpot : number) (finalWinner : Entry) : number :=
  Math_floor (mul gpot (div (potSharePercentOf cfg finalWinner) (of_Z 100))).

(** The winner record and the new pot. *)
Definition payout (cfg : Config) (gpot : number) (finalWinner : Entry) : Winner * number :=
  let baseWin := baseWinOf cfg finalWinner in
  let potShareAmount := potShareAmountOf cfg gpot finalWinner in
  let finalPayoutC := add baseWin potShareAmount in
  ({| w_userId := userId finalWinner;
      w_username := username finalWinner;
      w_main := main finalWinner;
      w_tiebreak := tiebreak finalWinner;
      w_choice := choice finalWinner;
      w_stake := orElse (stakeC finalWinner) (of_Z 1);
      payoutC := finalPayoutC;
      baseWinC := baseWin;
      potShareC := potShareAmount |},
   Math_max zero (sub gpot potShareAmount)).

Definition sixHours : Z := 6 * 60 * 60 * 1000.

(** [finalWinner.doubleDownDeadline = ...]: the winning entry is an element of
    [g.entries]. *)
Fixpoint markDeadline (i : nat) (d : Z) (es : list Entry) : list Entry :=
  match es, i with
  | e :: rest, O => set_doubleDownDeadline (Some d) e :: rest
  | e :: rest, S i' => e :: markDeadline i' d rest
  | [], _ => []
  end.

(** [resolveGiveaway(gid)]. [announced] tells whether fetching the channel and
    the message and editing the message succeed; [now] is [Date.now()] after
    that edit. *)
Definition resolveGiveaway (cfg : Config) (announced : bool) (now : Z)
    (id : string) : M (list Effect) :=
  data <- loadGiveaways ;;
  match findGiveaway id data with
  | None => ret []
  | Some g =>
      if ended g then ret []
      else
        let g := set_ended true g in
        r <- randomOrgInteger 0 100 ;;
        match r with
        | Failed message =>
            let g := set_result (Some (ResultError "random.org failed" message)) g in
            _ <- saveGiveaways (assign id g data) ;;
            ret [ConsoleError "Random.org roll failed:"]
        | Drawn roll =>
            let g := set_roll (Some roll) g in
            let cands := winnersCandidates roll (entries g) in
            match cands with
            | [] =>
                let g := set_result (Some (ResultNoWinners roll)) (set_winner null g) in
                _ <- saveGiveaways (assign id g data) ;;
                ret []
            | _ =>
                chosen <- chooseWinner cands ;;
                match snd chosen with
                | None => ret [TypeError]
                | Some (i, fw) =>
                    let (w, pot') := payout cfg (pot g) fw in
                    let g := set_result (Some (ResultResolved roll (List.length (fst chosen))))
                               (set_winner (value w) (set_pot pot' g)) in
                    _ <- saveGiveaways (assign id g data) ;;
                    if announced then
                      let d := now + sixHours in
                      let g := set_doubleDown
                                 (Some {| state := pending; deadline := d;
                                          winnerId := userId fw |})
                                 (set_entries (markDeadline i d (entries g)) g) in
                      _ <- saveGiveaways (assign id g data) ;;
                      ret [SetTimeout (DoubleDownTimer id) (sixHours + 5000)]
                    else ret [ConsoleError "Failed announce winner:"]
                end
            end
        end
  end.

(** ** Double down *)

Inductive Button := dd_yes | dd_no.

(** The handler of the buttons [dd_yes:gid:winnerId] and [dd_no:gid:winnerId],
    pressed by [user]. *)
Definition doubleDownButton (act : Button) (id winnerId user : string)
    : M (list Effect) :=
  data <- loadGiveaways ;;
  match findGiveaway id data with
  | None => ret [Reply "Giveaway or winner not found."]
  | Some g =>
      match winner g with
      | absent | null => ret [Reply "Giveaway or winner not found."]
      | value gw =>
          if negb (String.eqb user winnerId)
          then ret [Reply "Only the winner can respond to Double Down."]
          else
            match doubleDown g with
            | None => ret [Reply "Double Down no longer available."]
            | Some dd =>
                match state dd with
                | pending =>
                    match act with
                    | dd_no =>
                        let g := set_doubleDown (Some (set_state no dd)) g in
                        _ <- saveGiveaways (assign id g data) ;;
                        ret [Reply "Double Down declined. Congratulations!"]
                    | dd_yes =>
                        r <- randomOrgInteger 0 100 ;;
                        match r with
                        | Failed _ => ret [Reply "Random.org failed for Double Down."]
                        | Drawn r =>
                            if r >=? 50 then
                              let add_ := pot g in
                              let g := set_doubleDown (Some (set_state yes_win dd))
                                         (set_pot zero
                                           (set_winner
                                             (value (set_payoutC (add (payoutC gw) add_) gw)) g)) in
                              _ <- saveGiveaways (assign id g data) ;;
                              ret [ReplyDoubleDownWin add_]
                            else
                              let ret_ := Math_max zero (Math_floor (baseWinC gw)) in
                              let g := set_doubleDown (Some (set_state yes_lose dd))
                                         (set_winner
                                           (value (set_payoutC
                                                     (Math_max zero (sub (payoutC gw) ret_)) gw))
                                           (set_pot (add (pot g) ret_) g)) in
                              _ <- saveGiveaways (assign id g data) ;;
                              ret [ReplyDoubleDownLose ret_]
                        end
                    end
                | _ => ret [Reply "Double Down no longer available."]
                end
            end
      end
  end.

(** The callback that [resolveGiveaway] schedules six hours after the
    announcement. *)
Definition doubleDownTimeout (id : string) : M (list Effect) :=
  ddata <- loadGiveaways ;;
  match findGiveaway id ddata with
  | None => ret []
  | Some gg =>
      match doubleDown gg with
      | Some dd =>
          match state dd with
          | pending =>
              let gg := set_doubleDown (Some (set_state no dd)) gg in
              _ <- saveGiveaways (assign id gg ddata) ;;
              ret []
          | _ => ret []
          end
      | None => ret []
      end
  end.

(** ** Joining and ending *)

Record User := {
  u_id : string;
  u_username : string;
  u_discriminator : string
}.

(** The text inputs of the modal. *)
Record Form := {
  f_main : string;
  f_tiebreak : string;
  f_stake : string;
  f_choice : string;
  f_risk : string
}.

Definition includes (l : list string) (x : string) : bool :=
  existsb (String.eqb x) l.

(** [isNaN(n) || n < 0 || n > 100] *)
Definition outOfRange (n : option Z) : bool :=
  match n with
  | None => true
  | Some v => (v <? 0) || (v >? 100)
  end.

(** The handler of the submission of the modal [modal_join:gid]; [now] is
    [Date.now()]. The entry is as [saveGiveaways] writes it. *)
Definition modalJoin (user : User) (now : Z) (id : string) (form : Form)
    : M (list Effect) :=
  let main_ := parseInt (f_main form) in
  let tiebreak_ := parseInt (f_tiebreak form) in
  let stake := parseFloat (if String.eqb (f_stake form) "" then "1" else f_stake form) in
  let choice_ := toLowerCase (f_choice form) in
  let risk := toLowerCase (f_risk form) in
  if outOfRange main_ then ret [Reply "Invalid main number. Must be 0-100."]
  else if outOfRange tiebreak_ then ret [Reply "Invalid tiebreak number. Must be 0-100."]
  else if negb (includes ["under"; "over"] choice_)
  then ret [Reply "Choice must be 'under' or 'over'."]
  else if negb (includes ["low"; "high"] risk)
  then ret [Reply "Risk must be 'low' or 'high'."]
  else
    data <- loadGiveaways ;;
    match findGiveaway id data with
    | None => ret [Reply "Giveaway not found."]
    | Some g =>
        if ended g then ret [Reply "Giveaway already ended."]
        else
          let entry := {|
            entryId := (u_id user ++ "-" ++ showZ now)%string;
            userId := u_id user;
            username := (u_username user ++ "#" ++ u_discriminator user)%string;
            main := orElse main_ 0;
            tiebreak := orElse tiebreak_ 0;
            stakeC := toJSON stake;
            choice := choice_;
            riskProfile := risk;
            joinedAt := now;
            doubleDownDeadline := None |} in
          let g := set_entries (entries g ++ [entry]) g in
          _ <- saveGiveaways (assign id g data) ;;
          ret [ReplyJoined (orElse main_ 0) (orElse tiebreak_ 0) choice_ stake risk]
    end.

(** The handler of the button [forceend:gid]; [permitted] tells whether the
    member has the Administrator or the Manage Server permission. *)
Definition forceEnd (cfg : Config) (announced : bool) (now : Z)
    (permitted : bool) (id : string) : M (list Effect) :=
  data <- loadGiveaways ;;
  match findGiveaway id data with
  | None => ret [Reply "Giveaway not found"]
  | Some _ =>
      if permitted then
        effs <- resolveGiveaway cfg announced now id ;;
        ret (Reply "Force ending giveaway..." :: effs)
      else ret [Reply "You don't have permission to force-end."]
  end.

(** The giveaway that [$start] and [/api/create] make at time [now]. *)
Definition newGiveaway (cfg : Config) (now : Z) (prize_ creator channel : string)
    (duration : Z) : Giveaway := {|
  gid := ("G-" ++ showZ now)%string;
  title := prize_;
  prize := prize_;
  creatorId := creator;
  channelId := channel;
  messageId := None;
  createdAt := now;
  endsAt := now + duration * 1000;
  entries := [];
  pot := cfg_pot cfg;
  ended := false;
  roll := None;
  winner := absent;
  result := None;
  doubleDown := None
|}.

(** ** The interaction handler *)

(** [s.split(separator)] for a separator of one character. *)
Fixpoint String_split (separator : ascii) (s : string) : list string :=
  match s with
  | EmptyString => [EmptyString]
  | String c rest =>
      if Ascii.eqb c separator then EmptyString :: String_split separator rest
      else
        match String_split separator rest with
        | p :: ps => String c p :: ps
        | [] => [String c EmptyString]
        end
  end.

(** [`${x}`] for a string [x] that may be [undefined]. *)
Definition interpolate (x : option string) : string := orElse x "undefined".

(** [joinButtonId(gid)], [forceEndButtonId(gid)] and the other custom ids that
    the bot gives to its components. *)
Definition joinButtonId (id : string) : string := ("join:" ++ id)%string.
Definition forceEndButtonId (id : string) : string := ("forceend:" ++ id)%string.
Definition modalJoinId (id : option string) : string :=
  ("modal_join:" ++ interpolate id)%string.
Definition doubleDownButtonId (act : Button) (id winner_ : string) : string :=
  ((match act with dd_yes => "dd_yes:" | dd_no => "dd_no:" end)
     ++ id ++ ":" ++ winner_)%string.

(** The interactions that the handler tells apart: a button pressed by [user],
    with [permitted] telling whether the member has the Administrator or the
    Manage Server permission; a modal submitted by [user] with the text
    [fields]; and any other interaction. *)
Inductive Interaction :=
  | ButtonInteraction (customId : string) (user : User) (permitted : bool)
  | ModalSubmitInteraction (customId : string) (user : User) (fields : Form)
  | OtherInteraction.

(** What the handler answers: the modal it shows, or the effects of
    [resolveGiveaway] and of the replies. *)
Inductive Outcome :=
  | ShowModal (customId : string)
  | Effects (effs : list Effect).

(** The [catch] around the handler: an exception ends on the error console. *)
Definition caught (effs : list Effect) : list Effect :=
  map (fun e => match e with
                | TypeError => ConsoleError "Interaction handler error:"
                | _ => e
                end) effs.

(** The submission of a modal whose custom id has no second part: the checks of
    the fields come first, then no giveaway has the id [undefined]. *)
Definition modalJoinUndefined (form : Form) : list Effect :=
  let main_ := parseInt (f_main form) in
  let tiebreak_ := parseInt (f_tiebreak form) in
  let choice_ := toLowerCase (f_choice form) in
  let risk := toLowerCase (f_risk form) in
  if outOfRange main_ then [Reply "Invalid main number. Must be 0-100."]
  else if outOfRange tiebreak_ then [Reply "Invalid tiebreak number. Must be 0-100."]
  else if negb (includes ["under"; "over"] choice_)
  then [Reply "Choice must be 'under' or 'over'."]
  else if negb (includes ["low"; "high"] risk)
  then [Reply "Risk must be 'low' or 'high'."]
  else [Reply "Giveaway not found."].

(** The double-down buttons when the custom id has no third part: the user is
    never the [undefined] winner. *)
Definition doubleDownUndefined (id : string) : M (list Effect) :=
  data <- loadGiveaways ;;
  match findGiveaway id data with
  | None => ret [Reply "Giveaway or winner not found."]
  | Some g =>
      match winner g with
      | absent | null => ret [Reply "Giveaway or winner not found."]
      | value _ => ret [Reply "Only the winner can respond to Double Down."]
      end
  end.

(** The handler of [Events.InteractionCreate]. [cfg] is the configuration file,
    [announced] and [now] are as for [resolveGiveaway]. *)
Definition onInteraction (cfg : Config) (announced : bool) (now : Z)
    (interaction : Interaction) : M Outcome :=
  match interaction with
  | ButtonInteraction customId user permitted =>
      let parts := String_split ":" customId in
      let action := hd "" parts in
      let gid_ := nth_error parts 1 in
      if String.eqb action "join" then ret (ShowModal (modalJoinId gid_))
      else if String.eqb action "forceend" then
        match gid_ with
        | Some id =>
            effs <- forceEnd cfg announced now permitted id ;;
            ret (Effects (caught effs))
        | None => ret (Effects [Reply "Giveaway not found"])
        end
      else if String.eqb action "dd_yes" || String.eqb action "dd_no" then
        let act := if String.eqb action "dd_no" then dd_no else dd_yes in
        match gid_, nth_error parts 2 with
        | Some id, Some winnerId_ =>
            effs <- doubleDownButton act id winnerId_ (u_id user) ;;
            ret (Effects effs)
        | Some id, None =>
            effs <- doubleDownUndefined id ;;
            ret (Effects effs)
        | None, _ => ret (Effects [Reply "Giveaway or winner not found."])
        end
      else ret (Effects [])
  | ModalSubmitInteraction customId user form =>
      let parts := String_split ":" customId in
      if String.eqb (hd "" parts) "modal_join" then
        match nth_error parts 1 with
        | Some id =>
            effs <- modalJoin user now id form ;;
            ret (Effects effs)
        | None => ret (Effects (modalJoinUndefined form))
        end
      else ret (Effects [])
  | OtherInteraction => ret (Effects [])
  end.

(** ** Creation from the web page *)

Definition set_messageId (v : option string) (g : Giveaway) : Giveaway :=
  {| gid := gid g; title := title g; prize := prize g; creatorId := creatorId g;
     channelId := channelId g; messageId := v; createdAt := createdAt g;
     endsAt := endsAt g; entries := entries g; pot := pot g; ended := ended g;
     roll := roll g; winner := winner g; result := result g;
     doubleDown := doubleDown g |}.

(** The body of a request to [/api/create], with the fields that the page
    sends: a string, an integer and a string, each of which may be missing. *)
Record CreateBody := {
  b_channelId : option string;
  b_durationSec : option Z;
  b_prize : option string
}.

(** The answer to the request: its status, with the error or the id. *)
Inductive Response :=
  | Status400 (error : string)
  | Status500 (error : string)
  | StatusOk (id : string).

(** The handler of [POST /api/create]. [idNow] and [now] are the two readings
    of [Date.now()]; [posted] is the id of the message sent to the channel, or
    [None] when fetching the channel or sending fails. *)
Definition apiCreate (cfg : Config) (idNow now : Z) (posted : option string)
    (body : CreateBody) : M (Response * list Effect) :=
  match b_channelId body with
  | None => ret (Status400 "channelId required", [])
  | Some channelId_ =>
      if String.eqb channelId_ "" then ret (Status400 "channelId required", [])
      else
        let durationSec := orElse (b_durationSec body) 60 in
        let prize_ := orElse (b_prize body) "Prize from UI" in
        data <- loadGiveaways ;;
        let id := ("G-" ++ showZ idNow)%string in
        let g := {|
          gid := id;
          title := prize_;
          prize := prize_;
          creatorId := "web-ui";
          channelId := channelId_;
          messageId := None;
          createdAt := now;
          endsAt := now + durationSec * 1000;
          entries := [];
          pot := cfg_pot cfg;
          ended := false;
          roll := None;
          winner := absent;
          result := None;
          doubleDown := None |} in
        _ <- saveGiveaways (data ++ [g]) ;;
        match posted with
        | Some msgId =>
            _ <- saveGiveaways (data ++ [set_messageId (Some msgId) g]) ;;
            ret (StatusOk id, [SetTimeout (ResolveTimer id) (durationSec * 1000)])
        | None =>
            ret (Status500
                   "Failed to post to channel. Bot may not be in guild or channelId invalid.",
                 [ConsoleError "Failed to post to channel:"])
        end
  end.

(** ** The events of a run *)

(** The callback of a timer. *)
Definition fire (cfg : Config) (announced : bool) (now : Z) (t : Timer)
    : M (list Effect) :=
  match t with
  | ResolveTimer id => resolveGiveaway cfg announced now id
  | DoubleDownTimer id => doubleDownTimeout id
  end.

(** What the bot reacts to: an interaction, a timer that fires, a request to
    [/api/create]. *)
Inductive Event :=
  | OnInteraction (interaction : Interaction)
  | OnTimer (t : Timer)
  | OnCreate (body : CreateBody).

(** What an event meets: the configuration file; the clock, and the reading
    of the clock from which the id of a new giveaway is made; whether the
    winner can be announced; and the id of the message posted for a new
    giveaway, if the post goes through. *)
Record Env := {
  env_cfg : Config;
  env_now : Z;
  env_idNow : Z;
  env_announced : bool;
  env_posted : option string
}.

(** The handler of an event, for what it does to the file and to random.org.
    The timers that the handlers arm are not followed: any timer may fire at
    any time, which covers the ones that were armed. *)
Definition handle (env : Env) (ev : Event) : M unit :=
  match ev with
  | OnInteraction interaction =>
      _ <- onInteraction (env_cfg env) (env_announced env) (env_now env) interaction ;;
      ret tt
  | OnTimer t =>
      _ <- fire (env_cfg env) (env_announced env) (env_now env) t ;;
      ret tt
  | OnCreate body =>
      _ <- apiCreate (env_cfg env) (env_idNow env) (env_now env) (env_posted env) body ;;
      ret tt
  end.

(** The events of a list, handled one after the other. *)
Fixpoint runEvents (evs : list (Env * Event)) : M unit :=
  match evs with
  | (env, ev) :: rest => _ <- handle env ev ;; runEvents rest
  | [] => ret tt
  end.

(** ** The giveaway that each outcome of a resolution saves *)

Definition rollFailed (message : string) (g : Giveaway) : Giveaway :=
  set_result (Some (ResultError "random.org failed" message)) (set_ended true g).

Definition noWinners (r : Z) (g : Giveaway) : Giveaway :=
  set_result (Some (ResultNoWinners r))
    (set_winner null (set_roll (Some r) (set_ended true g))).

Definition won (cfg : Config) (r : Z) (resolvedCount : nat) (fw : Entry)
    (g : Giveaway) : Giveaway :=
  set_result (Some (ResultResolved r resolvedCount))
    (set_winner (value (fst (payout cfg (pot g) fw)))
       (set_pot (snd (payout cfg (pot g) fw))
          (set_roll (Some r) (set_ended true g)))).

Definition offered (now : Z) (i : nat) (fw : Entry) (g : Giveaway) : Giveaway :=
  set_doubleDown
    (Some {| state := pending; deadline := now + sixHours; winnerId := userId fw |})
    (set_entries (markDeadline i (now + sixHours) (entries g)) g).

(** The world once the roll has been requested. *)
Definition rolled (w : World) : World := snd (randomOrgInteger 0 100 w).

(** ** Statements of the specification *)

(** The condition of the specification for an entry to match a roll. *)
Definition satisfiesRoll (r : Z) (e : Entry) : Prop :=
  (choice e = "under" /\ r <= main e) \/ (choice e = "over" /\ r >= main e).

(** The winner record [gw] is the one of the entry [e]: it carries its user,
    its main number, its tiebreak and its choice. *)
Definition winnerOfEntry (gw : Winner) (e : Entry) : Prop :=
  w_userId gw = userId e /\ w_username gw = username e
  /\ w_main gw = main e /\ w_tiebreak gw = tiebreak e
  /\ w_choice gw = choice e.

(** The failure kinds of a submission. *)
Inductive FailureKind :=
  | invalid_range
  | invalid_choice
  | invalid_risk
  | drawing_not_found
  | drawing_already_ended.

(** The failure kind that a reply of [modal_join] stands for. *)
Definition failureOf (content : string) : option FailureKind :=
  if String.eqb content "Invalid main number. Must be 0-100." then Some invalid_range
  else if String.eqb content "Invalid tiebreak number. Must be 0-100." then Some invalid_range
  else if String.eqb content "Choice must be 'under' or 'over'." then Some invalid_choice
  else if String.eqb content "Risk must be 'low' or 'high'." then Some invalid_risk
  else if String.eqb content "Giveaway not found." then Some drawing_not_found
  else if String.eqb content "Giveaway already ended." then Some drawing_already_ended
  else None.

(** An integer in 0..100. *)
Definition inRange (n : option Z) : Prop :=
  exists v, n = Some v /\ 0 <= v <= 100.

(** The conditions of the specification on a submission, each with the
    failure kind of its violation. *)
Inductive Rejected (main_ tiebreak_ : option Z) (choice_ risk : string)
    (g : option Giveaway) : FailureKind -> Prop :=
  | rejected_main : ~ inRange main_ ->
      Rejected main_ tiebreak_ choice_ risk g invalid_range
  | rejected_tiebreak : ~ inRange tiebreak_ ->
      Rejected main_ tiebreak_ choice_ risk g invalid_range
  | rejected_choice : choice_ <> "under" -> choice_ <> "over" ->
      Rejected main_ tiebreak_ choice_ risk g invalid_choice
  | rejected_risk : risk <> "low" -> risk <> "high" ->
      Rejected main_ tiebreak_ choice_ risk g invalid_risk
  | rejected_missing : g = None ->
      Rejected main_ tiebreak_ choice_ risk g drawing_not_found
  | rejected_ended : forall g0, g = Some g0 -> ended g0 = true ->
      Rejected main_ tiebreak_ choice_ risk g drawing_already_ended.

(** The highest tiebreak of a group. *)
Fixpoint maxTiebreak (arr : list Ref) : Z :=
  match arr with
  | [] => 0
  | a :: rest =>
      match rest with
      | [] => tiebreak (snd a)
      | _ => Z.max (tiebreak (snd a)) (maxTiebreak rest)
      end
  end.

(** The entries of a group that hold its highest tiebreak, in the order of
    the group. *)
Definition holdersOfMax (arr : list Ref) : list Ref :=
  filter (fun e => tiebreak (snd e) =? maxTiebreak arr) arr.

(** The share percentages of a configuration are numbers of its JSON file. *)
Definition jsonPercents (cfg : Config) : Prop :=
  forall name p pct,
    In (name, p) (riskProfiles cfg) -> potSharePercent p = Some pct ->
    jsonNumber pct.

(** ** Looking at a giveaway of the file *)

Definition potOf (id : string) (w : World) : option number :=
  option_map pot (findGiveaway id (giveaways w)).

Definition winnerOf (id : string) (w : World) : option Winner :=
  match findGiveaway id (giveaways w) with
  | Some g => match winner g with value gw => Some gw | _ => None end
  | None => None
  end.

Definition doubleDownOf (id : string) (w : World) : option DoubleDown :=
  match findGiveaway id (giveaways w) with
  | Some g => doubleDown g
  | None => None
  end.

(** ** Statements about the code beyond the specification *)

(** An entry as the entry form accepts it. *)
Definition validEntry (e : Entry) : Prop :=
  0 <= main e <= 100
  /\ 0 <= tiebreak e <= 100
  /\ (choice e = "under" \/ choice e = "over")
  /\ (riskProfile e = "low" \/ riskProfile e = "high").

(** A giveaway all of whose entries are as the entry form accepts them. *)
Definition validGiveaway (g : Giveaway) : Prop := Forall validEntry (entries g).

(** The winner record [gw] is the one of an entry that matches the roll [r]. *)
Definition wonBy (r : Z) (gw : Winner) (es : list Entry) : Prop :=
  exists e, In e es /\ satisfiesRoll r e
    /\ w_userId gw = userId e /\ w_username gw = username e
    /\ w_main gw = main e /\ w_tiebreak gw = tiebreak e
    /\ w_choice gw = choice e.

(** The properties of a giveaway fit together: an open giveaway has no roll,
    no winner, no result and no double down; a giveaway whose roll failed has
    none of them but the error; one without winners has its roll, the winner
    [null] and no entry that matches the roll; a resolved one has its roll and
    a winner, who is one of its entries and matches the roll, and whom its
    double down, if any, names. *)
Definition coherent (g : Giveaway) : Prop :=
  match result g with
  | None =>
      ended g = false /\ roll g = None /\ winner g = absent /\ doubleDown g = None
  | Some (ResultError _ _) =>
      ended g = true /\ roll g = None /\ winner g = absent /\ doubleDown g = None
  | Some (ResultNoWinners r) =>
      ended g = true /\ roll g = Some r /\ winner g = null /\ doubleDown g = None
      /\ Forall (fun e => ~ satisfiesRoll r e) (entries g)
  | Some (ResultResolved r _) =>
      ended g = true /\ roll g = Some r
      /\ exists gw, winner g = value gw /\ wonBy r gw (entries g)
           /\ forall dd, doubleDown g = Some dd -> winnerId dd = w_userId gw
  end.

(** An entry without its double-down deadline. *)
Definition withoutDeadline (e : Entry) : Entry := set_doubleDownDeadline None e.

(** The answers given to a sequence of requests lie in the ranges asked for.
    A request that fails, or that comes after the end of the script and so
    fails, is answered by no integer. *)
Fixpoint honours (requests : list (Z * Z)) (answers : list Answer) : Prop :=
  match requests, answers with
  | (lo, hi) :: requests', Drawn n :: answers' =>
      lo <= n <= hi /\ honours requests' answers'
  | _ :: requests', Failed _ :: answers' => honours requests' answers'
  | _, _ => True
  end.

(** The requests made between the world [w] and the later world [w']. *)
Definition requestsBetween (w w' : World) : list (Z * Z) :=
  skipn (List.length (asked w)) (asked w').

(** random.org honoured its ranges between [w] and [w']. *)
Definition honoured (w w' : World) : Prop :=
  honours (requestsBetween w w') (randomOrg w).

(** Every request is answered, and by an integer of the range asked for. *)
Fixpoint answersInRange (requests : list (Z * Z)) (answers : list Answer) : Prop :=
  match requests, answers with
  | [], [] => True
  | (lo, hi) :: requests', Drawn n :: answers' =>
      lo <= n <= hi /\ answersInRange requests' answers'
  | _, _ => False
  end.

(** Every answer of a script is a failure. *)
Definition allFail (script : list Answer) : Prop :=
  Forall (fun a => match a with Failed _ => True | Drawn _ => False end) script.

(** The lowest main number of a list of candidates. *)
Definition lowestMain (cands : list Ref) : Z :=
  match cands with
  | [] => 0
  | c :: rest => fold_right (fun x m => Z.min (main (snd x)) m) (main (snd c)) rest
  end.

(** ** What the handlers do to a giveaway *)

Definition declined (dd : DoubleDown) (g : Giveaway) : Giveaway :=
  set_doubleDown (Some (set_state no dd)) g.

Definition doubledWin (gw : Winner) (dd : DoubleDown) (g : Giveaway) : Giveaway :=
  set_doubleDown (Some (set_state yes_win dd))
    (set_pot zero
       (set_winner (value (set_payoutC (add (payoutC gw) (pot g)) gw)) g)).

Definition doubledLose (gw : Winner) (dd : DoubleDown) (g : Giveaway) : Giveaway :=
  set_doubleDown (Some (set_state yes_lose dd))
    (set_winner
       (value (set_payoutC
                 (Math_max zero
                    (sub (payoutC gw) (Math_max zero (Math_floor (baseWinC gw))))) gw))
       (set_pot (add (pot g) (Math_max zero (Math_floor (baseWinC gw)))) g)).

Definition joined (entry : Entry) (g : Giveaway) : Giveaway :=
  set_entries (entries g ++ [entry]) g.

(** The assignments that a handler makes to the giveaway it has found. *)
Inductive change : Giveaway -> Giveaway -> Prop :=
  | change_rollFailed g message :
      ended g = false -> change g (rollFailed message g)
  | change_noWinners g r :
      ended g = false -> winnersCandidates r (entries g) = [] ->
      change g (noWinners r g)
  | change_won g cfg r n i fw :
      ended g = false -> In (i, fw) (winnersCandidates r (entries g)) ->
      change g (won cfg r n fw g)
  | change_offered g cfg now r n i fw :
      ended g = false -> In (i, fw) (winnersCandidates r (entries g)) ->
      change g (offered now i fw (won cfg r n fw g))
  | change_declined g dd :
      doubleDown g = Some dd -> state dd = pending ->
      change g (declined dd g)
  | change_doubledWin g gw dd :
      winner g = value gw -> doubleDown g = Some dd -> state dd = pending ->
      change g (doubledWin gw dd g)
  | change_doubledLose g gw dd :
      winner g = value gw -> doubleDown g = Some dd -> state dd = pending ->
      change g (doubledLose gw dd g)
  | change_joined g e :
      ended g = false -> validEntry e -> doubleDownDeadline e = None ->
      change g (joined e g).

(** A giveaway as it is created. *)
Definition fresh (g : Giveaway) : Prop :=
  entries g = [] /\ ended g = false /\ roll g = None /\ winner g = absent
  /\ result g = None /\ doubleDown g = None.

(** What a handler does to the file when it is given the id [target]: nothing;
    or it changes the giveaway that it has found under that id; or it adds a
    giveaway at the end. *)
Inductive evolves (target : option string) (w w' : World) : Prop :=
  | evolves_same : giveaways w' = giveaways w -> evolves target w w'
  | evolves_change id g g' :
      target = Some id ->
      findGiveaway id (giveaways w) = Some g -> change g g' ->
      giveaways w' = assign id g' (giveaways w) -> evolves target w w'
  | evolves_create g :
      fresh g -> giveaways w' = giveaways w ++ [g] -> evolves target w w'.

(** The id of the giveaway that an event is about: the second part of the
    custom id of a component, the id that a timer was armed with. *)
Definition target (ev : Event) : option string :=
  match ev with
  | OnInteraction (ButtonInteraction customId _ _)
  | OnInteraction (ModalSubmitInteraction customId _ _) =>
      nth_error (String_split ":" customId) 1
  | OnInteraction OtherInteraction => None
  | OnTimer (ResolveTimer id) | OnTimer (DoubleDownTimer id) => Some id
  | OnCreate _ => None
  end.

(** The static properties of a giveaway. *)
Definition sameHead (g g' : Giveaway) : Prop :=
  gid g' = gid g /\ title g' = title g /\ prize g' = prize g
  /\ creatorId g' = creatorId g /\ channelId g' = channelId g
  /\ messageId g' = messageId g /\ createdAt g' = createdAt g
  /\ endsAt g' = endsAt g.

(** The same winner, but for the payout. *)
Definition sameWinner (x y : field Winner) : Prop :=
  match x, y with
  | absent, absent | null, null => True
  | value gw, value gw' =>
      w_userId gw' = w_userId gw /\ w_username gw' = w_username gw
      /\ w_main gw' = w_main gw /\ w_tiebreak gw' = w_tiebreak gw
      /\ w_choice gw' = w_choice gw /\ w_stake gw' = w_stake gw
      /\ baseWinC gw' = baseWinC gw /\ potShareC gw' = potShareC gw
  | _, _ => False
  end.

(** [g'] is a later state of [g]: the static properties are kept; the entries
    are kept, in their order and but for the double-down deadline, and entries
    are only added at the end; a giveaway that is ended stays ended, takes no
    entry and keeps its roll, its result and its winner. *)
Definition extends (g g' : Giveaway) : Prop :=
  sameHead g g'
  /\ (exists more,
        map withoutDeadline (entries g')
        = map withoutDeadline (entries g) ++ more
        /\ (ended g = true -> more = []))
  /\ (ended g = true ->
      ended g' = true /\ roll g' = roll g /\ result g' = result g
      /\ sameWinner (winner g) (winner g')).

(** ** The requests of a resolution *)

(** A range [0, hi] with more than one integer. *)
Definition properRange (q : Z * Z) : Prop := fst q = 0 /\ 1 <= snd q.

(** The entry that wins when only the roll is answered: among the candidates
    with the lowest main number, the first of those with the highest
    tiebreak. *)
Definition fallbackWinner (cands : list Ref) : option Ref :=
  hd_error
    (holdersOfMax (filter (fun c => main (snd c) =? lowestMain cands) cands)).

(** ** Custom ids *)

(** A string without a colon. *)
Fixpoint noColon (s : string) : bool :=
  match s with
  | EmptyString => true
  | String c rest => negb (Ascii.eqb c ":") && noColon rest
  end.

(** ** From the creation to the winner *)

(** The entry that [modal_join] makes of the fields of the modal. *)
Definition entryOf (user : User) (now : Z) (form : Form) : Entry := {|
  entryId := (u_id user ++ "-" ++ showZ now)%string;
  userId := u_id user;
  username := (u_username user ++ "#" ++ u_discriminator user)%string;
  main := orElse (parseInt (f_main form)) 0;
  tiebreak := orElse (parseInt (f_tiebreak form)) 0;
  stakeC := toJSON (parseFloat (if String.eqb (f_stake form) "" then "1"
                                else f_stake form));
  choice := toLowerCase (f_choice form);
  riskProfile := toLowerCase (f_risk form);
  joinedAt := now;
  doubleDownDeadline := None |}.

(** The fields pass the checks of [modal_join]. *)
Definition accepted (form : Form) : bool :=
  negb (outOfRange (parseInt (f_main form)))
  && negb (outOfRange (parseInt (f_tiebreak form)))
  && includes ["under"; "over"] (toLowerCase (f_choice form))
  && includes ["low"; "high"] (toLowerCase (f_risk form)).

(** A giveaway is created from the web page, a user presses its join button
    and submits the modal, and the timer of the resolution fires. *)
Definition lifeCycle (env1 env2 env3 env4 : Env) (body : CreateBody)
    (user : User) (form : Form) : list (Env * Event) :=
  let id := ("G-" ++ showZ (env_idNow env1))%string in
  [ (env1, OnCreate body);
    (env2, OnInteraction (ButtonInteraction (joinButtonId id) user false));
    (env3, OnInteraction (ModalSubmitInteraction (modalJoinId (Some id)) user form));
    (env4, OnTimer (ResolveTimer id)) ].

(** ** Example runs *)

Module Example.

Definition alice : User :=
  {| u_id := "1"; u_username := "alice"; u_discriminator := "0001" |}.
Definition bob : User :=
  {| u_id := "2"; u_username := "bob"; u_discriminator := "0002" |}.

Definition form (m t s c r : string) : Form :=
  {| f_main := m; f_tiebreak := t; f_stake := s; f_choice := c; f_risk := r |}.

Definition g0 : Giveaway :=
  newGiveaway defaultConfig 1700000000000 "Prize" "admin" "channel" 60.

Definition id0 : string := "G-1700000000000".

Definition world (gs : list Giveaway) (script : list Answer) : World :=
  {| giveaways := gs; randomOrg := script; asked := [] |}.

Definition run (m : M (list Effect)) (w : World) : World := snd (m w).

(** A giveaway with one entry: main 60, over, stake 1, low risk. *)
Definition joined1 : World := Eval vm_compute in
  run (modalJoin alice 10 id0 (form "60" "10" "" "over" "low")) (world [g0] []).

Definition entry1 : Entry := {|
  entryId := "1-10"; userId := "1"; username := "alice#0001";
  main := 60; tiebreak := 10; stakeC := Some (of_Z 1);
  choice := "over"; riskProfile := "low"; joinedAt := 10;
  doubleDownDeadline := None |}.

Definition g1 : Giveaway := set_entries [entry1] g0.

(** The same after a resolution that rolled 70 and announced the winner. *)
Definition resolved1 : World := Eval vm_compute in
  run (resolveGiveaway defaultConfig true 5000 id0) (withRandomOrg [Drawn 70] joined1).

(** The giveaway, its winner and its double down in [resolved1]. *)
Definition won1 : Giveaway := Eval vm_compute in hd g0 (giveaways resolved1).

Definition winner1 : Winner := Eval vm_compute in
  fst (payout defaultConfig (of_Z 1000) entry1).

Definition offer1 : DoubleDown :=
  {| state := pending; deadline := 21605000; winnerId := "1" |}.

(** The same after the winner declined the double down. *)
Definition declined1 : World := Eval vm_compute in
  run (doubleDownButton dd_no id0 "1" "1") resolved1.

Definition declined1_g : Giveaway := Eval vm_compute in hd g0 (giveaways declined1).

(** A giveaway whose only entry has main 30, under, stake -5, high risk,
    resolved with a roll of 3 and announced. *)
Definition joined2 : World := Eval vm_compute in
  run (modalJoin bob 11 id0 (form "30" "90" "-5" "under" "high")) (world [g0] []).

Definition resolved2 : World := Eval vm_compute in
  run (resolveGiveaway defaultConfig true 5000 id0) (withRandomOrg [Drawn 3] joined2).

(** Two entries with main 30: tiebreaks 10 and 90. *)
Definition low10 : Entry := {|
  entryId := "1-20"; userId := "1"; username := "alice#0001";
  main := 30; tiebreak := 10; stakeC := Some (of_Z 1);
  choice := "under"; riskProfile := "low"; joinedAt := 20;
  doubleDownDeadline := None |}.

Definition high90 : Entry := {|
  entryId := "2-21"; userId := "2"; username := "bob#0002";
  main := 30; tiebreak := 90; stakeC := Some (of_Z 1);
  choice := "under"; riskProfile := "low"; joinedAt := 21;
  doubleDownDeadline := None |}.

(** An entry with main 6, under, no stake given. *)
Definition main6 : Entry := {|
  entryId := "1-30"; userId := "1"; username := "alice#0001";
  main := 6; tiebreak := 0; stakeC := Some (of_Z 1);
  choice := "under"; riskProfile := "low"; joinedAt := 30;
  doubleDownDeadline := None |}.

(** The configuration with the pot set to 90. *)
Definition config90 : Config := {|
  cfg_pot := of_Z 90;
  conversionRateUSDPerC := conversionRateUSDPerC defaultConfig;
  houseEdge := houseEdge defaultConfig;
  riskProfiles := riskProfiles defaultConfig |}.

(** A giveaway started under that configuration, with one entry: main 50,
    under, no stake given, high risk. *)
Definition joined90 : World := Eval vm_compute in
  run (modalJoin alice 10 id0 (form "50" "7" "" "under" "high"))
      (world [newGiveaway config90 1700000000000 "Prize" "admin" "channel" 60] []).

(** What the events of the examples meet. *)
Definition env1 : Env :=
  {| env_cfg := defaultConfig; env_now := 5000; env_idNow := 1700000000000;
     env_announced := true; env_posted := Some "m1" |}.

(** The giveaway with one entry, before a roll of 70. *)
Definition rolls70 : World := withRandomOrg [Drawn 70] joined1.

(** The timer of the resolution fires, then the winner declines the double
    down. *)
Definition events1 : list (Env * Event) :=
  [ (env1, OnTimer (ResolveTimer id0));
    (env1, OnInteraction
             (ButtonInteraction (doubleDownButtonId dd_no id0 "1") alice false)) ].

(** Three entries that a roll of 3 makes candidates, before that roll and
    nothing after it. *)
Definition g3 : Giveaway := set_entries [low10; high90; main6] g0.

Definition rolls3 : World := world [g3] [Drawn 3].

(** Two giveaways created in the same millisecond. *)
Definition body1 : CreateBody :=
  {| b_channelId := Some "channel"; b_durationSec := None; b_prize := None |}.

Definition twins : World := Eval vm_compute in
  snd (runEvents [(env1, OnCreate body1); (env1, OnCreate body1)] (world [] [Drawn 70])).

Definition twin0 : Giveaway := Eval vm_compute in nth 0 (giveaways twins) g0.
Definition twin1 : Giveaway := Eval vm_compute in nth 1 (giveaways twins) g0.

(** A join through the modal of the giveaway, then the timer of the
    resolution. *)
Definition events2 : list (Env * Event) :=
  [ (env1, OnInteraction
             (ModalSubmitInteraction (modalJoinId (Some id0)) alice
                (form "60" "10" "" "over" "low")));
    (env1, OnTimer (ResolveTimer id0)) ].

(** The three entries before a roll of 3 and an answer of 5 to the request
    that follows. *)
Definition rolls3then5 : World := world [g3] [Drawn 3; Drawn 5].

(** The fields of the entry of [joined1]. *)
Definition form1 : Form := form "60" "10" "" "over" "low".

(** The three entries before a roll of 3 and the choice of the second of the
    two main numbers, and the giveaway and the winner after the resolution. *)
Definition rolls3then1 : World := world [g3] [Drawn 3; Drawn 1].

Definition won3 : Giveaway := Eval vm_compute in
  hd g0 (giveaways (snd (resolveGiveaway defaultConfig true 5000 id0 rolls3then1))).

Definition winner3 : Winner := Eval vm_compute in
  fst (payout defaultConfig (of_Z 1000) high90).

End Example.

(** * Facts about binary64 numbers *)

(** ** Signs of rounded results *)

Lemma iter_pos_invariant {A} (P : A -> Prop) (f : A -> A) :
  (forall x, P x -> P (f x)) -> forall p x, P x -> P (iter_pos f p x).
Proof.
  intros Hf. induction p as [p IH | p IH |]; intros x Hx; simpl.
  - apply IH, IH, Hf, Hx.
  - apply IH, IH, Hx.
  - apply Hf, Hx.
Qed.

Lemma shr_1_nonneg (mrs : shr_record) : 0 <= shr_m mrs -> 0 <= shr_m (shr_1 mrs).
Proof.
  destruct mrs as [m r s]. simpl.
  destruct m as [| [p | p |] | p]; simpl; lia.
Qed.

Lemma shr_fexp_nonneg (m e : Z) (l : location) :
  0 <= m -> 0 <= shr_m (fst (shr_fexp prec64 emax64 m e l)).
Proof.
  intros Hm. unfold shr_fexp, shr.
  assert (H0 : 0 <= shr_m (shr_record_of_loc m l)).
  { destruct l as [| []]; exact Hm. }
  destruct (fexp prec64 emax64 (Zdigits2 m + e) - e) as [| p | p]; simpl;
    try exact H0.
  apply (iter_pos_invariant (fun mrs => 0 <= shr_m mrs)); [exact shr_1_nonneg | exact H0].
Qed.

Lemma round_nearest_even_nonneg (m : Z) (l : location) :
  0 <= m -> 0 <= round_nearest_even m l.
Proof.
  intros Hm. destruct l as [| []]; simpl; try lia.
  destruct (Z.even m); lia.
Qed.

Lemma binary_round_aux_signed (sx : bool) (mx ex : Z) (lx : location) :
  0 <= mx -> signed sx (binary_round_aux prec64 emax64 sx mx ex lx).
Proof.
  intros Hm. unfold binary_round_aux.
  pose proof (shr_fexp_nonneg mx ex lx Hm) as H1.
  destruct (shr_fexp prec64 emax64 mx ex lx) as [mrs' e']. simpl in H1.
  pose proof (shr_fexp_nonneg _ e' loc_Exact
                (round_nearest_even_nonneg _ (loc_of_shr_record mrs') H1)) as H2.
  destruct (shr_fexp prec64 emax64 _ e' loc_Exact) as [mrs'' e'']. simpl in H2.
  destruct (shr_m mrs'') as [| m | m].
  - reflexivity.
  - destruct (e'' <=? emax64 - prec64); reflexivity.
  - lia.
Qed.

Lemma binary_round_signed (sx : bool) (mx : positive) (ex : Z) :
  signed sx (binary_round prec64 emax64 sx mx ex).
Proof.
  unfold binary_round. destruct (shl_align mx ex _) as [mz ez].
  apply binary_round_aux_signed. lia.
Qed.

Lemma binary_normalize_not_nan (m e : Z) (szero : bool) :
  binary_normalize prec64 emax64 m e szero <> S754_nan.
Proof.
  destruct m as [| p | p]; simpl.
  - discriminate.
  - pose proof (binary_round_signed false p e) as H. intros E. rewrite E in H. exact H.
  - pose proof (binary_round_signed true p e) as H. intros E. rewrite E in H. exact H.
Qed.

Lemma signed_false_nonneg (x : number) : signed false x -> nonneg x.
Proof.
  destruct x as [s | s | | s m e]; simpl; intros H; try contradiction;
    subst; reflexivity.
Qed.

Lemma signed_not_nan (s : bool) (x : number) : signed s x -> x <> NaN.
Proof. intros H E. rewrite E in H. exact H. Qed.

Lemma of_Z_not_nan (z : Z) : of_Z z <> NaN.
Proof. apply binary_normalize_not_nan. Qed.

Lemma Math_floor_not_nan (x : number) : x <> NaN -> Math_floor x <> NaN.
Proof.
  intros Hx. destruct x as [s | s | | s m e]; simpl; try discriminate.
  - contradiction Hx. reflexivity.
  - destruct (0 <=? e); [discriminate |].
    destruct s; [destruct (_ =? _) |]; apply of_Z_not_nan.
Qed.

(** [Math.max(0, x)] is [+0], a positive number or [NaN], and [NaN] only for
    [x = NaN]. *)
Lemma Math_max_zero_signed (x : number) :
  x <> NaN -> signed false (Math_max zero x).
Proof.
  intros Hx. destruct x as [s | [] | | [] m e]; simpl; try reflexivity.
  contradiction Hx. reflexivity.
Qed.

Lemma sub_not_nan (x y : number) :
  isFinite x = true -> y <> NaN -> sub x y <> NaN.
Proof.
  intros Hx Hy.
  destruct x as [sx | sx | | sx mx ex]; try discriminate Hx;
    destruct y as [sy | sy | | sy my ey]; try (contradiction Hy; reflexivity);
    simpl; try discriminate.
  - destruct sx, sy; discriminate.
  - apply binary_normalize_not_nan.
Qed.

Lemma mul_not_nan (x y : number) :
  isFinite x = true -> isFinite y = true -> mul x y <> NaN.
Proof.
  intros Hx Hy.
  destruct x as [sx | sx | | sx mx ex]; try discriminate Hx;
    destruct y as [sy | sy | | sy my ey]; try discriminate Hy;
    simpl; try discriminate.
  apply (signed_not_nan (xorb sx sy)), binary_round_aux_signed. lia.
Qed.

(** The sum of a number that is at least 0 and of a positive number or [+0]
    is a positive number or [+0]. *)
Lemma add_signed_false (x y : number) :
  nonneg x -> signed false y -> signed false (add x y).
Proof.
  intros Hx Hy.
  destruct x as [sx | [] | | [] mx ex]; try discriminate Hx;
    destruct y as [sy | sy | | sy my ey]; simpl in Hy; try contradiction;
    subst; simpl; try reflexivity.
  - destruct sx; reflexivity.
  - apply binary_round_signed.
Qed.

(** ** No overflow in the division of a percentage by 100 *)

Lemma fexp64 (e : Z) : fexp prec64 emax64 e = Z.max (e - 53) (-1074).
Proof. reflexivity. Qed.

Lemma digits2_pos_size (p : positive) : digits2_pos p = Pos.size p.
Proof. induction p as [p IH | p IH |]; simpl; try rewrite IH; reflexivity. Qed.

Lemma Zdigits2_log2 (p : positive) : Zdigits2 (Zpos p) = Z.log2 (Zpos p) + 1.
Proof.
  simpl. rewrite digits2_pos_size. destruct p as [p | p |]; simpl; try reflexivity;
    rewrite Pos.add_1_r; reflexivity.
Qed.

Lemma Zdigits2_nonneg (m : Z) : 0 <= Zdigits2 m.
Proof. destruct m; simpl; lia. Qed.

Lemma Zdigits2_lt_pow (m : Z) : 0 <= m -> m < 2 ^ Zdigits2 m.
Proof.
  intros Hm. destruct m as [| p | p]; [reflexivity | | lia].
  rewrite Zdigits2_log2.
  pose proof (Z.log2_spec (Zpos p) ltac:(lia)) as H.
  replace (Z.log2 (Zpos p) + 1) with (Z.succ (Z.log2 (Zpos p))) by lia. apply H.
Qed.

Lemma Zdigits2_le (m k : Z) : 0 <= m -> 0 <= k -> m < 2 ^ k -> Zdigits2 m <= k.
Proof.
  intros Hm Hk Hlt. destruct m as [| p | p]; [exact Hk | | lia].
  rewrite Zdigits2_log2.
  assert (Z.log2 (Zpos p) < k) by (apply Z.log2_lt_pow2; lia). lia.
Qed.

Lemma Zdigits2_succ (m : Z) : 0 <= m -> Zdigits2 (m + 1) <= Zdigits2 m + 1.
Proof.
  intros Hm. destruct m as [| p | p]; [simpl; lia | | lia].
  replace (Zpos p + 1) with (Zpos (p + 1)) by lia.
  rewrite !Zdigits2_log2.
  pose proof (Z.log2_succ_le (Zpos p)) as H.
  replace (Z.succ (Zpos p)) with (Zpos (p + 1)) in H by lia. lia.
Qed.

Lemma shr_1_digits (mrs : shr_record) :
  0 <= shr_m mrs ->
  0 <= shr_m (shr_1 mrs)
  /\ Zdigits2 (shr_m (shr_1 mrs)) = Z.max 0 (Zdigits2 (shr_m mrs) - 1).
Proof.
  destruct mrs as [m r s]. simpl.
  destruct m as [| [p | p |] | p]; cbn [shr_1 shr_m Zdigits2 digits2_pos];
    change PosDef.Pos.succ with Pos.succ; lia.
Qed.

Lemma iter_shr_1_digits (p : positive) (mrs : shr_record) :
  0 <= shr_m mrs ->
  0 <= shr_m (iter_pos shr_1 p mrs)
  /\ Zdigits2 (shr_m (iter_pos shr_1 p mrs))
     = Z.max 0 (Zdigits2 (shr_m mrs) - Zpos p).
Proof.
  revert mrs. induction p as [p IH | p IH |]; intros mrs Hm; simpl.
  - destruct (shr_1_digits mrs Hm) as [H1 D1].
    destruct (IH _ H1) as [H2 D2]. destruct (IH _ H2) as [H3 D3].
    split; [exact H3 |]. rewrite D3, D2, D1. lia.
  - destruct (IH _ Hm) as [H2 D2]. destruct (IH _ H2) as [H3 D3].
    split; [exact H3 |]. rewrite D3, D2. lia.
  - apply shr_1_digits, Hm.
Qed.

Lemma shr_fexp_bounds (m e : Z) (l : location) :
  0 <= m ->
  let r := shr_fexp prec64 emax64 m e l in
  0 <= shr_m (fst r)
  /\ snd r = Z.max e (fexp prec64 emax64 (Zdigits2 m + e))
  /\ Zdigits2 (shr_m (fst r)) + snd r <= Z.max (snd r) (Zdigits2 m + e).
Proof.
  intros Hm. unfold shr_fexp, shr.
  assert (H0 : shr_m (shr_record_of_loc m l) = m) by (destruct l as [| []]; reflexivity).
  remember (fexp prec64 emax64 (Zdigits2 m + e)) as f.
  destruct (f - e) as [| p | p] eqn:Hn; simpl.
  - rewrite H0. repeat split; lia.
  - destruct (iter_shr_1_digits p (shr_record_of_loc m l)) as [H1 D1]; [rewrite H0; exact Hm |].
    rewrite H0 in D1. repeat split; [exact H1 | lia | rewrite D1; lia].
  - rewrite H0. repeat split; lia.
Qed.

Lemma round_nearest_even_digits (m : Z) (l : location) :
  0 <= m ->
  0 <= round_nearest_even m l
  /\ Zdigits2 (round_nearest_even m l) <= Zdigits2 m + 1.
Proof.
  intros Hm. pose proof (Zdigits2_succ m Hm).
  destruct l as [| []]; simpl; try (split; lia).
  destruct (Z.even m); split; lia.
Qed.

Lemma binary_round_aux_finite (sx : bool) (mx ex : Z) (lx : location) :
  0 <= mx -> ex <= 970 -> Zdigits2 mx + ex <= 1023 ->
  isFinite (binary_round_aux prec64 emax64 sx mx ex lx) = true.
Proof.
  intros Hm He Hd. unfold binary_round_aux.
  destruct (shr_fexp_bounds mx ex lx Hm) as (H1 & E1 & D1).
  destruct (shr_fexp prec64 emax64 mx ex lx) as [mrs' e']. simpl in H1, E1, D1.
  destruct (round_nearest_even_digits (shr_m mrs') (loc_of_shr_record mrs') H1) as [H2 D2].
  destruct (shr_fexp_bounds _ e' loc_Exact H2) as (H3 & E3 & D3).
  destruct (shr_fexp prec64 emax64 _ e' loc_Exact) as [mrs'' e'']. simpl in H3, E3, D3.
  rewrite fexp64 in E1, E3.
  destruct (shr_m mrs'') as [| m | m]; [reflexivity | | lia].
  assert (Hle : e'' <= 971) by lia.
  change (emax64 - prec64) with 971.
  apply Z.leb_le in Hle. rewrite Hle. reflexivity.
Qed.

Lemma of_Z_100 : of_Z 100 = S754_finite false hundred_m (-46).
Proof. vm_compute. reflexivity. Qed.

Lemma bounded_digits (mx : positive) (ex : Z) :
  bounded prec64 emax64 mx ex = true ->
  Zdigits2 (Zpos mx) + ex <= 1024.
Proof.
  unfold bounded, canonical_mantissa. rewrite andb_true_iff, Z.eqb_eq, Z.leb_le, fexp64.
  change (emax64 - prec64) with 971. simpl Zdigits2. lia.
Qed.

Lemma div_core_hundred (mx : positive) (ex : Z) :
  Zdigits2 (Zpos mx) + ex <= 1024 ->
  let r := SFdiv_core_binary prec64 emax64 (Zpos mx) ex (Zpos hundred_m) (-46) in
  0 <= fst (fst r) /\ snd (fst r) <= 970 /\ Zdigits2 (fst (fst r)) + snd (fst r) <= 1023.
Proof.
  intros Hb. unfold SFdiv_core_binary.
  change (Zdigits2 (Zpos hundred_m)) with 53.
  set (d1 := Zdigits2 (Zpos mx)) in *.
  rewrite fexp64.
  set (e' := Z.min _ _).
  assert (He' : e' <= 964) by (subst e'; lia).
  assert (He'' : e' <= ex + 46) by (subst e'; lia).
  set (s := ex - -46 - e').
  assert (Hs : 0 <= s) by (subst s; lia).
  set (m' := match s with 0 => Z.pos mx | Z.pos _ => IntDef.Z.shiftl (Z.pos mx) s | Z.neg _ => 0 end).
  assert (Hm' : m' = Zpos mx * 2 ^ s).
  { subst m'. destruct s as [| p | p] eqn:Es.
    - lia.
    - change IntDef.Z.shiftl with Z.shiftl. apply Z.shiftl_mul_pow2. lia.
    - lia. }
  change IntDef.Z.div_eucl with Z.div_eucl.
  pose proof (Z_div_mod m' (Zpos hundred_m) ltac:(reflexivity)) as Hdiv.
  destruct (Z.div_eucl m' (Zpos hundred_m)) as [q r]. simpl.
  destruct Hdiv as [Hq Hr].
  assert (Hmx : Zpos mx < 2 ^ d1) by (apply Zdigits2_lt_pow; lia).
  assert (Hd1 : 0 <= d1) by apply Zdigits2_nonneg.
  assert (Hpow : m' < 2 ^ (d1 + s)).
  { rewrite Hm', Z.pow_add_r by lia. apply Z.mul_lt_mono_pos_r; [apply Z.pow_pos_nonneg; lia | exact Hmx]. }
  assert (H52 : 2 ^ 52 <= Zpos hundred_m) by (vm_compute; discriminate).
  assert (Hq0 : 0 <= q) by nia.
  set (k := Z.max 0 (d1 + s - 52)).
  assert (Hqk : q < 2 ^ k).
  { assert (Hle : 2 ^ (d1 + s) <= 2 ^ (k + 52)) by (apply Z.pow_le_mono_r; subst k; lia).
    rewrite (Z.pow_add_r 2 k 52) in Hle by (subst k; lia).
    assert (Hk : 0 < 2 ^ k) by (apply Z.pow_pos_nonneg; subst k; lia).
    destruct (Z.lt_ge_cases q (2 ^ k)) as [Hlt | Hge]; [exact Hlt | exfalso].
    assert (Hmul : 2 ^ k * 2 ^ 52 <= q * Zpos hundred_m)
      by (apply Z.mul_le_mono_nonneg; lia).
    lia. }
  assert (Hdq : Zdigits2 q <= k) by (apply Zdigits2_le; [exact Hq0 | subst k; lia | exact Hqk]).
  subst k s. repeat split; lia.
Qed.

Lemma div_hundred_finite (x : number) :
  isFinite x = true -> valid_binary prec64 emax64 x = true ->
  isFinite (div x (of_Z 100)) = true.
Proof.
  intros Hf Hv. rewrite of_Z_100.
  destruct x as [s | s | | s m e]; try discriminate Hf; [reflexivity |].
  simpl in Hv. unfold div, SFdiv.
  pose proof (div_core_hundred m e (bounded_digits m e Hv)) as H.
  destruct (SFdiv_core_binary prec64 emax64 (Zpos m) e (Zpos hundred_m) (-46))
    as [[mz ez] lz].
  simpl in H. destruct H as (H1 & H2 & H3).
  apply binary_round_aux_finite; assumption.
Qed.

(** * Facts about the handlers *)

(** ** The file after a change in place *)

Lemma findGiveaway_assign (id : string) (data : list Giveaway) (g g' : Giveaway) :
  findGiveaway id data = Some g -> gid g' = gid g ->
  findGiveaway id (assign id g' data) = Some g'.
Proof.
  unfold findGiveaway. intros Hf Hid.
  induction data as [| x rest IH]; simpl in *.
  - discriminate.
  - destruct (String.eqb (gid x) id) eqn:Hx.
    + injection Hf as ->. simpl. rewrite Hid, Hx. reflexivity.
    + simpl. rewrite Hx. apply IH. exact Hf.
Qed.

(** Stepping through a handler. *)
Ltac step :=
  repeat (progress (unfold bind, ret, loadGiveaways, saveGiveaways,
                      randomOrgInteger; simpl)).

(** ** The paths of [resolveGiveaway] *)

Lemma randomOrgInteger_giveaways (lo hi : Z) (w : World) :
  giveaways (snd (randomOrgInteger lo hi w)) = giveaways w.
Proof. reflexivity. Qed.

Lemma resolveGroup_giveaways (arr : list Ref) (w : World) :
  giveaways (snd (resolveGroup arr w)) = giveaways w.
Proof.
  unfold resolveGroup.
  destruct arr as [| a [| b arr]]; try reflexivity;
    destruct (tiedTop _) as [| t [| t' tied]]; try reflexivity;
    step; destruct (hd _ (randomOrg w)); reflexivity.
Qed.

Lemma resolveGroups_giveaways (groups : list (list Ref)) (w : World) :
  giveaways (snd (resolveGroups groups w)) = giveaways w.
Proof.
  revert w. induction groups as [| arr rest IH]; intros w; simpl.
  - reflexivity.
  - unfold bind.
    destruct (resolveGroup arr w) as [x w1] eqn:H1.
    specialize (IH w1). destruct (resolveGroups rest w1) as [xs w2] eqn:H2.
    simpl in *. rewrite IH.
    change w1 with (snd (x, w1)). rewrite <- H1. apply resolveGroup_giveaways.
Qed.

Lemma pickFinalWinner_giveaways (resolved : list (option Ref)) (w : World) :
  giveaways (snd (pickFinalWinner resolved w)) = giveaways w.
Proof.
  unfold pickFinalWinner.
  destruct resolved as [| x [| y resolved]]; try reflexivity;
    step; destruct (hd _ (randomOrg w)); reflexivity.
Qed.

Lemma chooseWinner_giveaways (cands : list Ref) (w : World) :
  giveaways (snd (chooseWinner cands w)) = giveaways w.
Proof.
  unfold chooseWinner, bind.
  destruct (resolveGroups _ w) as [resolved w1] eqn:H1.
  destruct (pickFinalWinner resolved w1) as [fw w2] eqn:H2. simpl.
  change w2 with (snd (fw, w2)). rewrite <- H2, pickFinalWinner_giveaways.
  change w1 with (snd (resolved, w1)). rewrite <- H1. apply resolveGroups_giveaways.
Qed.

Lemma chooseWinner_nil (w : World) : snd (fst (chooseWinner [] w)) = None.
Proof.
  unfold chooseWinner, pickFinalWinner. step.
  destruct (hd _ (randomOrg w)) as [n |]; [| reflexivity].
  simpl. unfold at_. destruct (n <? 0); [reflexivity |].
  destruct (Z.to_nat n); reflexivity.
Qed.

Lemma resolve_missing (cfg : Config) (announced : bool) (now : Z) (id : string)
    (w : World) :
  findGiveaway id (giveaways w) = None ->
  resolveGiveaway cfg announced now id w = ([], w).
Proof.
  intros H. unfold resolveGiveaway. step. rewrite H. reflexivity.
Qed.

Lemma resolve_ended (cfg : Config) (announced : bool) (now : Z) (id : string)
    (w : World) (g : Giveaway) :
  findGiveaway id (giveaways w) = Some g -> ended g = true ->
  resolveGiveaway cfg announced now id w = ([], w).
Proof.
  intros H He. unfold resolveGiveaway. step. rewrite H, He. reflexivity.
Qed.

Lemma resolve_roll_failed (cfg : Config) (announced : bool) (now : Z)
    (id : string) (w : World) (g : Giveaway) (message : string) :
  findGiveaway id (giveaways w) = Some g -> ended g = false ->
  hd (Failed "") (randomOrg w) = Failed message ->
  resolveGiveaway cfg announced now id w
  = ([ConsoleError "Random.org roll failed:"],
     {| giveaways := assign id (rollFailed message g) (giveaways w);
        randomOrg := tl (randomOrg w);
        asked := asked w ++ [(0, 100)] |}).
Proof.
  intros H He Hr. unfold resolveGiveaway. step. rewrite H, He, Hr. reflexivity.
Qed.

Lemma resolve_no_candidates (cfg : Config) (announced : bool) (now : Z)
    (id : string) (w : World) (g : Giveaway) (r : Z) :
  findGiveaway id (giveaways w) = Some g -> ended g = false ->
  hd (Failed "") (randomOrg w) = Drawn r ->
  winnersCandidates r (entries g) = [] ->
  resolveGiveaway cfg announced now id w
  = ([], {| giveaways := assign id (noWinners r g) (giveaways w);
            randomOrg := tl (randomOrg w);
            asked := asked w ++ [(0, 100)] |}).
Proof.
  intros H He Hr Hc. unfold resolveGiveaway. step. rewrite H, He, Hr. simpl.
  rewrite Hc. reflexivity.
Qed.

Lemma resolve_chosen (cfg : Config) (announced : bool) (now : Z)
    (id : string) (w : World) (g : Giveaway) (r : Z) :
  findGiveaway id (giveaways w) = Some g -> ended g = false ->
  hd (Failed "") (randomOrg w) = Drawn r ->
  winnersCandidates r (entries g) <> [] ->
  let c := chooseWinner (winnersCandidates r (entries g)) (rolled w) in
  resolveGiveaway cfg announced now id w
  = match snd (fst c) with
    | None => ([TypeError], snd c)
    | Some (i, fw) =>
        let g1 := won cfg r (List.length (fst (fst c))) fw g in
        if announced then
          ([SetTimeout (DoubleDownTimer id) (sixHours + 5000)],
           {| giveaways := assign id (offered now i fw g1) (giveaways w);
              randomOrg := randomOrg (snd c); asked := asked (snd c) |})
        else
          ([ConsoleError "Failed announce winner:"],
           {| giveaways := assign id g1 (giveaways w);
              randomOrg := randomOrg (snd c); asked := asked (snd c) |})
    end.
Proof.
  intros H He Hr Hc c. unfold resolveGiveaway. step. rewrite H, He, Hr. simpl.
  destruct (winnersCandidates r (entries g)) as [| c0 cands] eqn:Hw;
    [contradiction Hc; reflexivity |].
  unfold rolled, randomOrgInteger in c. simpl in c. fold c.
  destruct c as [[resolved [[i fw] |]] w3]; simpl.
  - unfold payout. simpl. destruct announced; reflexivity.
  - reflexivity.
Qed.

(** * Facts about the choice of the winner *)

(** ** The candidates *)

Lemma isCandidate_spec (r : Z) (e : Entry) :
  isCandidate r e = true <-> satisfiesRoll r e.
Proof.
  unfold isCandidate, satisfiesRoll.
  destruct (String.eqb_spec (choice e) "under") as [Hu | Hu].
  - rewrite Z.leb_le. split.
    + intros H. left. split; assumption.
    + intros [[_ H] | [Ho _]]; [assumption | rewrite Hu in Ho; discriminate].
  - destruct (String.eqb_spec (choice e) "over") as [Ho | Ho].
    + rewrite Z.geb_le. split.
      * intros H. right. split; [assumption | lia].
      * intros [[Hu' _] | [_ H]]; [contradiction | lia].
    + split; [discriminate | intros [[H _] | [H _]]; contradiction].
Qed.

Lemma map_snd_refs (es : list Entry) : map snd (refs es) = es.
Proof.
  unfold refs. generalize 0%nat. induction es as [| e es IH]; intros n.
  - reflexivity.
  - simpl. f_equal. apply IH.
Qed.

Lemma map_snd_filter {A B} (p : B -> bool) (l : list (A * B)) :
  map snd (filter (fun w => p (snd w)) l) = filter p (map snd l).
Proof.
  induction l as [| [a b] l IH]; simpl.
  - reflexivity.
  - destruct (p b); simpl; rewrite IH; reflexivity.
Qed.

Lemma winnersCandidates_entries (r : Z) (es : list Entry) :
  map snd (winnersCandidates r es) = filter (isCandidate r) es.
Proof.
  unfold winnersCandidates. rewrite map_snd_filter, map_snd_refs. reflexivity.
Qed.

Lemma winnersCandidates_nil (r : Z) (es : list Entry) :
  (forall e, In e es -> ~ satisfiesRoll r e) -> winnersCandidates r es = [].
Proof.
  intros H.
  assert (Hm : map snd (winnersCandidates r es) = []).
  { rewrite winnersCandidates_entries.
    induction es as [| e es IH]; simpl.
    - reflexivity.
    - destruct (isCandidate r e) eqn:Hc.
      + exfalso. apply (H e); [left; reflexivity | apply isCandidate_spec; exact Hc].
      + apply IH. intros e' He'. apply H. right. exact He'. }
  destruct (winnersCandidates r es); [reflexivity | discriminate].
Qed.

Lemma refs_nth_error (es : list Entry) (i : nat) (e : Entry) :
  In (i, e) (refs es) -> nth_error es i = Some e.
Proof.
  unfold refs.
  assert (H : forall n, In (i, e) (combine (seq n (List.length es)) es) ->
                        exists j, i = (n + j)%nat /\ nth_error es j = Some e).
  { induction es as [| a es IH]; intros n; simpl.
    - intros [].
    - intros [[= <- <-] | Hin].
      + exists 0%nat. split; [lia | reflexivity].
      + destruct (IH (S n) Hin) as [j [-> Hj]]. exists (S j). split; [lia | exact Hj]. }
  intros Hin. destruct (H 0%nat Hin) as [j [-> Hj]]. exact Hj.
Qed.

Lemma candidate_entry (r : Z) (es : list Entry) (i : nat) (fw : Entry) :
  In (i, fw) (winnersCandidates r es) ->
  nth_error es i = Some fw /\ satisfiesRoll r fw.
Proof.
  unfold winnersCandidates. intros H. apply filter_In in H. destruct H as [Hin Hc].
  split; [apply refs_nth_error; exact Hin | apply isCandidate_spec; exact Hc].
Qed.

Lemma winnersCandidates_none (r : Z) (es : list Entry) (e : Entry) :
  winnersCandidates r es = [] -> In e es -> ~ satisfiesRoll r e.
Proof.
  intros Hn Hin Hsat. apply isCandidate_spec in Hsat.
  assert (Hf : In e (filter (isCandidate r) es)) by (apply filter_In; auto).
  rewrite <- winnersCandidates_entries, Hn in Hf. exact Hf.
Qed.

Lemma entry_candidate (r : Z) (es : list Entry) (e : Entry) :
  In e es -> satisfiesRoll r e -> exists i, In (i, e) (winnersCandidates r es).
Proof.
  intros Hin Hsat. apply isCandidate_spec in Hsat.
  assert (H : In e (map snd (winnersCandidates r es))).
  { rewrite winnersCandidates_entries. apply filter_In. auto. }
  apply in_map_iff in H. destruct H as [[i e'] [He' Hc]]. simpl in He'. subst e'.
  exists i. exact Hc.
Qed.

(** ** The groups *)

Lemma getGroup_pushGroup (w : Ref) (grouped : list (Z * list Ref)) (k : Z) :
  getGroup (pushGroup w grouped) k
  = if k =? main (snd w) then getGroup grouped k ++ [w] else getGroup grouped k.
Proof.
  unfold getGroup. induction grouped as [| [k0 arr] rest IH]; simpl.
  - rewrite (Z.eqb_sym (main (snd w)) k). destruct (k =? main (snd w)); reflexivity.
  - destruct (k0 =? main (snd w)) eqn:H0; simpl.
    + apply Z.eqb_eq in H0. subst k0.
      rewrite (Z.eqb_sym (main (snd w)) k). destruct (k =? main (snd w)); reflexivity.
    + destruct (k0 =? k) eqn:H1.
      * apply Z.eqb_eq in H1. subst k0. rewrite H0. reflexivity.
      * exact IH.
Qed.

(** The group of a main number holds the candidates with that main number, in
    the order of the candidates. *)
Lemma getGroup_groupByMain (cands : list Ref) (k : Z) :
  getGroup (groupByMain cands) k = filter (fun w => main (snd w) =? k) cands.
Proof.
  unfold groupByMain.
  assert (H : forall acc,
             getGroup (fold_left (fun grouped w => pushGroup w grouped) cands acc) k
             = getGroup acc k ++ filter (fun w => main (snd w) =? k) cands).
  { induction cands as [| c cands IH]; intros acc; simpl.
    - rewrite app_nil_r. reflexivity.
    - rewrite IH, getGroup_pushGroup, (Z.eqb_sym (main (snd c)) k).
      destruct (k =? main (snd c)); [rewrite <- app_assoc |]; reflexivity. }
  rewrite H. reflexivity.
Qed.

Lemma filter_insertByTiebreak (k : Z) (a : Ref) (l : list Ref) :
  filter (fun e => tiebreak (snd e) =? k) (insertByTiebreak a l)
  = filter (fun e => tiebreak (snd e) =? k) (a :: l).
Proof.
  induction l as [| b rest IH]; simpl.
  - reflexivity.
  - destruct (tiebreak (snd b) <=? tiebreak (snd a)) eqn:Hle; simpl.
    + reflexivity.
    + rewrite IH. simpl. apply Z.leb_gt in Hle.
      destruct (tiebreak (snd a) =? k) eqn:Ha, (tiebreak (snd b) =? k) eqn:Hb;
        try reflexivity.
      apply Z.eqb_eq in Ha, Hb. lia.
Qed.

(** The sort keeps the entries of equal tiebreak in their order. *)
Lemma filter_sortByTiebreak (k : Z) (arr : list Ref) :
  filter (fun e => tiebreak (snd e) =? k) (sortByTiebreak arr)
  = filter (fun e => tiebreak (snd e) =? k) arr.
Proof.
  induction arr as [| a rest IH]; simpl.
  - reflexivity.
  - rewrite filter_insertByTiebreak. simpl. rewrite IH. reflexivity.
Qed.

Lemma sortByTiebreak_head (a : Ref) (rest : list Ref) :
  exists top tail,
    sortByTiebreak (a :: rest) = top :: tail
    /\ tiebreak (snd top) = maxTiebreak (a :: rest).
Proof.
  revert a. induction rest as [| b rest IH]; intros a.
  - exists a, []. split; reflexivity.
  - destruct (IH b) as [top [tail [Hs Hm]]].
    change (sortByTiebreak (a :: b :: rest))
      with (insertByTiebreak a (sortByTiebreak (b :: rest))).
    change (maxTiebreak (a :: b :: rest))
      with (Z.max (tiebreak (snd a)) (maxTiebreak (b :: rest))).
    rewrite Hs, <- Hm. simpl.
    destruct (tiebreak (snd top) <=? tiebreak (snd a)) eqn:Hle.
    + exists a, (top :: tail). apply Z.leb_le in Hle. split; [reflexivity | lia].
    + exists top, (insertByTiebreak a tail). apply Z.leb_gt in Hle.
      split; [reflexivity | lia].
Qed.

Lemma tiedTop_sortByTiebreak (arr : list Ref) :
  tiedTop (sortByTiebreak arr) = holdersOfMax arr.
Proof.
  destruct arr as [| a rest]; [reflexivity |].
  destruct (sortByTiebreak_head a rest) as [top [tail [Hs Hm]]].
  unfold tiedTop, holdersOfMax. rewrite Hs, <- Hs, Hm.
  apply filter_sortByTiebreak.
Qed.

Lemma hd_error_tiedTop (sorted : list Ref) :
  hd_error (tiedTop sorted) = hd_error sorted.
Proof.
  destruct sorted as [| top tail]; [reflexivity |].
  simpl. rewrite Z.eqb_refl. reflexivity.
Qed.

(** What the body of the loop does, in terms of the holders of the highest
    tiebreak. *)
Lemma resolveGroup_holders (arr : list Ref) (w : World) :
  resolveGroup arr w
  = match holdersOfMax arr with
    | [x] => (Some x, w)
    | tied =>
        (match hd (Failed "") (randomOrg w) with
         | Drawn i => at_ tied i
         | Failed _ => hd_error tied
         end,
         snd (randomOrgInteger 0 (Z.of_nat (List.length tied) - 1) w))
    end.
Proof.
  assert (Hgen : (let sorted := sortByTiebreak arr in
                  let tied := tiedTop sorted in
                  match tied with
                  | [_] => ret (hd_error sorted)
                  | _ =>
                      r <- randomOrgInteger 0 (Z.of_nat (List.length tied) - 1) ;;
                      match r with
                      | Drawn i => ret (at_ tied i)
                      | Failed _ => ret (hd_error tied)
                      end
                  end) w
                 = match holdersOfMax arr with
                   | [x] => (Some x, w)
                   | tied =>
                       (match hd (Failed "") (randomOrg w) with
                        | Drawn i => at_ tied i
                        | Failed _ => hd_error tied
                        end,
                        snd (randomOrgInteger 0 (Z.of_nat (List.length tied) - 1) w))
                   end).
  { simpl. rewrite <- (hd_error_tiedTop (sortByTiebreak arr)), tiedTop_sortByTiebreak.
    destruct (holdersOfMax arr) as [| x [| y tied]]; try reflexivity;
      step; destruct (hd _ (randomOrg w)); reflexivity. }
  destruct arr as [| a [| b rest]]; try exact Hgen.
  unfold resolveGroup, holdersOfMax. simpl. rewrite Z.eqb_refl. reflexivity.
Qed.

Lemma maxTiebreak_upper (arr : list Ref) (y : Ref) :
  In y arr -> tiebreak (snd y) <= maxTiebreak arr.
Proof.
  induction arr as [| a rest IH]; [intros [] |].
  intros [<- | Hy].
  - destruct rest; simpl; lia.
  - specialize (IH Hy). destruct rest as [| b rest]; [destruct Hy |].
    change (maxTiebreak (a :: b :: rest))
      with (Z.max (tiebreak (snd a)) (maxTiebreak (b :: rest))). lia.
Qed.

Lemma maxTiebreak_attained (arr : list Ref) :
  arr <> [] -> exists y, In y arr /\ tiebreak (snd y) = maxTiebreak arr.
Proof.
  induction arr as [| a rest IH]; [intros H; contradiction H; reflexivity |].
  intros _. destruct rest as [| b rest].
  - exists a. split; [left |]; reflexivity.
  - destruct IH as [y [Hy Hm]]; [discriminate |].
    change (maxTiebreak (a :: b :: rest))
      with (Z.max (tiebreak (snd a)) (maxTiebreak (b :: rest))).
    destruct (Z.max_spec (tiebreak (snd a)) (maxTiebreak (b :: rest)))
      as [[_ ->] | [_ ->]].
    + exists y. split; [right; exact Hy | exact Hm].
    + exists a. split; [left |]; reflexivity.
Qed.



Lemma holdersOfMax_nonempty (arr : list Ref) : arr <> [] -> holdersOfMax arr <> [].
Proof.
  intros Hne Hn. destruct (maxTiebreak_attained arr Hne) as [y [Hy Hm]].
  assert (Hin : In y (holdersOfMax arr)).
  { unfold holdersOfMax. apply filter_In. split; [exact Hy | apply Z.eqb_eq; exact Hm]. }
  rewrite Hn in Hin. exact Hin.
Qed.

Lemma pushGroup_keys (w : Ref) (grouped : list (Z * list Ref)) :
  map fst (pushGroup w grouped)
  = if existsb (Z.eqb (main (snd w))) (map fst grouped)
    then map fst grouped
    else map fst grouped ++ [main (snd w)].
Proof.
  induction grouped as [| [k arr] rest IH]; [reflexivity |].
  simpl. rewrite (Z.eqb_sym (main (snd w)) k).
  destruct (k =? main (snd w)); simpl; [reflexivity |].
  rewrite IH. destruct (existsb _ (map fst rest)); reflexivity.
Qed.

Lemma existsb_eqb_In (k : Z) (l : list Z) :
  existsb (Z.eqb k) l = true <-> In k l.
Proof.
  rewrite existsb_exists. split.
  - intros [x [Hx He]]. apply Z.eqb_eq in He. subst. exact Hx.
  - intros H. exists k. split; [exact H | apply Z.eqb_refl].
Qed.

Lemma groupByMain_keys_acc (cands : list Ref) (acc : list (Z * list Ref)) :
  let grouped := fold_left (fun grouped w => pushGroup w grouped) cands acc in
  (NoDup (map fst acc) -> NoDup (map fst grouped))
  /\ (forall k, In k (map fst grouped)
               <-> In k (map fst acc) \/ exists c, In c cands /\ main (snd c) = k).
Proof.
  revert acc. induction cands as [| c cands IH]; intros acc; simpl.
  - split; [auto |]. intros k. split; [auto |]. intros [H | [c [[] _]]]. exact H.
  - destruct (IH (pushGroup c acc)) as [IH1 IH2]. split.
    + intros Hnd. apply IH1. rewrite pushGroup_keys.
      destruct (existsb _ (map fst acc)) eqn:He; [exact Hnd |].
      apply NoDup_app; [exact Hnd | repeat constructor; intros [] |].
      intros x Hx [<- | []].
      apply existsb_eqb_In in Hx. congruence.
    + intros k. rewrite IH2, pushGroup_keys.
      destruct (existsb _ (map fst acc)) eqn:He.
      * apply existsb_eqb_In in He. split.
        -- intros [H | [c' [Hc' Hm]]]; [auto | right; exists c'; auto].
        -- intros [H | [c' [[<- | Hc'] Hm]]]; [auto | subst; auto |].
           right. exists c'. auto.
      * rewrite in_app_iff. simpl. split.
        -- intros [[H | [<- | []]] | [c' [Hc' Hm]]]; [auto | | ].
           ++ right. exists c. auto.
           ++ right. exists c'. auto.
        -- intros [H | [c' [[<- | Hc'] Hm]]]; [auto | subst; auto |].
           right. exists c'. auto.
Qed.

Lemma groupByMain_keys (cands : list Ref) (k : Z) :
  In k (map fst (groupByMain cands)) <-> exists c, In c cands /\ main (snd c) = k.
Proof.
  unfold groupByMain. destruct (groupByMain_keys_acc cands []) as [_ H].
  rewrite H. simpl. tauto.
Qed.

Lemma groupByMain_NoDup (cands : list Ref) : NoDup (map fst (groupByMain cands)).
Proof.
  unfold groupByMain. destruct (groupByMain_keys_acc cands []) as [H _].
  apply H. constructor.
Qed.

Lemma insertAsc_Permutation (k : Z) (l : list Z) :
  Permutation (insertAsc k l) (k :: l).
Proof.
  induction l as [| x rest IH]; simpl; [apply Permutation_refl |].
  destruct (k <=? x); [apply Permutation_refl |].
  apply (Permutation_trans (perm_skip x IH)). apply perm_swap.
Qed.

Lemma sortAsc_Permutation (l : list Z) :
  Permutation (fold_right insertAsc [] l) l.
Proof.
  induction l as [| x rest IH]; simpl; [constructor |].
  apply (Permutation_trans (insertAsc_Permutation x _)). constructor. exact IH.
Qed.

Lemma filter_partition_Permutation {A} (f : A -> bool) (l : list A) :
  Permutation (filter f l ++ filter (fun x => negb (f x)) l) l.
Proof.
  induction l as [| x rest IH]; simpl; [constructor |].
  destruct (f x); simpl.
  - constructor. exact IH.
  - apply Permutation_sym. apply (Permutation_trans (perm_skip x (Permutation_sym IH))).
    apply Permutation_middle.
Qed.

Lemma objectKeys_Permutation (grouped : list (Z * list Ref)) :
  Permutation (objectKeys grouped) (map fst grouped).
Proof.
  unfold objectKeys.
  apply (Permutation_trans
           (Permutation_app_tail _ (sortAsc_Permutation (filter isIndex (map fst grouped))))).
  apply filter_partition_Permutation.
Qed.

Lemma objectKeys_group (cands : list Ref) (k : Z) :
  In k (objectKeys (groupByMain cands)) ->
  getGroup (groupByMain cands) k <> [].
Proof.
  intros H. apply (Permutation_in _ (objectKeys_Permutation _)) in H.
  apply groupByMain_keys in H. destruct H as [c [Hc Hm]].
  rewrite getGroup_groupByMain. intros Hn.
  assert (Hin : In c (filter (fun w => main (snd w) =? k) cands)).
  { apply filter_In. split; [exact Hc | apply Z.eqb_eq; exact Hm]. }
  rewrite Hn in Hin. exact Hin.
Qed.

Lemma objectKeys_nonempty (cands : list Ref) :
  cands <> [] -> objectKeys (groupByMain cands) <> [].
Proof.
  intros Hne Hn. destruct cands as [| c cands]; [contradiction Hne; reflexivity |].
  assert (H : In (main (snd c)) (map fst (groupByMain (c :: cands)))).
  { apply groupByMain_keys. exists c. split; [left |]; reflexivity. }
  apply (Permutation_in _ (Permutation_sym (objectKeys_Permutation _))) in H.
  rewrite Hn in H. exact H.
Qed.

(** ** The entry chosen *)

Lemma at_In {A} (l : list A) (i : Z) (x : A) : at_ l i = Some x -> In x l.
Proof.
  unfold at_. destruct (i <? 0); [discriminate |]. apply nth_error_In.
Qed.

Lemma hd_error_In {A} (l : list A) (x : A) : hd_error l = Some x -> In x l.
Proof. destruct l; [discriminate |]. intros [= ->]. left. reflexivity. Qed.

Lemma holdersOfMax_In (arr : list Ref) (x : Ref) :
  In x (holdersOfMax arr) -> In x arr.
Proof. unfold holdersOfMax. intros H. apply filter_In in H. apply H. Qed.

Lemma resolveGroup_In (arr : list Ref) (w : World) (x : Ref) :
  fst (resolveGroup arr w) = Some x -> In x arr.
Proof.
  rewrite resolveGroup_holders. intros H. apply holdersOfMax_In.
  destruct (holdersOfMax arr) as [| a [| b tied]] eqn:Ht; cbn [fst] in H.
  - destruct (hd _ (randomOrg w)); [apply at_In in H | apply hd_error_In in H]; exact H.
  - injection H as <-. left. reflexivity.
  - destruct (hd _ (randomOrg w)); [apply at_In in H | apply hd_error_In in H]; exact H.
Qed.

Lemma resolveGroups_In (groups : list (list Ref)) (w : World) (x : Ref) :
  In (Some x) (fst (resolveGroups groups w)) ->
  exists arr, In arr groups /\ In x arr.
Proof.
  revert w. induction groups as [| arr rest IH]; intros w; simpl.
  - intros [].
  - unfold bind. destruct (resolveGroup arr w) as [y w1] eqn:H1.
    destruct (resolveGroups rest w1) as [ys w2] eqn:H2. simpl.
    intros [Hy | Hin].
    + exists arr. split; [left; reflexivity |].
      apply (resolveGroup_In arr w). rewrite H1. exact Hy.
    + destruct (IH w1) as [arr' [Ha Hx]]; [rewrite H2; exact Hin |].
      exists arr'. split; [right |]; assumption.
Qed.

Lemma pickFinalWinner_In (resolved : list (option Ref)) (w : World) (x : Ref) :
  fst (pickFinalWinner resolved w) = Some x -> In (Some x) resolved.
Proof.
  unfold pickFinalWinner.
  assert (Hu : forall o : option (option Ref),
             undefinedOr o = Some x -> o = Some (Some x)).
  { intros [[y |] |]; simpl; intros H; try discriminate H. rewrite H. reflexivity. }
  destruct resolved as [| a [| b rest]];
    unfold bind, ret, randomOrgInteger; cbn [fst snd].
  - destruct (hd _ (randomOrg w)); cbn [fst]; intros H; apply Hu in H.
    + apply at_In in H. exact H.
    + discriminate H.
  - intros ->. left. reflexivity.
  - destruct (hd _ (randomOrg w)); cbn [fst]; intros H; apply Hu in H.
    + apply at_In in H. exact H.
    + injection H as ->. left. reflexivity.
Qed.

Lemma chooseWinner_In (cands : list Ref) (w : World) (x : Ref) :
  snd (fst (chooseWinner cands w)) = Some x -> In x cands.
Proof.
  unfold chooseWinner, bind.
  destruct (resolveGroups _ w) as [resolved w1] eqn:H1.
  destruct (pickFinalWinner resolved w1) as [fw w2] eqn:H2. simpl.
  intros ->.
  assert (Hin : In (Some x) resolved).
  { apply (pickFinalWinner_In resolved w1). rewrite H2. reflexivity. }
  destruct (resolveGroups_In
              (map (getGroup (groupByMain cands)) (objectKeys (groupByMain cands))) w x)
    as [arr [Ha Hx]]; [rewrite H1; exact Hin |].
  apply in_map_iff in Ha. destruct Ha as [k [<- _]].
  rewrite getGroup_groupByMain in Hx. apply filter_In in Hx. apply Hx.
Qed.






Lemma payout_winnerOfEntry (cfg : Config) (gpot : number) (e : Entry) :
  winnerOfEntry (fst (payout cfg gpot e)) e.
Proof. repeat split. Qed.

(** The giveaway that a resolution with a winner saves. *)
Lemma resolve_saved_winner (cfg : Config) (announced : bool) (now : Z)
    (id : string) (w : World) (g : Giveaway) (r : Z)
    (resolved : list (option Ref)) (i : nat) (fw : Entry) (w3 : World) :
  findGiveaway id (giveaways w) = Some g -> ended g = false ->
  hd (Failed "") (randomOrg w) = Drawn r ->
  chooseWinner (winnersCandidates r (entries g)) (rolled w)
  = ((resolved, Some (i, fw)), w3) ->
  let g1 := won cfg r (List.length resolved) fw g in
  resolveGiveaway cfg announced now id w
  = if announced then
      ([SetTimeout (DoubleDownTimer id) (sixHours + 5000)],
       {| giveaways := assign id (offered now i fw g1) (giveaways w);
          randomOrg := randomOrg w3; asked := asked w3 |})
    else
      ([ConsoleError "Failed announce winner:"],
       {| giveaways := assign id g1 (giveaways w);
          randomOrg := randomOrg w3; asked := asked w3 |}).
Proof.
  intros Hf He Hr Hc.
  assert (Hne : winnersCandidates r (entries g) <> []).
  { intros Hnil. rewrite Hnil in Hc.
    pose proof (chooseWinner_nil (rolled w)) as Hn. rewrite Hc in Hn.
    discriminate Hn. }
  rewrite (resolve_chosen cfg announced now id w g r Hf He Hr Hne).
  rewrite Hc. reflexivity.
Qed.

(** * The properties of the specification *)

(** ** The candidates of a roll (claim C1) *)

(** C1. In a resolution, an entry is a candidate of the roll exactly when it
    chose under and the roll is at most its main number, or chose over and the
    roll is at least its main number. When no entry of the giveaway is a
    candidate, the resolution ends with the note of no winners, the winner
    [null], the giveaway ended and the pot as it was. When some entry is a
    candidate, the resolution goes on with the candidates: the entry that it
    chooses among them is an entry of the giveaway that matches the roll, and
    the giveaway is saved ended, with the roll, the result of a resolution
    and that entry as the winner; or no entry is chosen, the resolution ends
    with a [TypeError] and nothing is saved. *)
Theorem resolve_candidates_and_no_winner
    (cfg : Config) (announced : bool) (now : Z) (id : string) (w : World)
    (g : Giveaway) (r : Z) :
  findGiveaway id (giveaways w) = Some g ->
  ended g = false ->
  hd (Failed "") (randomOrg w) = Drawn r ->
  (forall e, In e (map snd (winnersCandidates r (entries g)))
             <-> In e (entries g) /\ satisfiesRoll r e)
  /\ ((forall e, In e (entries g) -> ~ satisfiesRoll r e) ->
      resolveGiveaway cfg announced now id w
      = ([], {| giveaways := assign id (noWinners r g) (giveaways w);
                randomOrg := tl (randomOrg w);
                asked := asked w ++ [(0, 100)] |})
      /\ findGiveaway id (assign id (noWinners r g) (giveaways w))
         = Some (noWinners r g)
      /\ result (noWinners r g) = Some (ResultNoWinners r)
      /\ winner (noWinners r g) = null
      /\ ended (noWinners r g) = true
      /\ pot (noWinners r g) = pot g
      /\ entries (noWinners r g) = entries g)
  /\ ((exists e, In e (entries g) /\ satisfiesRoll r e) ->
      let chosen := chooseWinner (winnersCandidates r (entries g)) (rolled w) in
      let res := resolveGiveaway cfg announced now id w in
      winnersCandidates r (entries g) <> []
      /\ match snd (fst chosen) with
         | Some (i, fw) =>
             nth_error (entries g) i = Some fw /\ satisfiesRoll r fw
             /\ exists g' gw,
                  findGiveaway id (giveaways (snd res)) = Some g'
                  /\ ended g' = true /\ roll g' = Some r
                  /\ result g'
                     = Some (ResultResolved r (List.length (fst (fst chosen))))
                  /\ winner g' = value gw /\ winnerOfEntry gw fw
         | None => res = ([TypeError], snd chosen)
         end).
Proof.
  intros Hfind Hended Hrand. split; [| split].
  - intros e. rewrite winnersCandidates_entries, filter_In, isCandidate_spec.
    reflexivity.
  - intros Hnone. split; [| split; [| repeat split]].
    + apply (resolve_no_candidates cfg announced now id w g r Hfind Hended Hrand).
      apply winnersCandidates_nil, Hnone.
    + apply (findGiveaway_assign id (giveaways w) g); [exact Hfind | reflexivity].
  - intros [e [Hin Hsat]]. cbv zeta.
    destruct (entry_candidate r (entries g) e Hin Hsat) as [j Hj].
    assert (Hne : winnersCandidates r (entries g) <> []).
    { intros Hn. rewrite Hn in Hj. exact Hj. }
    split; [exact Hne |].
    pose proof (chooseWinner_In (winnersCandidates r (entries g)) (rolled w)) as Hc.
    destruct (chooseWinner (winnersCandidates r (entries g)) (rolled w))
      as [[resolved [[i fw] |]] w3] eqn:Hch; cbn [fst snd] in Hc |- *.
    + destruct (candidate_entry r (entries g) i fw (Hc (i, fw) eq_refl))
        as [Hnth Hfw].
      split; [exact Hnth |]. split; [exact Hfw |].
      rewrite (resolve_saved_winner cfg announced now id w g r resolved i fw w3
                 Hfind Hended Hrand Hch).
      destruct announced; cbn [snd giveaways].
      * exists (offered now i fw (won cfg r (List.length resolved) fw g)),
          (fst (payout cfg (pot g) fw)).
        split; [apply (findGiveaway_assign id (giveaways w) g); auto |].
        repeat split.
      * exists (won cfg r (List.length resolved) fw g),
          (fst (payout cfg (pot g) fw)).
        split; [apply (findGiveaway_assign id (giveaways w) g); auto |].
        repeat split.
    + rewrite (resolve_chosen cfg announced now id w g r Hfind Hended Hrand Hne).
      rewrite Hch. reflexivity.
Qed.

(** The giveaway whose only entry chose over 60: at a roll of 3 it ends with
    no winners, and at a roll of 70 the entry is chosen and saved as the
    winner. *)
Lemma resolve_candidates_and_no_winner_witness :
  resolveGiveaway defaultConfig true 5000 Example.id0
    (withRandomOrg [Drawn 3] Example.joined1)
  = ([], {| giveaways := assign Example.id0 (noWinners 3 Example.g1)
                           (giveaways (withRandomOrg [Drawn 3] Example.joined1));
            randomOrg := tl (randomOrg (withRandomOrg [Drawn 3] Example.joined1));
            asked := asked (withRandomOrg [Drawn 3] Example.joined1) ++ [(0, 100)] |})
  /\ exists g' gw,
       findGiveaway Example.id0
         (giveaways (snd (resolveGiveaway defaultConfig true 5000 Example.id0
                            (withRandomOrg [Drawn 70] Example.joined1))))
       = Some g'
       /\ ended g' = true /\ roll g' = Some 70
       /\ result g' = Some (ResultResolved 70 1)
       /\ winner g' = value gw /\ winnerOfEntry gw Example.entry1.
Proof.
  assert (Hf : findGiveaway Example.id0
                 (giveaways (withRandomOrg [Drawn 3] Example.joined1))
               = Some Example.g1) by (vm_compute; reflexivity).
  assert (Hf' : findGiveaway Example.id0
                  (giveaways (withRandomOrg [Drawn 70] Example.joined1))
                = Some Example.g1) by (vm_compute; reflexivity).
  assert (Hc : chooseWinner (winnersCandidates 70 (entries Example.g1))
                 (rolled (withRandomOrg [Drawn 70] Example.joined1))
               = (([Some (0%nat, Example.entry1)], Some (0%nat, Example.entry1)),
                  rolled (withRandomOrg [Drawn 70] Example.joined1)))
    by (vm_compute; reflexivity).
  split.
  - apply (proj1 (proj2 (resolve_candidates_and_no_winner defaultConfig true 5000
                           Example.id0 (withRandomOrg [Drawn 3] Example.joined1)
                           Example.g1 3 Hf eq_refl eq_refl))).
    intros e [<- | []] [[Hc' _] | [_ Hm]];
      [discriminate Hc' | vm_compute in Hm; exact (Hm eq_refl)].
  - assert (Hex : exists e, In e (entries Example.g1) /\ satisfiesRoll 70 e).
    { exists Example.entry1. split; [left; reflexivity |].
      right. split; [reflexivity | vm_compute; discriminate]. }
    pose proof (proj2 (proj2 (resolve_candidates_and_no_winner defaultConfig true
                                5000 Example.id0
                                (withRandomOrg [Drawn 70] Example.joined1)
                                Example.g1 70 Hf' eq_refl eq_refl)) Hex) as H.
    cbv zeta in H. destruct H as [_ H]. rewrite Hc in H. cbn [fst snd] in H.
    destruct H as (_ & _ & H). exact H.
Defined.

(** ** The representative of a group (claim C2) *)



(** Two entries with main 30 and the same tiebreak: random.org is asked for an
    integer in [0,1], and the entry at the index drawn represents the group. *)
Lemma group_tie_example :
  resolveGroup [(0%nat, Example.high90); (1%nat, Example.high90)]
    (Example.world [] [Drawn 1])
  = (Some (1%nat, Example.high90),
     {| giveaways := []; randomOrg := []; asked := [(0, 1)] |}).
Proof. reflexivity. Qed.

(** ** The payout (claim C3) *)

(** C3 fails on the rounding of binary64. With the pot at 90 and the share of
    the high profile at 70 percent, the code computes [90 * (70 / 100)], which
    is 62.99999999999999 (one unit in the last place below 63), and takes 62
    from the pot, where [floor(90 * 70 / 100)] is 63, in the integers and in
    binary64 alike. With the default configuration, a winner with main 6,
    under and the default stake has the base win 14.13, the product
    [1 * ((1 / (7 / 101)) * (1 - 0.02)) * 100] being 1413.9999999999998, where
    [(101 / 7) * 0.98] is 14.14. *)
Theorem payout_misses_by_rounding :
  let w' := snd (resolveGiveaway Example.config90 true 5000 Example.id0
                   (withRandomOrg [Drawn 20] Example.joined90)) in
  potOf Example.id0 Example.joined90 = Some (of_Z 90)
  /\ mul (of_Z 90) (div (of_Z 70) (of_Z 100))
     = S754_finite false 8866461766385663 (-47)
  /\ of_Z 63 = S754_finite false 8866461766385664 (-47)
  /\ Math_floor (div (mul (of_Z 90) (of_Z 70)) (of_Z 100)) = of_Z 63
  /\ 90 * 70 / 100 = 63
  /\ option_map potShareC (winnerOf Example.id0 w') = Some (of_Z 62)
  /\ potOf Example.id0 w' = Some (of_Z 28)
  /\ option_map payoutC (winnerOf Example.id0 w')
     = option_map (fun gw => add (baseWinC gw) (of_Z 62)) (winnerOf Example.id0 w')
  /\ baseWinOf defaultConfig Example.main6 = div (of_Z 1413) (of_Z 100)
  /\ 1 * 101 * 98 / 7 = 1414.
Proof.
  vm_compute. repeat split.
Qed.

(** For a main number in 0..100 the probability computed is at least 1/101,
    so that the replacement by 1/101 never applies. *)
Lemma winProbability_in_range (e : Entry) :
  0 <= main e <= 100 ->
  winProbability e
  = (if String.eqb (choice e) "under"
     then div (add (of_Z (main e)) (of_Z 1)) (of_Z 101)
     else div (sub (of_Z 101) (of_Z (main e))) (of_Z 101))
  /\ leb (div (of_Z 1) (of_Z 101)) (winProbability e) = true.
Proof.
  intros Hm. unfold winProbability.
  assert (Hall : forallb
            (fun m =>
               let under := div (add (of_Z m) (of_Z 1)) (of_Z 101) in
               let over := div (sub (of_Z 101) (of_Z m)) (of_Z 101) in
               negb (leb under zero) && negb (leb over zero)
               && leb (div (of_Z 1) (of_Z 101)) under
               && leb (div (of_Z 1) (of_Z 101)) over)
            (map Z.of_nat (seq 0 101)) = true) by (vm_compute; reflexivity).
  rewrite forallb_forall in Hall.
  specialize (Hall (main e)).
  assert (Hin : In (main e) (map Z.of_nat (seq 0 101))).
  { apply in_map_iff. exists (Z.to_nat (main e)). split; [lia |].
    apply in_seq. lia. }
  specialize (Hall Hin). cbv zeta in Hall.
  apply andb_true_iff in Hall. destruct Hall as [Hall H4].
  apply andb_true_iff in Hall. destruct Hall as [Hall H3].
  apply andb_true_iff in Hall. destruct Hall as [H1 H2].
  apply negb_true_iff in H1, H2.
  destruct (String.eqb (choice e) "under").
  - rewrite H1. split; [reflexivity | exact H3].
  - rewrite H2. split; [reflexivity | exact H4].
Qed.

(** ** Accepting the double down (claim C4) *)

Lemma button_accept (id winnerId : string) (w : World) (g : Giveaway)
    (gw : Winner) (dd : DoubleDown) (r : Z) :
  findGiveaway id (giveaways w) = Some g ->
  winner g = value gw -> doubleDown g = Some dd -> state dd = pending ->
  hd (Failed "") (randomOrg w) = Drawn r ->
  doubleDownButton dd_yes id winnerId winnerId w
  = if r >=? 50 then
      ([ReplyDoubleDownWin (pot g)],
       {| giveaways :=
            assign id
              (set_doubleDown (Some (set_state yes_win dd))
                 (set_pot zero
                    (set_winner
                       (value (set_payoutC (add (payoutC gw) (pot g)) gw)) g)))
              (giveaways w);
          randomOrg := tl (randomOrg w);
          asked := asked w ++ [(0, 100)] |})
    else
      let ret_ := Math_max zero (Math_floor (baseWinC gw)) in
      ([ReplyDoubleDownLose ret_],
       {| giveaways :=
            assign id
              (set_doubleDown (Some (set_state yes_lose dd))
                 (set_winner
                    (value (set_payoutC (Math_max zero (sub (payoutC gw) ret_)) gw))
                    (set_pot (add (pot g) ret_) g)))
              (giveaways w);
          randomOrg := tl (randomOrg w);
          asked := asked w ++ [(0, 100)] |}).
Proof.
  intros Hf Hw Hd Hs Hr. unfold doubleDownButton. step.
  rewrite Hf, Hw, String.eqb_refl, Hd, Hs. simpl. rewrite Hr.
  destruct (r >=? 50); reflexivity.
Qed.

(** C4, as the code has it. While the double down of a giveaway is pending,
    an accept by the user named on the button asks random.org for one integer
    in [0,100]. The pot, the payout and the base win are numbers of the file.
    At 50 or more the state becomes [yes_win], the whole pot is added to the
    winner's payout and the pot becomes zero. Below 50 the state becomes
    [yes_lose]; the amount returned is the floor of the base win, or 0 when
    that floor is negative; it is added to the pot and subtracted from the
    payout, and the payout is the larger of 0 and that difference, so that it
    is not below 0. The file holds the new pot and the new payout as JSON
    keeps them. *)
Theorem double_down_accept
    (id winnerId : string) (w : World) (g : Giveaway) (gw : Winner)
    (dd : DoubleDown) (r : Z) :
  findGiveaway id (giveaways w) = Some g ->
  winner g = value gw -> doubleDown g = Some dd -> state dd = pending ->
  jsonNumber (pot g) -> jsonNumber (payoutC gw) -> jsonNumber (baseWinC gw) ->
  hd (Failed "") (randomOrg w) = Drawn r ->
  let w' := snd (doubleDownButton dd_yes id winnerId winnerId w) in
  let ret_ := Math_max zero (Math_floor (baseWinC gw)) in
  asked w' = asked w ++ [(0, 100)]
  /\ exists g' gw' dd',
       findGiveaway id (giveaways w') = Some g'
       /\ winner g' = value gw' /\ doubleDown g' = Some dd'
       /\ (50 <= r ->
           state dd' = yes_win
           /\ toJSON (payoutC gw') = toJSON (add (payoutC gw) (pot g))
           /\ pot g' = zero)
       /\ (r < 50 ->
           state dd' = yes_lose
           /\ toJSON (pot g') = toJSON (add (pot g) ret_)
           /\ toJSON (payoutC gw')
              = toJSON (Math_max zero (sub (payoutC gw) ret_))
           /\ nonneg (payoutC gw')).
Proof.
  intros Hf Hw Hd Hs _ [Hfin _] [Hbase _] Hr w' ret_. subst w'.
  rewrite (button_accept id winnerId w g gw dd r Hf Hw Hd Hs Hr).
  destruct (r >=? 50) eqn:Hge.
  - apply Z.geb_le in Hge. simpl. split; [reflexivity |].
    eexists. eexists. eexists.
    split; [apply (findGiveaway_assign id (giveaways w) g); [exact Hf | reflexivity] |].
    simpl. repeat split; lia.
  - assert (Hlt : r < 50).
    { destruct (Z.lt_ge_cases r 50) as [H | H]; [exact H |].
      apply Z.geb_le in H. rewrite H in Hge. discriminate Hge. }
    simpl. split; [reflexivity |].
    eexists. eexists. eexists.
    split; [apply (findGiveaway_assign id (giveaways w) g); [exact Hf | reflexivity] |].
    simpl. repeat split; try lia.
    apply signed_false_nonneg, Math_max_zero_signed.
    apply sub_not_nan; [exact Hfin |].
    apply (signed_not_nan false), Math_max_zero_signed, Math_floor_not_nan.
    intros Hn. rewrite Hn in Hbase. discriminate Hbase.
Qed.

Lemma double_down_accept_witness :
  asked (snd (doubleDownButton dd_yes Example.id0 "1" "1"
                (withRandomOrg [Drawn 49] Example.resolved1)))
  = asked (withRandomOrg [Drawn 49] Example.resolved1) ++ [(0, 100)].
Proof.
  assert (Hf : findGiveaway Example.id0
                 (giveaways (withRandomOrg [Drawn 49] Example.resolved1))
               = Some Example.won1) by (vm_compute; reflexivity).
  assert (Hw : winner Example.won1 = value Example.winner1)
    by (vm_compute; reflexivity).
  assert (Hpot : jsonNumber (pot Example.won1)) by (split; vm_compute; reflexivity).
  assert (Hpay : jsonNumber (payoutC Example.winner1))
    by (split; vm_compute; reflexivity).
  assert (Hbase : jsonNumber (baseWinC Example.winner1))
    by (split; vm_compute; reflexivity).
  exact (proj1 (double_down_accept Example.id0 "1"
                  (withRandomOrg [Drawn 49] Example.resolved1)
                  Example.won1 Example.winner1 Example.offer1 49
                  Hf Hw eq_refl eq_refl Hpot Hpay Hbase eq_refl)).
Defined.

(** The winner of [resolved1] has the base win 2.41; at a draw of 49 for the
    double down, 2 goes back to the pot, which becomes 702, and the payout goes
    from 302.41 to 300.41. *)
Lemma double_down_lose_example :
  let w := withRandomOrg [Drawn 49] Example.resolved1 in
  let w' := snd (doubleDownButton dd_yes Example.id0 "1" "1" w) in
  potOf Example.id0 w = Some (of_Z 700)
  /\ option_map baseWinC (winnerOf Example.id0 w) = Some (div (of_Z 241) (of_Z 100))
  /\ option_map payoutC (winnerOf Example.id0 w)
     = Some (add (div (of_Z 241) (of_Z 100)) (of_Z 300))
  /\ option_map state (doubleDownOf Example.id0 w') = Some yes_lose
  /\ potOf Example.id0 w' = Some (of_Z 702)
  /\ option_map payoutC (winnerOf Example.id0 w')
     = Some (sub (add (div (of_Z 241) (of_Z 100)) (of_Z 300)) (of_Z 2)).
Proof.
  vm_compute. repeat split.
Qed.

(** C4 as stated fails: the winner of the giveaway staked -5, so that the base
    win is negative, and accepts the double down, for which random.org draws
    10. The state becomes [yes_lose]; the pot stays at 300 and the payout stays
    as it was, where the floor of the base win, -16, added to the pot would
    leave 284. *)
Lemma double_down_lose_negative_base_counterexample :
  let w := withRandomOrg [Drawn 10] Example.resolved2 in
  let w' := snd (doubleDownButton dd_yes Example.id0 "2" "2" w) in
  option_map state (doubleDownOf Example.id0 w) = Some pending
  /\ potOf Example.id0 w = Some (of_Z 300)
  /\ option_map (fun gw => Math_floor (baseWinC gw)) (winnerOf Example.id0 w)
     = Some (of_Z (-16))
  /\ add (of_Z 300) (of_Z (-16)) = of_Z 284
  /\ option_map state (doubleDownOf Example.id0 w') = Some yes_lose
  /\ potOf Example.id0 w' = Some (of_Z 300)
  /\ of_Z 300 <> of_Z 284
  /\ option_map payoutC (winnerOf Example.id0 w')
     = option_map payoutC (winnerOf Example.id0 w)
  /\ option_map payoutC (winnerOf Example.id0 w')
     <> option_map
          (fun gw => Math_max zero (sub (payoutC gw) (Math_floor (baseWinC gw))))
          (winnerOf Example.id0 w).
Proof.
  vm_compute. repeat (split; [reflexivity |]).
  split; [discriminate |]. split; [reflexivity | discriminate].
Qed.

(** ** Resolving twice (claim C5) *)

Lemma resolve_again (cfg : Config) (announced : bool) (now : Z) (id : string)
    (data : list Giveaway) (g g' : Giveaway) (script : list Answer)
    (log : list (Z * Z)) :
  findGiveaway id data = Some g -> gid g' = gid g -> ended g' = true ->
  let w' := {| giveaways := assign id g' data; randomOrg := script; asked := log |} in
  resolveGiveaway cfg announced now id w' = ([], w').
Proof.
  intros Hf Hid He w'.
  apply (resolve_ended cfg announced now id w' g'); [| exact He].
  apply (findGiveaway_assign id data g g' Hf Hid).
Qed.

Lemma forceEnd_permitted (cfg : Config) (announced : bool) (now : Z)
    (id : string) (w : World) (g : Giveaway) :
  findGiveaway id (giveaways w) = Some g ->
  forceEnd cfg announced now true id w
  = (Reply "Force ending giveaway..." :: fst (resolveGiveaway cfg announced now id w),
     snd (resolveGiveaway cfg announced now id w)).
Proof.
  intros Hf. unfold forceEnd, bind, loadGiveaways, ret. rewrite Hf.
  destruct (resolveGiveaway cfg announced now id w). reflexivity.
Qed.

(** C5. A resolution of a giveaway whose ended flag is set changes nothing,
    asks random.org nothing and has no effect; and after a resolution that
    completed, by the timer or by a forced end, a second one, whatever its
    configuration and whatever random.org and Discord would answer, leaves
    the state as the first one left it. *)
Theorem resolve_twice_is_resolve_once
    (cfg cfg' : Config) (announced announced' : bool) (now now' : Z)
    (id : string) (w : World) (g : Giveaway) :
  findGiveaway id (giveaways w) = Some g ->
  (ended g = true -> resolveGiveaway cfg announced now id w = ([], w))
  /\ (~ In TypeError (fst (resolveGiveaway cfg announced now id w)) ->
      resolveGiveaway cfg' announced' now' id
        (snd (resolveGiveaway cfg announced now id w))
      = ([], snd (resolveGiveaway cfg announced now id w)))
  /\ (~ In TypeError (fst (forceEnd cfg announced now true id w)) ->
      resolveGiveaway cfg' announced' now' id
        (snd (forceEnd cfg announced now true id w))
      = ([], snd (forceEnd cfg announced now true id w))).
Proof.
  intros Hf.
  assert (Hsecond : ~ In TypeError (fst (resolveGiveaway cfg announced now id w)) ->
            resolveGiveaway cfg' announced' now' id
              (snd (resolveGiveaway cfg announced now id w))
            = ([], snd (resolveGiveaway cfg announced now id w))).
  { destruct (ended g) eqn:He.
    + rewrite (resolve_ended cfg announced now id w g Hf He). intros _.
      apply (resolve_ended cfg' announced' now' id w g Hf He).
    + destruct (hd (Failed "") (randomOrg w)) as [r | message] eqn:Hr.
      * destruct (winnersCandidates r (entries g)) as [| c0 cands] eqn:Hc.
        -- rewrite (resolve_no_candidates cfg announced now id w g r Hf He Hr Hc).
           intros _. apply (resolve_again cfg' announced' now' id _ g); auto.
        -- assert (Hne : winnersCandidates r (entries g) <> [])
             by (rewrite Hc; discriminate).
           rewrite (resolve_chosen cfg announced now id w g r Hf He Hr Hne).
           rewrite Hc.
           destruct (chooseWinner (c0 :: cands) (rolled w))
             as [[resolved [[i fw] |]] w3]; simpl.
           ++ destruct announced; simpl; intros _;
                apply (resolve_again cfg' announced' now' id _ g); auto.
           ++ intros H. contradiction H. left. reflexivity.
      * rewrite (resolve_roll_failed cfg announced now id w g message Hf He Hr).
        intros _. apply (resolve_again cfg' announced' now' id _ g); auto. }
  split; [| split].
  - intros He. apply (resolve_ended cfg announced now id w g Hf He).
  - exact Hsecond.
  - rewrite (forceEnd_permitted cfg announced now id w g Hf). simpl.
    intros H. apply Hsecond. intros Hin. apply H. right. exact Hin.
Qed.

(** The hypotheses of C5 hold for the giveaway with one entry, resolved by the
    timer with a roll of 70 and then again by a forced end. *)
Lemma resolve_twice_is_resolve_once_witness :
  resolveGiveaway defaultConfig false 9000 Example.id0
    (snd (resolveGiveaway defaultConfig true 5000 Example.id0
            (withRandomOrg [Drawn 70] Example.joined1)))
  = ([], snd (resolveGiveaway defaultConfig true 5000 Example.id0
                (withRandomOrg [Drawn 70] Example.joined1))).
Proof.
  assert (Hf : findGiveaway Example.id0
                 (giveaways (withRandomOrg [Drawn 70] Example.joined1))
               = Some Example.g1) by (vm_compute; reflexivity).
  apply (proj1 (proj2 (resolve_twice_is_resolve_once defaultConfig defaultConfig
                         true false 5000 9000 Example.id0
                         (withRandomOrg [Drawn 70] Example.joined1) Example.g1 Hf))).
  vm_compute. intros [H | []]. discriminate H.
Defined.

(** ** A roll that fails (claim C6) *)

(** C6, as the code has it. When the request for the roll fails, the
    resolution saves the giveaway with the error as its result and with the
    ended flag set, which it sets before it asks for the roll; a later
    resolution of that giveaway does nothing, whatever random.org answers
    then. *)
Theorem roll_failure_ends_giveaway
    (cfg cfg' : Config) (announced announced' : bool) (now now' : Z)
    (id : string) (w : World) (g : Giveaway) (message : string)
    (script : list Answer) :
  findGiveaway id (giveaways w) = Some g ->
  ended g = false ->
  hd (Failed "") (randomOrg w) = Failed message ->
  let w' := snd (resolveGiveaway cfg announced now id w) in
  exists g',
    findGiveaway id (giveaways w') = Some g'
    /\ result g' = Some (ResultError "random.org failed" message)
    /\ ended g' = true
    /\ winner g' = winner g /\ pot g' = pot g /\ entries g' = entries g
    /\ resolveGiveaway cfg' announced' now' id (withRandomOrg script w')
       = ([], withRandomOrg script w').
Proof.
  intros Hf He Hr w'. subst w'.
  rewrite (resolve_roll_failed cfg announced now id w g message Hf He Hr). simpl.
  exists (rollFailed message g). repeat split.
  - apply (findGiveaway_assign id (giveaways w) g); [exact Hf | reflexivity].
  - unfold withRandomOrg. simpl.
    apply (resolve_again cfg' announced' now' id _ g); auto.
Qed.

Lemma roll_failure_ends_giveaway_witness :
  exists g',
    findGiveaway Example.id0
      (giveaways (snd (resolveGiveaway defaultConfig true 5000 Example.id0
                         (withRandomOrg [Failed "timeout"] Example.joined1))))
    = Some g'
    /\ ended g' = true.
Proof.
  assert (Hf : findGiveaway Example.id0
                 (giveaways (withRandomOrg [Failed "timeout"] Example.joined1))
               = Some Example.g1) by (vm_compute; reflexivity).
  destruct (roll_failure_ends_giveaway defaultConfig defaultConfig true true
              5000 9000 Example.id0
              (withRandomOrg [Failed "timeout"] Example.joined1)
              Example.g1 "timeout" [Drawn 70]
              Hf eq_refl eq_refl) as [g' (H1 & _ & H2 & _)].
  exists g'. split; assumption.
Defined.

(** C6 as stated fails: random.org fails for the roll of a giveaway that was
    not ended; the giveaway saved is ended, and a retry for which random.org
    would answer 70 changes nothing. *)
Lemma roll_failure_not_retryable_counterexample :
  let w' := snd (resolveGiveaway defaultConfig true 5000 Example.id0
                   (withRandomOrg [Failed "timeout"] Example.joined1)) in
  option_map ended (findGiveaway Example.id0 (giveaways Example.joined1))
  = Some false
  /\ option_map result (findGiveaway Example.id0 (giveaways w'))
     = Some (Some (ResultError "random.org failed" "timeout"))
  /\ option_map ended (findGiveaway Example.id0 (giveaways w')) = Some true
  /\ resolveGiveaway defaultConfig true 9000 Example.id0
       (withRandomOrg [Drawn 70] w')
     = ([], withRandomOrg [Drawn 70] w').
Proof.
  vm_compute. repeat split.
Qed.

(** ** A double down that is settled (claim C7) *)

(** C7, as the code has it. Once the double down of a giveaway has left
    [pending], a press of either button by anyone and the timeout leave the
    whole state as it is and ask random.org nothing; the press by the user
    named on the button is answered "Double Down no longer available.", while
    the timeout reports nothing. No handler brings [pending] back: a giveaway
    has a double down only once it is ended, and then a resolution and a
    submission of the entry form change nothing either. *)
Theorem settled_double_down_is_final
    (act : Button) (id winnerId user : string) (w : World) (g : Giveaway)
    (gw : Winner) (dd : DoubleDown) :
  findGiveaway id (giveaways w) = Some g ->
  winner g = value gw ->
  doubleDown g = Some dd ->
  state dd <> pending ->
  snd (doubleDownButton act id winnerId user w) = w
  /\ doubleDownButton act id winnerId winnerId w
     = ([Reply "Double Down no longer available."], w)
  /\ doubleDownTimeout id w = ([], w)
  /\ (ended g = true ->
      (forall cfg announced now, resolveGiveaway cfg announced now id w = ([], w))
      /\ (forall u now form, snd (modalJoin u now id form w) = w)).
Proof.
  intros Hf Hw Hd Hs.
  assert (Hbutton : forall u,
             doubleDownButton act id winnerId u w
             = (if negb (String.eqb u winnerId)
                then [Reply "Only the winner can respond to Double Down."]
                else [Reply "Double Down no longer available."], w)).
  { intros u. unfold doubleDownButton. step. rewrite Hf, Hw.
    destruct (negb (String.eqb u winnerId)); [reflexivity |].
    rewrite Hd. destruct (state dd); try reflexivity.
    contradiction Hs. reflexivity. }
  split; [| split; [| split]].
  - rewrite Hbutton. reflexivity.
  - rewrite Hbutton, String.eqb_refl. reflexivity.
  - unfold doubleDownTimeout. step. rewrite Hf, Hd.
    destruct (state dd); try reflexivity. contradiction Hs. reflexivity.
  - intros He. split.
    + intros cfg announced now. apply (resolve_ended cfg announced now id w g Hf He).
    + intros u now form. unfold modalJoin.
      destruct (outOfRange _); [reflexivity |].
      destruct (outOfRange _); [reflexivity |].
      destruct (negb (includes _ _)); [reflexivity |].
      destruct (negb (includes _ _)); [reflexivity |].
      step. rewrite Hf, He. reflexivity.
Qed.

Lemma settled_double_down_is_final_witness :
  doubleDownButton dd_yes Example.id0 "1" "1" Example.declined1
  = ([Reply "Double Down no longer available."], Example.declined1).
Proof.
  assert (Hf : findGiveaway Example.id0 (giveaways Example.declined1)
               = Some Example.declined1_g) by (vm_compute; reflexivity).
  assert (Hw : winner Example.declined1_g = value Example.winner1)
    by (vm_compute; reflexivity).
  refine (proj1 (proj2 (settled_double_down_is_final dd_yes Example.id0 "1" "1"
                          Example.declined1 Example.declined1_g Example.winner1
                          (set_state no Example.offer1) Hf Hw eq_refl _))).
  discriminate.
Defined.

(** C7 as stated fails: the winner declined the double down; the timeout that
    fires afterwards changes nothing and reports nothing, so it does not
    report "Double Down no longer available.". *)
Lemma timeout_reports_nothing_counterexample :
  option_map state (doubleDownOf Example.id0 Example.declined1) = Some no
  /\ doubleDownTimeout Example.id0 Example.declined1 = ([], Example.declined1)
  /\ ~ In (Reply "Double Down no longer available.")
          (fst (doubleDownTimeout Example.id0 Example.declined1)).
Proof.
  vm_compute. split; [| split].
  - reflexivity.
  - reflexivity.
  - intros [].
Qed.

(** ** The double-down offer (claim C8) *)

(** C8, as the code has it. When a resolution finds a winner, the giveaway is
    saved ended, with the roll, the result and the winner, before the
    announcement. If the announcement is then edited in, the giveaway gets a
    pending double down for the winner with a deadline six hours (21600000 ms)
    after [now], which is saved, and the timeout is armed; if the announcement
    fails, the winner, the pot and the result are saved as they are when it
    succeeds, but no double down is created. *)
Theorem winner_gets_double_down_when_announced
    (cfg : Config) (announced : bool) (now : Z) (id : string) (w : World)
    (g : Giveaway) (r : Z) (resolved : list (option Ref)) (i : nat)
    (fw : Entry) (w3 : World) :
  findGiveaway id (giveaways w) = Some g ->
  ended g = false ->
  hd (Failed "") (randomOrg w) = Drawn r ->
  chooseWinner (winnersCandidates r (entries g)) (rolled w)
  = ((resolved, Some (i, fw)), w3) ->
  exists g',
    findGiveaway id (giveaways (snd (resolveGiveaway cfg announced now id w)))
    = Some g'
    /\ (exists gw, winner g' = value gw /\ winnerOfEntry gw fw)
    /\ result g' = Some (ResultResolved r (List.length resolved))
    /\ roll g' = Some r
    /\ ended g' = true
    /\ (announced = true ->
        doubleDown g'
        = Some {| state := pending; deadline := now + 21600000;
                  winnerId := userId fw |}
        /\ fst (resolveGiveaway cfg announced now id w)
           = [SetTimeout (DoubleDownTimer id) 21605000])
    /\ (announced = false ->
        doubleDown g' = doubleDown g
        /\ fst (resolveGiveaway cfg announced now id w)
           = [ConsoleError "Failed announce winner:"]
        /\ forall g'',
             findGiveaway id
               (giveaways (snd (resolveGiveaway cfg true now id w)))
             = Some g'' ->
             winner g' = winner g'' /\ pot g' = pot g''
             /\ result g' = result g'').
Proof.
  intros Hf He Hr Hc.
  pose proof (resolve_saved_winner cfg true now id w g r resolved i fw w3
                Hf He Hr Hc) as Htrue.
  rewrite (resolve_saved_winner cfg announced now id w g r resolved i fw w3
             Hf He Hr Hc).
  cbv zeta in Htrue |- *.
  destruct announced; cbn [fst snd giveaways].
  - exists (offered now i fw (won cfg r (List.length resolved) fw g)).
    split; [apply (findGiveaway_assign id (giveaways w) g); auto |].
    split; [eexists; split; [reflexivity | apply payout_winnerOfEntry] |].
    repeat split; discriminate.
  - exists (won cfg r (List.length resolved) fw g).
    split; [apply (findGiveaway_assign id (giveaways w) g); auto |].
    split; [eexists; split; [reflexivity | apply payout_winnerOfEntry] |].
    split; [reflexivity |]. split; [reflexivity |]. split; [reflexivity |].
    split; [discriminate |].
    intros _. split; [reflexivity |]. split; [reflexivity |].
    intros g'' Hg''. rewrite Htrue in Hg''. cbn [snd giveaways] in Hg''.
    erewrite findGiveaway_assign in Hg'' by (try exact Hf; reflexivity).
    injection Hg'' as <-. repeat split.
Qed.

Lemma winner_gets_double_down_when_announced_witness :
  exists g',
    findGiveaway Example.id0
      (giveaways (snd (resolveGiveaway defaultConfig true 5000 Example.id0
                         (withRandomOrg [Drawn 70] Example.joined1))))
    = Some g'
    /\ doubleDown g'
       = Some {| state := pending; deadline := 5000 + 21600000; winnerId := "1" |}.
Proof.
  assert (Hf : findGiveaway Example.id0
                 (giveaways (withRandomOrg [Drawn 70] Example.joined1))
               = Some Example.g1) by (vm_compute; reflexivity).
  assert (Hc : chooseWinner (winnersCandidates 70 (entries Example.g1))
                 (rolled (withRandomOrg [Drawn 70] Example.joined1))
               = (([Some (0%nat, Example.entry1)], Some (0%nat, Example.entry1)),
                  rolled (withRandomOrg [Drawn 70] Example.joined1)))
    by (vm_compute; reflexivity).
  destruct (winner_gets_double_down_when_announced defaultConfig true 5000
              Example.id0 (withRandomOrg [Drawn 70] Example.joined1)
              Example.g1 70 [Some (0%nat, Example.entry1)] 0%nat Example.entry1
              (rolled (withRandomOrg [Drawn 70] Example.joined1))
              Hf eq_refl eq_refl Hc)
    as [g' (H1 & _ & _ & _ & _ & H2 & _)].
  exists g'. split; [exact H1 | exact (proj1 (H2 eq_refl))].
Defined.

(** C8 as stated fails: the giveaway with one entry resolves with a winner at
    a roll of 70 while the edit of the announcement fails; the winner is saved
    and the giveaway has no double down. *)
Lemma announcement_failure_blocks_double_down_counterexample :
  let w' := snd (resolveGiveaway defaultConfig false 5000 Example.id0
                   (withRandomOrg [Drawn 70] Example.joined1)) in
  option_map ended (findGiveaway Example.id0 (giveaways w')) = Some true
  /\ option_map w_userId (winnerOf Example.id0 w') = Some "1"
  /\ doubleDownOf Example.id0 w' = None.
Proof.
  vm_compute. repeat split.
Qed.

(** ** The pot is never negative (claim C9) *)

Lemma jsonNumber_zero : jsonNumber zero.
Proof. split; reflexivity. Qed.

Lemma getProfile_In (cfg : Config) (name : string) (p : Profile) :
  getProfile cfg name = Some p ->
  (exists n, In (n, p) (riskProfiles cfg)) \/ potSharePercent p = None.
Proof.
  unfold getProfile.
  destruct (find _ (riskProfiles cfg)) as [[n q] |] eqn:Hf.
  - intros [= <-]. left. exists n. apply find_some in Hf. apply Hf.
  - destruct (existsb _ inheritedNames); [| discriminate].
    intros [= <-]. right. reflexivity.
Qed.

(** Under a name that every object inherits, and that the file does not list,
    the profile found is the inherited member: the profile "low" is not
    consulted and the share of the pot is 0. *)
Lemma potSharePercentOf_inherited (cfg : Config) (fw : Entry) :
  In (riskProfile fw) inheritedNames ->
  find (fun p => String.eqb (fst p) (riskProfile fw)) (riskProfiles cfg) = None ->
  potSharePercentOf cfg fw = zero.
Proof.
  intros Hin Hnone. unfold potSharePercentOf, getProfile. rewrite Hnone.
  assert (Hex : existsb (String.eqb (riskProfile fw)) inheritedNames = true).
  { apply existsb_exists. exists (riskProfile fw). split; [exact Hin |].
    apply String.eqb_refl. }
  rewrite Hex. reflexivity.
Qed.

Lemma potSharePercentOf_json (cfg : Config) (fw : Entry) :
  jsonPercents cfg -> jsonNumber (potSharePercentOf cfg fw).
Proof.
  intros Hcfg. unfold potSharePercentOf.
  assert (Hp : forall name p, getProfile cfg name = Some p ->
                 jsonNumber (orElse (potSharePercent p) zero)).
  { intros name p Hg. destruct (getProfile_In cfg name p Hg) as [[n Hin] | Hnone].
    - destruct (potSharePercent p) as [pct |] eqn:Hpct; simpl.
      + apply (Hcfg n p pct Hin Hpct).
      + apply jsonNumber_zero.
    - rewrite Hnone. apply jsonNumber_zero. }
  destruct (getProfile cfg (riskProfile fw)) as [p |] eqn:H1.
  - apply (Hp _ p H1).
  - destruct (getProfile cfg "low") as [p |] eqn:H2.
    + apply (Hp _ p H2).
    + apply jsonNumber_zero.
Qed.

Lemma payout_pot_nonneg (cfg : Config) (gpot : number) (fw : Entry) :
  jsonPercents cfg -> isFinite gpot = true ->
  nonneg (snd (payout cfg gpot fw)).
Proof.
  intros Hcfg Hpot. unfold payout. simpl.
  apply signed_false_nonneg, Math_max_zero_signed.
  apply sub_not_nan; [exact Hpot |].
  unfold potShareAmountOf. apply Math_floor_not_nan, mul_not_nan; [exact Hpot |].
  destruct (potSharePercentOf_json cfg fw Hcfg) as [Hf Hv].
  apply div_hundred_finite; assumption.
Qed.

Lemma nonneg_not_negative (x : number) : nonneg x -> ltb x zero = false.
Proof.
  destruct x as [s | [] | | [] m e]; intros H; try discriminate H; reflexivity.
Qed.

Lemma Math_max_zero_not_negative (x : number) : ltb (Math_max zero x) zero = false.
Proof. destruct x as [s | [] | | [] m e]; reflexivity. Qed.

Lemma Math_max_zero_cases (x : number) :
  Math_max zero x = NaN \/ signed false (Math_max zero x).
Proof. destruct x as [s | [] | | [] m e]; simpl; auto. Qed.

Lemma add_not_negative (x y : number) :
  nonneg x -> y = NaN \/ signed false y -> ltb (add x y) zero = false.
Proof.
  intros Hx [-> | Hy].
  - destruct x as [s | s | | s m e]; reflexivity.
  - apply nonneg_not_negative, signed_false_nonneg, add_signed_false; assumption.
Qed.

(** C9. For a giveaway whose pot is not negative, the pot is not negative
    after a resolution, whatever its outcome, after a press of a double-down
    button, whatever its outcome, and after the double-down timeout. When the
    numbers involved are numbers of the JSON files (the pot and the share
    percentages for a resolution, the base win of the winner for a button),
    the pot is moreover at least 0, hence not [NaN]. *)
Theorem pot_never_negative (id : string) (w : World) (g : Giveaway) :
  findGiveaway id (giveaways w) = Some g ->
  nonneg (pot g) ->
  (forall cfg announced now,
     exists g',
       findGiveaway id (giveaways (snd (resolveGiveaway cfg announced now id w)))
       = Some g'
       /\ ltb (pot g') zero = false
       /\ (isFinite (pot g) = true -> jsonPercents cfg -> nonneg (pot g')))
  /\ (forall act winnerId user,
        exists g',
          findGiveaway id (giveaways (snd (doubleDownButton act id winnerId user w)))
          = Some g'
          /\ ltb (pot g') zero = false
          /\ ((forall gw, winner g = value gw -> baseWinC gw <> NaN) ->
              nonneg (pot g')))
  /\ (exists g',
        findGiveaway id (giveaways (snd (doubleDownTimeout id w))) = Some g'
        /\ nonneg (pot g')).
Proof.
  intros Hf Hpos.
  pose proof (nonneg_not_negative _ Hpos) as Hneg.
  assert (Hsame : forall P : Prop,
             exists g', findGiveaway id (giveaways w) = Some g'
                        /\ ltb (pot g') zero = false /\ (P -> nonneg (pot g')))
    by (intros P; exists g; repeat split; auto).
  assert (Hnew : forall (P : Prop) g',
             gid g' = gid g -> ltb (pot g') zero = false -> (P -> nonneg (pot g')) ->
             exists g'', findGiveaway id (assign id g' (giveaways w)) = Some g''
                         /\ ltb (pot g'') zero = false /\ (P -> nonneg (pot g''))).
  { intros P g' Hid Hn Hp. exists g'. split; [| split; assumption].
    apply (findGiveaway_assign id (giveaways w) g g' Hf Hid). }
  split; [| split].
  - intros cfg announced now.
    destruct (ended g) eqn:He.
    { rewrite (resolve_ended cfg announced now id w g Hf He).
      destruct (Hsame True) as [g' (H1 & H2 & H3)]. exists g'. auto. }
    destruct (hd (Failed "") (randomOrg w)) as [r | message] eqn:Hr.
    2:{ rewrite (resolve_roll_failed cfg announced now id w g message Hf He Hr).
        destruct (Hnew True (rollFailed message g) eq_refl Hneg (fun _ => Hpos))
          as [g' (H1 & H2 & H3)]. exists g'. auto. }
    destruct (winnersCandidates r (entries g)) as [| c0 cands] eqn:Hc.
    { rewrite (resolve_no_candidates cfg announced now id w g r Hf He Hr Hc).
      destruct (Hnew True (noWinners r g) eq_refl Hneg (fun _ => Hpos))
        as [g' (H1 & H2 & H3)]. exists g'. auto. }
    assert (Hne : winnersCandidates r (entries g) <> []) by (rewrite Hc; discriminate).
    rewrite (resolve_chosen cfg announced now id w g r Hf He Hr Hne). rewrite Hc.
    pose proof (chooseWinner_giveaways (c0 :: cands) (rolled w)) as Hg.
    destruct (chooseWinner (c0 :: cands) (rolled w)) as [[resolved [[i fw] |]] w3];
      simpl in *.
    + assert (Hpay : ltb (snd (payout cfg (pot g) fw)) zero = false)
        by apply Math_max_zero_not_negative.
      destruct announced; simpl.
      * exists (offered now i fw (won cfg r (List.length resolved) fw g)).
        split; [apply (findGiveaway_assign id (giveaways w) g); auto |].
        split; [exact Hpay |].
        intros Hfin Hcfg. apply (payout_pot_nonneg cfg (pot g) fw Hcfg Hfin).
      * exists (won cfg r (List.length resolved) fw g).
        split; [apply (findGiveaway_assign id (giveaways w) g); auto |].
        split; [exact Hpay |].
        intros Hfin Hcfg. apply (payout_pot_nonneg cfg (pot g) fw Hcfg Hfin).
    + rewrite Hg. destruct (Hsame True) as [g' (H1 & H2 & H3)]. exists g'. auto.
  - intros act winnerId user.
    unfold doubleDownButton. step. rewrite Hf.
    destruct (winner g) as [| | gw] eqn:Hw; try apply Hsame.
    destruct (negb (String.eqb user winnerId)); [apply Hsame |].
    destruct (doubleDown g) as [dd |]; [| apply Hsame].
    destruct (state dd); try apply Hsame.
    destruct act.
    + destruct (hd (Failed "") (randomOrg w)) as [r | message]; [| apply Hsame].
      destruct (r >=? 50); simpl; apply Hnew; try reflexivity.
      * simpl. apply add_not_negative; [exact Hpos | apply Math_max_zero_cases].
      * simpl. intros Hbase. apply signed_false_nonneg, add_signed_false; [exact Hpos |].
        apply Math_max_zero_signed, Math_floor_not_nan, (Hbase gw eq_refl).
    + simpl. apply Hnew; [reflexivity | exact Hneg | intros _; exact Hpos].
  - unfold doubleDownTimeout. step. rewrite Hf.
    assert (Hs : exists g', findGiveaway id (giveaways w) = Some g' /\ nonneg (pot g'))
      by (exists g; split; assumption).
    destruct (doubleDown g) as [dd |]; [| exact Hs].
    destruct (state dd); try exact Hs.
    simpl. exists (set_doubleDown (Some (set_state no dd)) g).
    split; [apply (findGiveaway_assign id (giveaways w) g); auto | exact Hpos].
Qed.

Lemma pot_never_negative_witness :
  exists g',
    findGiveaway Example.id0
      (giveaways (snd (doubleDownButton dd_yes Example.id0 "1" "1"
                         (withRandomOrg [Drawn 49] Example.resolved1))))
    = Some g'
    /\ ltb (pot g') zero = false.
Proof.
  assert (Hf : findGiveaway Example.id0
                 (giveaways (withRandomOrg [Drawn 49] Example.resolved1))
               = Some Example.won1) by (vm_compute; reflexivity).
  destruct (proj1 (proj2 (pot_never_negative Example.id0
                            (withRandomOrg [Drawn 49] Example.resolved1)
                            Example.won1 Hf eq_refl))
              dd_yes "1" "1") as [g' (H1 & H2 & _)].
  exists g'. split; assumption.
Defined.

(** ** Submitting an entry (claim C10) *)

Lemma outOfRange_spec (n : option Z) : outOfRange n = false <-> inRange n.
Proof.
  unfold outOfRange, inRange. destruct n as [v |].
  - rewrite orb_false_iff, Z.ltb_ge, Z.gtb_ltb, Z.ltb_ge. split.
    + intros [H1 H2]. exists v. split; [reflexivity | lia].
    + intros [v' [[= <-] H]]. lia.
  - split; [discriminate | intros [v [H _]]; discriminate H].
Qed.

Lemma includes_pair (a b x : string) :
  includes [a; b] x = true <-> x = a \/ x = b.
Proof.
  unfold includes. simpl. rewrite orb_false_r, orb_true_iff, !String.eqb_eq. tauto.
Qed.

(** C10, as the code has it. A submission appends an entry to the giveaway,
    and changes nothing else, exactly when the main and tiebreak numbers read
    from the form are integers in 0..100, the choice in lower case is "under"
    or "over", the risk in lower case is "low" or "high", the giveaway exists
    and it is not ended; otherwise the state is untouched and the reply names
    a condition that is violated. The stake stored is the number that
    [parseFloat] reads in the stake text, 1 when the text is empty, as JSON
    holds it; it is not checked. *)
Theorem join_appends_or_rejects
    (user : User) (now : Z) (id : string) (form : Form) (w : World) :
  let main_ := parseInt (f_main form) in
  let tiebreak_ := parseInt (f_tiebreak form) in
  let choice_ := toLowerCase (f_choice form) in
  let risk := toLowerCase (f_risk form) in
  let found := findGiveaway id (giveaways w) in
  (exists m t g,
     main_ = Some m /\ 0 <= m <= 100
     /\ tiebreak_ = Some t /\ 0 <= t <= 100
     /\ (choice_ = "under" \/ choice_ = "over")
     /\ (risk = "low" \/ risk = "high")
     /\ found = Some g /\ ended g = false
     /\ exists entry,
          snd (modalJoin user now id form w)
          = {| giveaways := assign id (set_entries (entries g ++ [entry]) g) (giveaways w);
               randomOrg := randomOrg w; asked := asked w |}
          /\ userId entry = u_id user
          /\ main entry = m /\ tiebreak entry = t
          /\ choice entry = choice_ /\ riskProfile entry = risk
          /\ stakeC entry
             = toJSON (parseFloat (if String.eqb (f_stake form) "" then "1"
                                   else f_stake form))
          /\ (f_stake form = "" -> stakeC entry = Some (of_Z 1)))
  \/ (exists content kind,
        modalJoin user now id form w = ([Reply content], w)
        /\ failureOf content = Some kind
        /\ Rejected main_ tiebreak_ choice_ risk found kind).
Proof.
  intros main_ tiebreak_ choice_ risk found. unfold modalJoin.
  fold main_ tiebreak_ choice_ risk.
  destruct (outOfRange main_) eqn:Hm.
  { right. do 2 eexists. split; [reflexivity |]. split; [reflexivity |].
    apply rejected_main. rewrite <- outOfRange_spec, Hm. discriminate. }
  destruct (outOfRange tiebreak_) eqn:Ht.
  { right. do 2 eexists. split; [reflexivity |]. split; [reflexivity |].
    apply rejected_tiebreak. rewrite <- outOfRange_spec, Ht. discriminate. }
  destruct (includes ["under"; "over"] choice_) eqn:Hc; cbn [negb].
  2:{ right. do 2 eexists. split; [reflexivity |]. split; [reflexivity |].
      apply rejected_choice; intros E;
        assert (H : includes ["under"; "over"] choice_ = true)
          by (apply includes_pair; auto);
        rewrite H in Hc; discriminate Hc. }
  destruct (includes ["low"; "high"] risk) eqn:Hr; cbn [negb].
  2:{ right. do 2 eexists. split; [reflexivity |]. split; [reflexivity |].
      apply rejected_risk; intros E;
        assert (H : includes ["low"; "high"] risk = true)
          by (apply includes_pair; auto);
        rewrite H in Hr; discriminate Hr. }
  step. fold found.
  destruct found as [g |] eqn:Hf.
  2:{ right. do 2 eexists. split; [reflexivity |]. split; [reflexivity |].
      apply rejected_missing. reflexivity. }
  destruct (ended g) eqn:He.
  { right. do 2 eexists. split; [reflexivity |]. split; [reflexivity |].
    apply (rejected_ended _ _ _ _ _ g); [reflexivity | exact He]. }
  left.
  apply outOfRange_spec in Hm, Ht.
  destruct Hm as [m [Hm Hm']], Ht as [t [Ht Ht']].
  exists m, t, g. rewrite Hm, Ht.
  apply includes_pair in Hc, Hr.
  repeat (split; [first [reflexivity | lia | assumption] |]).
  eexists. split; [reflexivity |]. simpl.
  repeat (split; [reflexivity |]).
  intros ->. reflexivity.
Qed.

(** C10 as stated fails on the stake: a submission with the stake text "-5"
    is accepted and the entry is stored with the stake -5; one with the stake
    text "free" is accepted and stored with the stake [null]. *)
Lemma stored_stake_not_positive_counterexample :
  let join stake :=
    snd (modalJoin Example.bob 11 Example.id0
           (Example.form "30" "90" stake "under" "high")
           (Example.world [Example.g0] [])) in
  option_map (fun g => map stakeC (entries g))
    (findGiveaway Example.id0 (giveaways (join "-5")))
  = Some [Some (of_Z (-5))]
  /\ ltb (of_Z (-5)) zero = true
  /\ option_map (fun g => map stakeC (entries g))
       (findGiveaway Example.id0 (giveaways (join "free")))
     = Some [None].
Proof.
  vm_compute. repeat split.
Qed.

(** C10 holds of a submission without a stake: the entry is appended with the
    stake 1. *)
Lemma join_appends_or_rejects_witness :
  exists entry,
    snd (modalJoin Example.alice 10 Example.id0
           (Example.form "60" "10" "" "over" "low") (Example.world [Example.g0] []))
    = {| giveaways := assign Example.id0
                        (set_entries (entries Example.g0 ++ [entry]) Example.g0)
                        [Example.g0];
         randomOrg := []; asked := [] |}
    /\ stakeC entry = Some (of_Z 1).
Proof.
  destruct (join_appends_or_rejects Example.alice 10 Example.id0
              (Example.form "60" "10" "" "over" "low")
              (Example.world [Example.g0] []))
    as [(m & t & g & _ & _ & _ & _ & _ & _ & Hf & _ & entry & Hsnd & H)
       | (content & kind & H & _)].
  - vm_compute in Hf. injection Hf as <-.
    exists entry. split; [exact Hsnd |].
    apply H. reflexivity.
  - vm_compute in H. discriminate H.
Defined.

(** * Further properties of the code *)

(** ** The winner is a candidate *)

(** X1. The winner that a resolution saves is an entry of the giveaway that
    matches the roll: for a giveaway that had no winner, a saved winner carries
    the user, main number, tiebreak and choice of an entry which satisfies the
    roll that was drawn and saved. *)
Theorem saved_winner_matches_roll
    (cfg : Config) (announced : bool) (now : Z) (id : string) (w : World)
    (g g' : Giveaway) (gw : Winner) :
  findGiveaway id (giveaways w) = Some g ->
  winner g = absent ->
  findGiveaway id (giveaways (snd (resolveGiveaway cfg announced now id w)))
  = Some g' ->
  winner g' = value gw ->
  exists r e,
    hd (Failed "") (randomOrg w) = Drawn r
    /\ roll g' = Some r
    /\ In e (entries g)
    /\ satisfiesRoll r e
    /\ w_userId gw = userId e /\ w_username gw = username e
    /\ w_main gw = main e /\ w_tiebreak gw = tiebreak e
    /\ w_choice gw = choice e.
Proof.
  intros Hf Hnone Hf' Hw.
  destruct (ended g) eqn:He.
  { rewrite (resolve_ended cfg announced now id w g Hf He) in Hf'.
    cbn [snd] in Hf'. rewrite Hf in Hf'.
    injection Hf' as <-. rewrite Hnone in Hw. discriminate Hw. }
  destruct (hd (Failed "") (randomOrg w)) as [r | message] eqn:Hr.
  2:{ rewrite (resolve_roll_failed cfg announced now id w g message Hf He Hr) in Hf'.
      cbn [snd giveaways] in Hf'.
      rewrite (findGiveaway_assign id (giveaways w) g (rollFailed message g) Hf eq_refl)
        in Hf'.
      injection Hf' as <-. simpl in Hw. rewrite Hnone in Hw. discriminate Hw. }
  destruct (winnersCandidates r (entries g)) as [| c0 cands] eqn:Hc.
  { rewrite (resolve_no_candidates cfg announced now id w g r Hf He Hr Hc) in Hf'.
    cbn [snd giveaways] in Hf'.
    rewrite (findGiveaway_assign id (giveaways w) g (noWinners r g) Hf eq_refl) in Hf'.
    injection Hf' as <-. discriminate Hw. }
  assert (Hne : winnersCandidates r (entries g) <> []) by (rewrite Hc; discriminate).
  rewrite (resolve_chosen cfg announced now id w g r Hf He Hr Hne) in Hf'.
  pose proof (chooseWinner_In (winnersCandidates r (entries g)) (rolled w)) as Hin.
  pose proof (chooseWinner_giveaways (winnersCandidates r (entries g)) (rolled w)) as Hg.
  destruct (chooseWinner (winnersCandidates r (entries g)) (rolled w))
    as [[resolved [[i fw] |]] w3]; cbn [fst snd] in Hin, Hg, Hf'.
  - specialize (Hin (i, fw) eq_refl).
    unfold winnersCandidates in Hin. apply filter_In in Hin. destruct Hin as [Hin Hcand].
    apply refs_nth_error, nth_error_In in Hin. cbn [snd] in Hcand.
    apply isCandidate_spec in Hcand.
    assert (Hgw : winner g' = value (fst (payout cfg (pot g) fw)) /\ roll g' = Some r).
    { destruct announced; cbn [snd giveaways] in Hf';
        erewrite findGiveaway_assign in Hf' by (try exact Hf; reflexivity);
        injection Hf' as <-; split; reflexivity. }
    destruct Hgw as [Hgw Hroll]. rewrite Hgw in Hw. injection Hw as <-.
    exists r, fw. repeat split; assumption.
  - rewrite Hg in Hf'. unfold rolled in Hf'. cbn [randomOrgInteger snd giveaways] in Hf'.
    rewrite Hf in Hf'. injection Hf' as <-. rewrite Hnone in Hw. discriminate Hw.
Qed.

Lemma saved_winner_matches_roll_witness :
  exists r e,
    hd (Failed "") (randomOrg Example.rolls70) = Drawn r
    /\ roll Example.won1 = Some r
    /\ In e (entries Example.g1)
    /\ satisfiesRoll r e
    /\ w_userId Example.winner1 = userId e
    /\ w_username Example.winner1 = username e
    /\ w_main Example.winner1 = main e
    /\ w_tiebreak Example.winner1 = tiebreak e
    /\ w_choice Example.winner1 = choice e.
Proof.
  assert (Hf : findGiveaway Example.id0 (giveaways Example.rolls70) = Some Example.g1)
    by (vm_compute; reflexivity).
  assert (Hf' : findGiveaway Example.id0
                  (giveaways (snd (resolveGiveaway defaultConfig true 5000 Example.id0
                                     Example.rolls70)))
                = Some Example.won1) by (vm_compute; reflexivity).
  assert (Hw : winner Example.won1 = value Example.winner1)
    by (vm_compute; reflexivity).
  exact (saved_winner_matches_roll defaultConfig true 5000 Example.id0 Example.rolls70
           Example.g1 Example.won1 Example.winner1 Hf eq_refl Hf' Hw).
Defined.

(** ** What the handlers do to the file *)

Lemma resolve_evolves (cfg : Config) (announced : bool) (now : Z) (id : string)
    (w : World) :
  evolves (Some id) w (snd (resolveGiveaway cfg announced now id w)).
Proof.
  destruct (findGiveaway id (giveaways w)) as [g |] eqn:Hf.
  2:{ rewrite (resolve_missing cfg announced now id w Hf). apply evolves_same. reflexivity. }
  destruct (ended g) eqn:He.
  { rewrite (resolve_ended cfg announced now id w g Hf He). apply evolves_same. reflexivity. }
  destruct (hd (Failed "") (randomOrg w)) as [r | message] eqn:Hr.
  2:{ rewrite (resolve_roll_failed cfg announced now id w g message Hf He Hr).
      apply (evolves_change _ _ _ id g (rollFailed message g) eq_refl Hf); [| reflexivity].
      apply change_rollFailed. exact He. }
  destruct (winnersCandidates r (entries g)) as [| c0 cands] eqn:Hc.
  { rewrite (resolve_no_candidates cfg announced now id w g r Hf He Hr Hc).
    apply (evolves_change _ _ _ id g (noWinners r g) eq_refl Hf); [| reflexivity].
    apply change_noWinners; assumption. }
  assert (Hne : winnersCandidates r (entries g) <> []) by (rewrite Hc; discriminate).
  rewrite (resolve_chosen cfg announced now id w g r Hf He Hr Hne).
  pose proof (chooseWinner_In (winnersCandidates r (entries g)) (rolled w)) as Hin.
  pose proof (chooseWinner_giveaways (winnersCandidates r (entries g)) (rolled w)) as Hg.
  destruct (chooseWinner (winnersCandidates r (entries g)) (rolled w))
    as [[resolved [[i fw] |]] w3]; cbn [fst snd] in Hin, Hg |- *.
  - specialize (Hin (i, fw) eq_refl).
    destruct announced; cbn [snd].
    + apply (evolves_change _ _ _ id g _ eq_refl Hf
               (change_offered g cfg now r (List.length resolved) i fw He Hin)).
      reflexivity.
    + apply (evolves_change _ _ _ id g _ eq_refl Hf
               (change_won g cfg r (List.length resolved) i fw He Hin)).
      reflexivity.
  - apply evolves_same. rewrite Hg. reflexivity.
Qed.

Lemma doubleDownButton_evolves (act : Button) (id winnerId user : string)
    (w : World) :
  evolves (Some id) w (snd (doubleDownButton act id winnerId user w)).
Proof.
  unfold doubleDownButton. step.
  destruct (findGiveaway id (giveaways w)) as [g |] eqn:Hf;
    [| apply evolves_same; reflexivity].
  destruct (winner g) as [| | gw] eqn:Hw; try (apply evolves_same; reflexivity).
  destruct (negb (user =? winnerId)%string); [apply evolves_same; reflexivity |].
  destruct (doubleDown g) as [dd |] eqn:Hd; [| apply evolves_same; reflexivity].
  destruct (state dd) eqn:Hs; try (apply evolves_same; reflexivity).
  destruct act.
  - cbn [fst snd]. destruct (hd (Failed "") (randomOrg w)) as [r | message].
    + destruct (r >=? 50); cbn [snd].
      * apply (evolves_change _ _ _ id g _ eq_refl Hf (change_doubledWin g gw dd Hw Hd Hs)).
        reflexivity.
      * apply (evolves_change _ _ _ id g _ eq_refl Hf (change_doubledLose g gw dd Hw Hd Hs)).
        reflexivity.
    + apply evolves_same. reflexivity.
  - apply (evolves_change _ _ _ id g _ eq_refl Hf (change_declined g dd Hd Hs)). reflexivity.
Qed.

Lemma doubleDownTimeout_evolves (id : string) (w : World) :
  evolves (Some id) w (snd (doubleDownTimeout id w)).
Proof.
  unfold doubleDownTimeout. step.
  destruct (findGiveaway id (giveaways w)) as [g |] eqn:Hf;
    [| apply evolves_same; reflexivity].
  destruct (doubleDown g) as [dd |] eqn:Hd; [| apply evolves_same; reflexivity].
  destruct (state dd) eqn:Hs; try (apply evolves_same; reflexivity).
  apply (evolves_change _ _ _ id g _ eq_refl Hf (change_declined g dd Hd Hs)). reflexivity.
Qed.

Lemma modalJoin_evolves (user : User) (now : Z) (id : string) (form : Form)
    (w : World) :
  evolves (Some id) w (snd (modalJoin user now id form w)).
Proof.
  unfold modalJoin.
  destruct (outOfRange (parseInt (f_main form))) eqn:Hm;
    [apply evolves_same; reflexivity |].
  destruct (outOfRange (parseInt (f_tiebreak form))) eqn:Ht;
    [apply evolves_same; reflexivity |].
  destruct (includes ["under"; "over"] (toLowerCase (f_choice form))) eqn:Hc;
    cbn [negb]; [| apply evolves_same; reflexivity].
  destruct (includes ["low"; "high"] (toLowerCase (f_risk form))) eqn:Hk;
    cbn [negb]; [| apply evolves_same; reflexivity].
  unfold bind, loadGiveaways. cbn [fst snd].
  destruct (findGiveaway id (giveaways w)) as [g |] eqn:Hf;
    [| apply evolves_same; reflexivity].
  destruct (ended g) eqn:He; [apply evolves_same; reflexivity |].
  cbn [saveGiveaways ret snd].
  eapply (evolves_change _ _ _ id g (joined _ g) eq_refl Hf).
  2: reflexivity.
  apply change_joined; [exact He | |].
  - apply outOfRange_spec in Hm, Ht. destruct Hm as [m [-> Hm]].
    destruct Ht as [t [-> Ht]]. apply includes_pair in Hc, Hk.
    repeat split; cbn; try lia; assumption.
  - reflexivity.
Qed.

Lemma forceEnd_evolves (cfg : Config) (announced : bool) (now : Z)
    (permitted : bool) (id : string) (w : World) :
  evolves (Some id) w (snd (forceEnd cfg announced now permitted id w)).
Proof.
  unfold forceEnd, bind, loadGiveaways. cbn [fst snd].
  destruct (findGiveaway id (giveaways w)); [| apply evolves_same; reflexivity].
  destruct permitted; [| apply evolves_same; reflexivity].
  pose proof (resolve_evolves cfg announced now id w) as H.
  destruct (resolveGiveaway cfg announced now id w). exact H.
Qed.

Lemma onInteraction_evolves (cfg : Config) (announced : bool) (now : Z)
    (interaction : Interaction) (w : World) :
  evolves (target (OnInteraction interaction)) w
    (snd (onInteraction cfg announced now interaction w)).
Proof.
  destruct interaction as [customId user permitted | customId user form |];
    unfold onInteraction; cbn [target]; [| | apply evolves_same; reflexivity].
  - cbv zeta.
    destruct (String.eqb (hd "" (String_split ":" customId)) "join");
      [apply evolves_same; reflexivity |].
    destruct (String.eqb (hd "" (String_split ":" customId)) "forceend").
    { destruct (nth_error (String_split ":" customId) 1) as [id |];
        [| apply evolves_same; reflexivity].
      unfold bind. pose proof (forceEnd_evolves cfg announced now permitted id w) as H.
      destruct (forceEnd cfg announced now permitted id w). exact H. }
    destruct (String.eqb (hd "" (String_split ":" customId)) "dd_yes"
              || String.eqb (hd "" (String_split ":" customId)) "dd_no");
      [| apply evolves_same; reflexivity].
    destruct (nth_error (String_split ":" customId) 1) as [id |];
      [| apply evolves_same; reflexivity].
    destruct (nth_error (String_split ":" customId) 2) as [winnerId_ |].
    + unfold bind.
      match goal with
      | |- context [doubleDownButton ?a id winnerId_ (u_id user) w] =>
          pose proof (doubleDownButton_evolves a id winnerId_ (u_id user) w) as H;
          destruct (doubleDownButton a id winnerId_ (u_id user) w)
      end.
      exact H.
    + unfold doubleDownUndefined, bind, loadGiveaways. cbn [fst snd].
      destruct (findGiveaway id (giveaways w)) as [g |];
        [| apply evolves_same; reflexivity].
      destruct (winner g); apply evolves_same; reflexivity.
  - cbv zeta.
    destruct (String.eqb (hd "" (String_split ":" customId)) "modal_join");
      [| apply evolves_same; reflexivity].
    destruct (nth_error (String_split ":" customId) 1) as [id |];
      [| apply evolves_same; reflexivity].
    unfold bind. pose proof (modalJoin_evolves user now id form w) as H.
    destruct (modalJoin user now id form w). exact H.
Qed.

Lemma apiCreate_evolves (cfg : Config) (idNow now : Z) (posted : option string)
    (body : CreateBody) (w : World) :
  evolves None w (snd (apiCreate cfg idNow now posted body w)).
Proof.
  unfold apiCreate.
  destruct (b_channelId body) as [channelId_ |]; [| apply evolves_same; reflexivity].
  destruct (String.eqb channelId_ ""); [apply evolves_same; reflexivity |].
  unfold bind, loadGiveaways, saveGiveaways. cbn [fst snd].
  destruct posted as [msgId |]; cbn [fst snd ret].
  - eapply evolves_create; [| cbn [giveaways]; reflexivity]. repeat split.
  - eapply evolves_create; [| cbn [giveaways]; reflexivity]. repeat split.
Qed.

Lemma handle_evolves (env : Env) (ev : Event) (w : World) :
  evolves (target ev) w (snd (handle env ev w)).
Proof.
  destruct ev as [interaction | [id | id] | body]; unfold handle, bind, fire;
    [| cbn [target] ..].
  - pose proof (onInteraction_evolves (env_cfg env) (env_announced env) (env_now env)
                  interaction w) as H.
    destruct (onInteraction _ _ _ interaction w). exact H.
  - pose proof (resolve_evolves (env_cfg env) (env_announced env) (env_now env) id w)
      as H.
    destruct (resolveGiveaway _ _ _ id w). exact H.
  - pose proof (doubleDownTimeout_evolves id w) as H.
    destruct (doubleDownTimeout id w). exact H.
  - pose proof (apiCreate_evolves (env_cfg env) (env_idNow env) (env_now env)
                  (env_posted env) body w) as H.
    destruct (apiCreate _ _ _ _ body w). exact H.
Qed.

(** ** What a change keeps *)

Lemma findGiveaway_gid (id : string) (data : list Giveaway) (g : Giveaway) :
  findGiveaway id data = Some g -> gid g = id.
Proof.
  unfold findGiveaway. intros H. apply find_some in H.
  apply String.eqb_eq. apply H.
Qed.

Lemma findGiveaway_In (id : string) (data : list Giveaway) (g : Giveaway) :
  findGiveaway id data = Some g -> In g data.
Proof. unfold findGiveaway. intros H. apply find_some in H. apply H. Qed.

Lemma change_gid (g g' : Giveaway) : change g g' -> gid g' = gid g.
Proof. intros H. destruct H; reflexivity. Qed.

Lemma validEntry_deadline (v : option Z) (e : Entry) :
  validEntry e -> validEntry (set_doubleDownDeadline v e).
Proof. intros H. exact H. Qed.

Lemma markDeadline_valid (i : nat) (d : Z) (es : list Entry) :
  Forall validEntry es -> Forall validEntry (markDeadline i d es).
Proof.
  revert i. induction es as [| e es IH]; intros i H; [destruct i; constructor |].
  inversion H as [| ? ? He Hes]; subst.
  destruct i; simpl; constructor; auto.
Qed.

Lemma change_valid (g g' : Giveaway) :
  change g g' -> validGiveaway g -> validGiveaway g'.
Proof.
  unfold validGiveaway. intros H Hv. destruct H; cbn [entries rollFailed noWinners won
    offered declined doubledWin doubledLose joined set_result set_ended set_winner
    set_roll set_pot set_doubleDown set_entries]; try exact Hv.
  - apply markDeadline_valid. exact Hv.
  - apply Forall_app. split; [exact Hv |]. constructor; [assumption | constructor].
Qed.

Lemma markDeadline_In (i : nat) (d : Z) (es : list Entry) (e : Entry) :
  nth_error es i = Some e ->
  In (set_doubleDownDeadline (Some d) e) (markDeadline i d es).
Proof.
  revert i. induction es as [| a es IH]; intros i H; [destruct i; discriminate H |].
  destruct i; simpl in *.
  - injection H as ->. left. reflexivity.
  - right. apply IH. exact H.
Qed.

Lemma open_coherent (g : Giveaway) :
  coherent g -> ended g = false ->
  result g = None /\ roll g = None /\ winner g = absent /\ doubleDown g = None.
Proof.
  unfold coherent. intros H He.
  destruct (result g) as [[? ? | r | r n] |].
  - destruct H as [H _]. congruence.
  - destruct H as [H _]. congruence.
  - destruct H as [H _]. congruence.
  - destruct H as (_ & H1 & H2 & H3). auto.
Qed.

Lemma offered_coherent (g : Giveaway) :
  coherent g -> forall dd, doubleDown g = Some dd ->
  exists r n gw, result g = Some (ResultResolved r n) /\ ended g = true
    /\ roll g = Some r /\ winner g = value gw /\ wonBy r gw (entries g)
    /\ winnerId dd = w_userId gw.
Proof.
  unfold coherent. intros H dd Hd.
  destruct (result g) as [[? ? | r | r n] |].
  - destruct H as (_ & _ & _ & H). congruence.
  - destruct H as (_ & _ & _ & H & _). congruence.
  - destruct H as (He & Hr & gw & Hw & Hby & Hdd).
    exists r, n, gw. repeat split; auto.
  - destruct H as (_ & _ & _ & H). congruence.
Qed.

Lemma change_coherent (g g' : Giveaway) :
  change g g' -> coherent g -> coherent g'.
Proof.
  intros H Hc. destruct H as
    [g message He | g r He Hn | g cfg r n i fw He Hin | g cfg now r n i fw He Hin
    | g dd Hd Hs | g gw dd Hw Hd Hs | g gw dd Hw Hd Hs | g e He Hv Hdl].
  - destruct (open_coherent g Hc He) as (_ & Hr & Hw & Hd).
    unfold coherent. cbn. auto.
  - destruct (open_coherent g Hc He) as (_ & Hr & Hw & Hd).
    unfold coherent. cbn. repeat split; auto.
    apply Forall_forall. intros e Hin Hsat.
    exact (winnersCandidates_none r (entries g) e Hn Hin Hsat).
  - destruct (open_coherent g Hc He) as (_ & Hr & Hw & Hd).
    destruct (candidate_entry r (entries g) i fw Hin) as [Hnth Hsat].
    unfold coherent. cbn. repeat split.
    eexists. split; [reflexivity |]. split.
    + exists fw. repeat split; try reflexivity; [| exact Hsat].
      apply nth_error_In in Hnth. exact Hnth.
    + intros dd Hdd. congruence.
  - destruct (open_coherent g Hc He) as (_ & Hr & Hw & Hd).
    destruct (candidate_entry r (entries g) i fw Hin) as [Hnth Hsat].
    unfold coherent. cbn. repeat split.
    eexists. split; [reflexivity |]. split.
    + exists (set_doubleDownDeadline (Some (now + sixHours)) fw).
      repeat split; try reflexivity; [| exact Hsat].
      apply markDeadline_In. exact Hnth.
    + intros dd [= <-]. reflexivity.
  - destruct (offered_coherent g Hc dd Hd) as (r & n & gw & Hres & He & Hr & Hw & Hby & Hid).
    unfold coherent. cbn. rewrite Hres. repeat split; auto.
    exists gw. repeat split; auto. intros dd' [= <-]. exact Hid.
  - destruct (offered_coherent g Hc dd Hd) as (r & n & gw0 & Hres & He & Hr & Hw0 & Hby & Hid).
    assert (gw0 = gw) by congruence. subst gw0.
    unfold coherent. cbn. rewrite Hres. repeat split; auto.
    eexists. split; [reflexivity |]. split; [exact Hby |].
    intros dd' [= <-]. exact Hid.
  - destruct (offered_coherent g Hc dd Hd) as (r & n & gw0 & Hres & He & Hr & Hw0 & Hby & Hid).
    assert (gw0 = gw) by congruence. subst gw0.
    unfold coherent. cbn. rewrite Hres. repeat split; auto.
    eexists. split; [reflexivity |]. split; [exact Hby |].
    intros dd' [= <-]. exact Hid.
  - destruct (open_coherent g Hc He) as (Hres & Hr & Hw & Hd).
    unfold coherent. cbn. rewrite Hres. auto.
Qed.

Lemma fresh_coherent (g : Giveaway) : fresh g -> coherent g.
Proof.
  intros (_ & He & Hr & Hw & Hres & Hd). unfold coherent. rewrite Hres. auto.
Qed.

Lemma fresh_valid (g : Giveaway) : fresh g -> validGiveaway g.
Proof. intros (He & _). unfold validGiveaway. rewrite He. constructor. Qed.

(** ** From a change to the file *)

Lemma assign_Forall (P : Giveaway -> Prop) (id : string) (g' : Giveaway)
    (data : list Giveaway) :
  Forall P data -> P g' -> Forall P (assign id g' data).
Proof.
  intros H Hg. induction H as [| x rest Hx Hrest IH]; simpl; [constructor |].
  destruct (String.eqb (gid x) id); constructor; auto.
Qed.

Lemma evolves_Forall (P : Giveaway -> Prop) (t : option string) (w w' : World) :
  (forall g g', change g g' -> P g -> P g') ->
  (forall g, fresh g -> P g) ->
  evolves t w w' -> Forall P (giveaways w) -> Forall P (giveaways w').
Proof.
  intros Hchange Hfresh Hev H.
  destruct Hev as [Hsave | id g g' _ Hf Hc Hsave | g Hg Hsave]; rewrite Hsave.
  - exact H.
  - apply assign_Forall; [exact H |]. apply (Hchange g g' Hc).
    rewrite Forall_forall in H. apply H. apply (findGiveaway_In id _ g Hf).
  - apply Forall_app. split; [exact H |]. constructor; [auto | constructor].
Qed.

Lemma run_Forall (P : Giveaway -> Prop) :
  (forall g g', change g g' -> P g -> P g') ->
  (forall g, fresh g -> P g) ->
  forall (evs : list (Env * Event)) (w : World),
    Forall P (giveaways w) -> Forall P (giveaways (snd (runEvents evs w))).
Proof.
  intros Hchange Hfresh evs.
  induction evs as [| [env ev] rest IH]; intros w H; [exact H |].
  simpl. unfold bind.
  pose proof (handle_evolves env ev w) as Hev.
  destruct (handle env ev w) as [u w1]. apply IH.
  apply (evolves_Forall P (target ev) w w1 Hchange Hfresh Hev H).
Qed.

(** X2. Whatever events the bot handles, one after the other, and whatever
    random.org and Discord answer, every entry of the file keeps a main number
    and a tiebreak in 0..100, a choice that is "under" or "over" and a risk
    that is "low" or "high", if the entries of the file had them before. *)
Theorem run_keeps_entries_valid (evs : list (Env * Event)) (w : World) :
  Forall validGiveaway (giveaways w) ->
  Forall validGiveaway (giveaways (snd (runEvents evs w))).
Proof.
  apply run_Forall.
  - exact change_valid.
  - exact fresh_valid.
Qed.

Lemma validGiveaway_g1 : validGiveaway Example.g1.
Proof.
  constructor; [| constructor].
  unfold validEntry. cbn. repeat split; try lia; auto.
Qed.

Lemma run_keeps_entries_valid_witness :
  Forall validGiveaway (giveaways (snd (runEvents Example.events1 Example.rolls70))).
Proof.
  apply (run_keeps_entries_valid Example.events1 Example.rolls70).
  change (giveaways Example.rolls70) with [Example.g1].
  constructor; [exact validGiveaway_g1 | constructor].
Defined.

(** X3. Whatever events the bot handles, one after the other, the properties
    of every giveaway of the file keep fitting together: an open giveaway has
    no roll, winner, result or double down; after a failed roll there is only
    the error; without winners the winner is [null] and no entry matches the
    roll; a resolved giveaway has its roll and a winner who is one of its
    entries and matches the roll, and whom the double down names. *)
Theorem run_keeps_coherent (evs : list (Env * Event)) (w : World) :
  Forall coherent (giveaways w) ->
  Forall coherent (giveaways (snd (runEvents evs w))).
Proof.
  apply run_Forall.
  - exact change_coherent.
  - exact fresh_coherent.
Qed.

Lemma coherent_g1 : coherent Example.g1.
Proof. unfold coherent. cbn. repeat split. Qed.

Lemma run_keeps_coherent_witness :
  Forall coherent (giveaways (snd (runEvents Example.events1 Example.rolls70))).
Proof.
  apply (run_keeps_coherent Example.events1 Example.rolls70).
  change (giveaways Example.rolls70) with [Example.g1].
  constructor; [exact coherent_g1 | constructor].
Defined.

(** ** Later states of a giveaway *)

Lemma sameWinner_refl (x : field Winner) : sameWinner x x.
Proof. destruct x; simpl; auto 10. Qed.

Lemma sameWinner_trans (x y z : field Winner) :
  sameWinner x y -> sameWinner y z -> sameWinner x z.
Proof.
  destruct x, y, z; simpl; try tauto.
  intros (H1 & H2 & H3 & H4 & H5 & H6 & H7 & H8) (K1 & K2 & K3 & K4 & K5 & K6 & K7 & K8).
  repeat split; congruence.
Qed.

Lemma extends_refl (g : Giveaway) : extends g g.
Proof.
  unfold extends, sameHead. split; [repeat split | split].
  - exists []. rewrite app_nil_r. auto.
  - intros He. repeat split; [exact He | apply sameWinner_refl].
Qed.

Lemma extends_trans (g1 g2 g3 : Giveaway) :
  extends g1 g2 -> extends g2 g3 -> extends g1 g3.
Proof.
  unfold extends, sameHead.
  intros (H1 & (m1 & E1 & N1) & F1) (H2 & (m2 & E2 & N2) & F2).
  split; [| split].
  - repeat split; intuition congruence.
  - exists (m1 ++ m2). split.
    + rewrite E2, E1, app_assoc. reflexivity.
    + intros He. destruct (F1 He) as (He2 & _).
      rewrite (N1 He), (N2 He2). reflexivity.
  - intros He. destruct (F1 He) as (He2 & R1 & S1 & W1).
    destruct (F2 He2) as (He3 & R2 & S2 & W2).
    repeat split; try congruence.
    apply (sameWinner_trans _ _ _ W1 W2).
Qed.

Lemma markDeadline_withoutDeadline (i : nat) (d : Z) (es : list Entry) :
  map withoutDeadline (markDeadline i d es) = map withoutDeadline es.
Proof.
  revert i. induction es as [| e es IH]; intros i; [destruct i; reflexivity |].
  destruct i; simpl; [reflexivity | rewrite IH; reflexivity].
Qed.

Lemma change_extends (g g' : Giveaway) : change g g' -> extends g g'.
Proof.
  intros H. destruct H as
    [g message He | g r He Hn | g cfg r n i fw He Hin | g cfg now r n i fw He Hin
    | g dd Hd Hs | g gw dd Hw Hd Hs | g gw dd Hw Hd Hs | g e He Hv Hdl];
    unfold extends, sameHead; (split; [repeat split | split]);
    try (intros He'; congruence);
    try (exists []; rewrite app_nil_r; split; [reflexivity | reflexivity]).
  - exists []. rewrite app_nil_r. split; [| reflexivity].
    cbn. apply markDeadline_withoutDeadline.
  - intros He. cbn. repeat split; auto using sameWinner_refl.
  - intros He. cbn. rewrite Hw. cbn. repeat split; auto.
  - intros He. cbn. rewrite Hw. cbn. repeat split; auto.
  - exists [withoutDeadline e]. split; [| intros He'; congruence].
    cbn. rewrite map_app. reflexivity.
Qed.

Lemma assign_positions (R : Giveaway -> Giveaway -> Prop) (id : string)
    (g g' : Giveaway) (data : list Giveaway) :
  (forall x, R x x) -> findGiveaway id data = Some g -> R g g' ->
  forall k x, nth_error data k = Some x ->
    exists x', nth_error (assign id g' data) k = Some x' /\ R x x'.
Proof.
  intros Hrefl Hf HR. unfold findGiveaway in Hf.
  induction data as [| y rest IH]; intros k x Hk; [destruct k; discriminate Hk |].
  simpl in Hf |- *. destruct (String.eqb (gid y) id).
  - injection Hf as Hf. subst y. destruct k; simpl in *.
    + injection Hk as Hk. subst x. exists g'. auto.
    + exists x. auto.
  - destruct k; simpl in *.
    + injection Hk as Hk. subst x. exists y. auto.
    + apply (IH Hf k x Hk).
Qed.

Lemma evolves_positions (R : Giveaway -> Giveaway -> Prop) (t : option string)
    (w w' : World) :
  (forall x, R x x) -> (forall g g', change g g' -> R g g') ->
  evolves t w w' ->
  forall k x, nth_error (giveaways w) k = Some x ->
    exists x', nth_error (giveaways w') k = Some x' /\ R x x'.
Proof.
  intros Hrefl Hchange Hev k x Hk.
  destruct Hev as [Hsave | id g g' _ Hf Hc Hsave | g Hg Hsave]; rewrite Hsave.
  - exists x. auto.
  - apply (assign_positions R id g g' _ Hrefl Hf (Hchange g g' Hc) k x Hk).
  - exists x. split; [| apply Hrefl].
    rewrite nth_error_app1; [exact Hk |].
    apply nth_error_Some. congruence.
Qed.

(** X4. Whatever events the bot handles, one after the other, a giveaway of
    the file stays at its place, with its id, title, prize, creator, channel,
    message and times; its entries stay, in their order, and but for the
    double-down deadline they are as they were, new ones coming at the end;
    and once it is ended it stays ended, takes no entry, and keeps its roll,
    its result and its winner, of whom only the payout may still change. *)
Theorem run_extends (evs : list (Env * Event)) (w : World) (k : nat)
    (g : Giveaway) :
  nth_error (giveaways w) k = Some g ->
  exists g', nth_error (giveaways (snd (runEvents evs w))) k = Some g' /\ extends g g'.
Proof.
  revert w g. induction evs as [| [env ev] rest IH]; intros w g Hk.
  - exists g. split; [exact Hk | apply extends_refl].
  - simpl. unfold bind.
    pose proof (handle_evolves env ev w) as Hev.
    destruct (handle env ev w) as [u w1]. cbn [snd] in Hev.
    destruct (evolves_positions extends (target ev) w w1 extends_refl change_extends
                Hev k g Hk) as (g1 & Hk1 & He1).
    destruct (IH w1 g1 Hk1) as (g' & Hk' & He').
    exists g'. split; [exact Hk' |]. apply (extends_trans g g1 g' He1 He').
Qed.

Lemma run_extends_witness :
  exists g',
    nth_error (giveaways (snd (runEvents Example.events1 Example.rolls70))) 0 = Some g'
    /\ extends Example.g1 g'.
Proof.
  apply (run_extends Example.events1 Example.rolls70 0 Example.g1). reflexivity.
Defined.

(** ** Giveaways that share an id *)

Lemma assign_other_id (id : string) (g' : Giveaway) (data : list Giveaway)
    (k : nat) (gk : Giveaway) :
  nth_error data k = Some gk -> String.eqb (gid gk) id = false ->
  nth_error (assign id g' data) k = Some gk.
Proof.
  revert k. induction data as [| y rest IH]; intros k Hk Hne;
    [destruct k; discriminate Hk |].
  destruct k as [| k]; simpl in Hk |- *.
  - injection Hk as Hk. subst y. rewrite Hne. reflexivity.
  - destruct (String.eqb (gid y) id); [exact Hk |]. simpl. apply IH; assumption.
Qed.

Lemma assign_shadowed (id : string) (g' : Giveaway) (data : list Giveaway)
    (i k : nat) (gi gk : Giveaway) :
  nth_error data i = Some gi -> nth_error data k = Some gk ->
  (i < k)%nat -> gid gi = gid gk ->
  nth_error (assign id g' data) k = Some gk.
Proof.
  revert i k. induction data as [| y rest IH]; intros i k Hi Hk Hlt Hid;
    [destruct k; discriminate Hk |].
  destruct k as [| k]; [lia |]. simpl in Hk |- *.
  destruct (String.eqb (gid y) id) eqn:Hy; [exact Hk |].
  simpl. destruct i as [| i]; simpl in Hi.
  - injection Hi as Hi. subst y.
    apply assign_other_id; [exact Hk | rewrite <- Hid; exact Hy].
  - apply (IH i k Hi Hk); [lia | exact Hid].
Qed.

Lemma evolves_shadowed (t : option string) (w w' : World) (i k : nat)
    (gi gk : Giveaway) :
  evolves t w w' ->
  nth_error (giveaways w) i = Some gi -> nth_error (giveaways w) k = Some gk ->
  (i < k)%nat -> gid gi = gid gk ->
  nth_error (giveaways w') k = Some gk.
Proof.
  intros Hev Hi Hk Hlt Hid.
  destruct Hev as [Hsave | id g g' _ Hf Hc Hsave | g Hg Hsave]; rewrite Hsave.
  - exact Hk.
  - apply (assign_shadowed id g' _ i k gi gk Hi Hk Hlt Hid).
  - rewrite nth_error_app1; [exact Hk |]. apply nth_error_Some. congruence.
Qed.

(** X5. A giveaway that comes in the file after another one with the same id
    never changes: whatever events the bot handles, one after the other, no
    join, no resolution and no double down reaches it. *)
Theorem run_never_reaches_shadowed (evs : list (Env * Event)) (w : World)
    (i k : nat) (gi gk : Giveaway) :
  nth_error (giveaways w) i = Some gi -> nth_error (giveaways w) k = Some gk ->
  (i < k)%nat -> gid gi = gid gk ->
  nth_error (giveaways (snd (runEvents evs w))) k = Some gk.
Proof.
  revert w gi. induction evs as [| [env ev] rest IH]; intros w gi Hi Hk Hlt Hid;
    [exact Hk |].
  simpl. unfold bind.
  pose proof (handle_evolves env ev w) as Hev.
  destruct (handle env ev w) as [u w1]. cbn [snd] in Hev.
  destruct (evolves_positions (fun x x' => gid x' = gid x) (target ev) w w1
              (fun x => eq_refl) change_gid Hev i gi Hi) as (gi1 & Hi1 & Hg1).
  apply (IH w1 gi1 Hi1); [| exact Hlt | congruence].
  apply (evolves_shadowed (target ev) w w1 i k gi gk Hev Hi Hk Hlt Hid).
Qed.

Lemma run_never_reaches_shadowed_witness :
  nth_error (giveaways (snd (runEvents Example.events2 Example.twins))) 1 = Some Example.twin1.
Proof.
  apply (run_never_reaches_shadowed Example.events2 Example.twins 0 1 Example.twin0 Example.twin1);
    [reflexivity | reflexivity | lia | reflexivity].
Defined.

(** ** Other giveaways *)

Lemma findGiveaway_assign_other (id id' : string) (g' : Giveaway)
    (data : list Giveaway) :
  gid g' = id -> id' <> id ->
  findGiveaway id' (assign id g' data) = findGiveaway id' data.
Proof.
  intros Hg Hne. unfold findGiveaway.
  induction data as [| y rest IH]; [reflexivity |].
  simpl. destruct (String.eqb (gid y) id) eqn:Hy.
  - apply String.eqb_eq in Hy. simpl.
    assert (H1 : String.eqb (gid g') id' = false)
      by (apply String.eqb_neq; congruence).
    assert (H2 : String.eqb (gid y) id' = false)
      by (apply String.eqb_neq; congruence).
    rewrite H1, H2. reflexivity.
  - simpl. destruct (String.eqb (gid y) id'); [reflexivity | exact IH].
Qed.

Lemma findGiveaway_app (id : string) (data more : list Giveaway) (g : Giveaway) :
  findGiveaway id data = Some g -> findGiveaway id (data ++ more) = Some g.
Proof.
  unfold findGiveaway. induction data as [| y rest IH]; [discriminate |].
  simpl. destruct (String.eqb (gid y) id); auto.
Qed.

(** X6. An event changes no giveaway but the one it is about: a giveaway found
    under another id than the second part of the custom id of the component,
    or than the id the timer was armed with, is found as it was afterwards;
    and a creation changes no giveaway that was there. *)
Theorem handle_elsewhere (env : Env) (ev : Event) (w : World) (id' : string)
    (g : Giveaway) :
  target ev <> Some id' ->
  findGiveaway id' (giveaways w) = Some g ->
  findGiveaway id' (giveaways (snd (handle env ev w))) = Some g.
Proof.
  intros Ht Hf.
  destruct (handle_evolves env ev w) as [Hsave | id g0 g' Hid Hf0 Hc Hsave | g0 Hg Hsave];
    rewrite Hsave.
  - exact Hf.
  - rewrite findGiveaway_assign_other; [exact Hf | | congruence].
    rewrite (change_gid g0 g' Hc). apply (findGiveaway_gid id _ g0 Hf0).
  - apply findGiveaway_app. exact Hf.
Qed.

Lemma handle_elsewhere_witness :
  findGiveaway Example.id0
    (giveaways (snd (handle Example.env1 (OnTimer (ResolveTimer "G-1")) Example.rolls70)))
  = Some Example.g1.
Proof.
  apply (handle_elsewhere Example.env1 (OnTimer (ResolveTimer "G-1")) Example.rolls70
           Example.id0 Example.g1).
  - cbn. discriminate.
  - vm_compute. reflexivity.
Defined.

(** ** The keys of the groups *)

Lemma bounded_NoDup_length (l : list Z) :
  NoDup l -> (forall k, In k l -> 0 <= k <= 100) -> (List.length l <= 101)%nat.
Proof.
  intros Hnd Hb.
  change 101%nat with (List.length (map Z.of_nat (seq 0 101))).
  apply NoDup_incl_length; [exact Hnd |].
  intros k Hk. specialize (Hb k Hk). apply in_map_iff.
  exists (Z.to_nat k). split; [lia |]. apply in_seq. lia.
Qed.

(** ** The requests of a resolution *)

Lemma honours_app (r1 r2 : list (Z * Z)) (answers : list Answer) :
  honours (r1 ++ r2) answers
  <-> honours r1 answers /\ honours r2 (skipn (List.length r1) answers).
Proof.
  revert answers. induction r1 as [| [lo hi] r1 IH]; intros answers.
  - simpl. tauto.
  - destruct answers as [| [n | message] answers].
    + simpl. destruct r2 as [| [? ?] ?]; simpl; tauto.
    + simpl. rewrite IH. tauto.
    + simpl. rewrite IH. tauto.
Qed.

Lemma requestsBetween_app (w w' : World) (reqs : list (Z * Z)) :
  asked w' = asked w ++ reqs -> requestsBetween w w' = reqs.
Proof.
  intros H. unfold requestsBetween. rewrite H, skipn_app, skipn_all, Nat.sub_diag.
  reflexivity.
Qed.

Lemma at_defined {A} (l : list A) (i : Z) :
  0 <= i <= Z.of_nat (List.length l) - 1 -> at_ l i <> None.
Proof.
  intros H. unfold at_. destruct (i <? 0) eqn:Hi; [lia |].
  apply nth_error_Some. lia.
Qed.

Ltac conjuncts := repeat match goal with |- _ /\ _ => split end.

Lemma resolveGroup_trace (arr : list Ref) (w : World) :
  arr <> [] ->
  exists reqs,
    asked (snd (resolveGroup arr w)) = asked w ++ reqs
    /\ randomOrg (snd (resolveGroup arr w)) = skipn (List.length reqs) (randomOrg w)
    /\ Forall properRange reqs
    /\ (List.length reqs <= 1)%nat
    /\ (honours reqs (randomOrg w) -> fst (resolveGroup arr w) <> None).
Proof.
  intros Hne. rewrite resolveGroup_holders.
  pose proof (holdersOfMax_nonempty arr Hne) as Hh.
  destruct (holdersOfMax arr) as [| a [| b tied]] eqn:Ht; [contradiction Hh; reflexivity | |].
  - exists []. cbn [fst snd]. rewrite app_nil_r. conjuncts; auto; discriminate.
  - exists [(0, Z.of_nat (List.length (a :: b :: tied)) - 1)].
    cbn [fst snd randomOrgInteger asked randomOrg]. conjuncts.
    + reflexivity.
    + destruct (randomOrg w); reflexivity.
    + constructor; [| constructor]. split; cbn [fst snd List.length]; lia.
    + auto.
    + intros Hh'. destruct (randomOrg w) as [| [n | message] answers]; cbn [hd].
      * discriminate.
      * cbn [honours] in Hh'. apply at_defined. lia.
      * discriminate.
Qed.

Lemma resolveGroups_trace (groups : list (list Ref)) (w : World) :
  Forall (fun arr => arr <> []) groups ->
  exists reqs,
    asked (snd (resolveGroups groups w)) = asked w ++ reqs
    /\ randomOrg (snd (resolveGroups groups w))
       = skipn (List.length reqs) (randomOrg w)
    /\ Forall properRange reqs
    /\ (List.length reqs <= List.length groups)%nat
    /\ List.length (fst (resolveGroups groups w)) = List.length groups
    /\ (honours reqs (randomOrg w) ->
        Forall (fun x => x <> None) (fst (resolveGroups groups w))).
Proof.
  intros H. revert w. induction H as [| arr rest Harr Hrest IH]; intros w.
  - exists []. simpl. rewrite app_nil_r. conjuncts; auto.
  - simpl. unfold bind.
    destruct (resolveGroup_trace arr w Harr) as (q1 & A1 & R1 & P1 & L1 & D1).
    destruct (resolveGroup arr w) as [x w1]. cbn [fst snd] in *.
    destruct (IH w1) as (q2 & A2 & R2 & P2 & L2 & N2 & D2).
    destruct (resolveGroups rest w1) as [xs w2]. cbn [fst snd ret] in *.
    exists (q1 ++ q2). conjuncts.
    + rewrite A2, A1, app_assoc. reflexivity.
    + rewrite R2, R1, skipn_skipn, length_app, Nat.add_comm. reflexivity.
    + apply Forall_app. auto.
    + rewrite length_app. lia.
    + cbn [List.length]. rewrite N2. reflexivity.
    + intros Hh. apply honours_app in Hh. destruct Hh as [H1 H2].
      constructor; [apply D1; exact H1 |]. apply D2. rewrite R1. exact H2.
Qed.

Lemma pickFinalWinner_trace (resolved : list (option Ref)) (w : World) :
  resolved <> [] ->
  exists reqs,
    asked (snd (pickFinalWinner resolved w)) = asked w ++ reqs
    /\ randomOrg (snd (pickFinalWinner resolved w))
       = skipn (List.length reqs) (randomOrg w)
    /\ Forall properRange reqs
    /\ (List.length reqs <= 1)%nat
    /\ (Forall (fun x => x <> None) resolved -> honours reqs (randomOrg w) ->
        fst (pickFinalWinner resolved w) <> None).
Proof.
  intros Hne. unfold pickFinalWinner.
  destruct resolved as [| a [| b rest]]; [contradiction Hne; reflexivity | |].
  - exists []. cbn [fst snd ret]. rewrite app_nil_r. conjuncts; auto.
    intros Hd _. inversion Hd; assumption.
  - exists [(0, Z.of_nat (List.length (a :: b :: rest)) - 1)].
    unfold bind, randomOrgInteger. cbn [fst snd].
    assert (Hsnd : forall r : Answer,
               snd (match r with
                    | Drawn idx => ret (undefinedOr (at_ (a :: b :: rest) idx))
                    | Failed _ => ret (undefinedOr (hd_error (a :: b :: rest)))
                    end
                      {| giveaways := giveaways w; randomOrg := tl (randomOrg w);
                         asked := asked w
                                  ++ [(0, Z.of_nat (List.length (a :: b :: rest)) - 1)] |})
               = {| giveaways := giveaways w; randomOrg := tl (randomOrg w);
                    asked := asked w
                             ++ [(0, Z.of_nat (List.length (a :: b :: rest)) - 1)] |})
      by (intros [? | ?]; reflexivity).
    rewrite Hsnd. cbn [asked randomOrg]. conjuncts.
    + reflexivity.
    + destruct (randomOrg w); reflexivity.
    + constructor; [| constructor]. split; cbn [fst snd List.length]; lia.
    + auto.
    + intros Hd Hh. rewrite Forall_forall in Hd.
      destruct (randomOrg w) as [| [n | message] answers]; cbn [hd fst ret].
      * cbn. apply Hd. left. reflexivity.
      * cbn [honours] in Hh.
        destruct (at_ (a :: b :: rest) n) as [x |] eqn:Hat.
        -- cbn [undefinedOr]. apply Hd. apply (at_In _ n). exact Hat.
        -- exfalso. revert Hat. apply at_defined. lia.
      * cbn. apply Hd. left. reflexivity.
Qed.

Lemma chooseWinner_trace (cands : list Ref) (w : World) :
  cands <> [] ->
  exists reqs,
    asked (snd (chooseWinner cands w)) = asked w ++ reqs
    /\ randomOrg (snd (chooseWinner cands w))
       = skipn (List.length reqs) (randomOrg w)
    /\ Forall properRange reqs
    /\ (List.length reqs <= List.length (groupByMain cands) + 1)%nat
    /\ (honours reqs (randomOrg w) -> snd (fst (chooseWinner cands w)) <> None).
Proof.
  intros Hne. unfold chooseWinner, bind.
  assert (Hgroups : Forall (fun arr => arr <> [])
                      (map (getGroup (groupByMain cands))
                         (objectKeys (groupByMain cands)))).
  { apply Forall_forall. intros arr Harr. apply in_map_iff in Harr.
    destruct Harr as [k [<- Hk]]. apply objectKeys_group. exact Hk. }
  destruct (resolveGroups_trace _ w Hgroups) as (q1 & A1 & R1 & P1 & L1 & N1 & D1).
  destruct (resolveGroups _ w) as [resolved w1]. cbn [fst snd] in *.
  assert (Hres : resolved <> []).
  { intros ->. simpl in N1. symmetry in N1. apply length_zero_iff_nil in N1.
    apply map_eq_nil in N1. revert N1. apply objectKeys_nonempty. exact Hne. }
  destruct (pickFinalWinner_trace resolved w1 Hres) as (q2 & A2 & R2 & P2 & L2 & D2).
  destruct (pickFinalWinner resolved w1) as [fw w2]. cbn [fst snd ret] in *.
  exists (q1 ++ q2). conjuncts.
  - rewrite A2, A1, app_assoc. reflexivity.
  - rewrite R2, R1, skipn_skipn, length_app, Nat.add_comm. reflexivity.
  - apply Forall_app. auto.
  - rewrite length_app. rewrite length_map in L1.
    rewrite (Permutation_length (objectKeys_Permutation _)), length_map in L1. lia.
  - intros Hh. apply honours_app in Hh. destruct Hh as [H1 H2].
    apply D2; [apply D1; exact H1 | rewrite R1; exact H2].
Qed.

(** The number of groups of the candidates of valid entries. *)
Lemma groups_bound (r : Z) (es : list Entry) :
  Forall validEntry es ->
  (List.length (groupByMain (winnersCandidates r es)) <= 101)%nat.
Proof.
  intros Hv. rewrite <- (length_map fst).
  apply bounded_NoDup_length; [apply groupByMain_NoDup |].
  intros k Hk. apply groupByMain_keys in Hk. destruct Hk as [[i e] [Hc <-]].
  apply candidate_entry in Hc. destruct Hc as [Hnth _].
  apply nth_error_In in Hnth. rewrite Forall_forall in Hv.
  destruct (Hv e Hnth) as [Hm _]. exact Hm.
Qed.

Lemma resolve_trace (cfg : Config) (announced : bool) (now : Z) (id : string)
    (w : World) :
  let res := resolveGiveaway cfg announced now id w in
  exists reqs,
    asked (snd res) = asked w ++ reqs
    /\ Forall properRange reqs
    /\ (forall g, findGiveaway id (giveaways w) = Some g -> validGiveaway g ->
        (List.length reqs <= 103)%nat)
    /\ (honours reqs (randomOrg w) -> ~ In TypeError (fst res)).
Proof.
  intros res. subst res.
  assert (Hnone : forall effs w', effs <> [TypeError] -> (forall e, In e effs -> e <> TypeError) ->
            asked w' = asked w ->
            exists reqs, asked (snd (effs, w')) = asked w ++ reqs
              /\ Forall properRange reqs
              /\ (forall g, findGiveaway id (giveaways w) = Some g -> validGiveaway g ->
                  (List.length reqs <= 103)%nat)
              /\ (honours reqs (randomOrg w) -> ~ In TypeError (fst (effs, w')))).
  { intros effs w' _ Hno Ha. exists []. cbn [fst snd]. rewrite app_nil_r.
    conjuncts; auto.
    - intros; simpl; lia.
    - intros _ Hin. apply (Hno TypeError Hin). reflexivity. }
  destruct (findGiveaway id (giveaways w)) as [g |] eqn:Hf.
  2:{ rewrite (resolve_missing cfg announced now id w Hf).
      apply Hnone; [discriminate | intros e [] | reflexivity]. }
  destruct (ended g) eqn:He.
  { rewrite (resolve_ended cfg announced now id w g Hf He).
    apply Hnone; [discriminate | intros e [] | reflexivity]. }
  assert (Hone : forall effs gs, (forall e, In e effs -> e <> TypeError) ->
            exists reqs,
              asked (snd (effs, {| giveaways := gs; randomOrg := tl (randomOrg w);
                                   asked := asked w ++ [(0, 100)] |}))
              = asked w ++ reqs
              /\ Forall properRange reqs
              /\ (forall g0, Some g = Some g0 -> validGiveaway g0 ->
                  (List.length reqs <= 103)%nat)
              /\ (honours reqs (randomOrg w) ->
                  ~ In TypeError
                      (fst (effs, {| giveaways := gs; randomOrg := tl (randomOrg w);
                                     asked := asked w ++ [(0, 100)] |})))).
  { intros effs gs Hno. exists [(0, 100)]. cbn [fst snd asked]. conjuncts.
    - reflexivity.
    - constructor; [| constructor]. split; cbn; lia.
    - intros; simpl; lia.
    - intros _ Hin. apply (Hno TypeError Hin). reflexivity. }
  destruct (hd (Failed "") (randomOrg w)) as [r | message] eqn:Hr.
  2:{ rewrite (resolve_roll_failed cfg announced now id w g message Hf He Hr).
      apply Hone. intros e [<- | []]. discriminate. }
  destruct (winnersCandidates r (entries g)) as [| c0 cands] eqn:Hc.
  { rewrite (resolve_no_candidates cfg announced now id w g r Hf He Hr Hc).
    apply Hone. intros e []. }
  assert (Hne : winnersCandidates r (entries g) <> []) by (rewrite Hc; discriminate).
  rewrite (resolve_chosen cfg announced now id w g r Hf He Hr Hne).
  destruct (chooseWinner_trace (winnersCandidates r (entries g)) (rolled w) Hne)
    as (q & A & R & P & L & D).
  unfold rolled in A, R, D. cbn [randomOrgInteger snd asked randomOrg] in A, R, D.
  exists ((0, 100) :: q).
  assert (Hasked : asked (snd (chooseWinner (winnersCandidates r (entries g)) (rolled w)))
                   = asked w ++ (0, 100) :: q).
  { unfold rolled. cbn [randomOrgInteger snd]. rewrite A, <- app_assoc. reflexivity. }
  assert (Hdef : honours ((0, 100) :: q) (randomOrg w) ->
                 snd (fst (chooseWinner (winnersCandidates r (entries g)) (rolled w)))
                 <> None).
  { intros Hh. unfold rolled. cbn [randomOrgInteger snd]. apply D.
    destruct (randomOrg w) as [| [n | message] answers].
    - destruct q as [| [? ?] ?]; exact I.
    - cbn [honours] in Hh. apply Hh.
    - cbn [honours] in Hh. exact Hh. }
  destruct (chooseWinner (winnersCandidates r (entries g)) (rolled w))
    as [[resolved [[i fw] |]] w3]; cbn [fst snd] in *.
  - conjuncts.
    + destruct announced; cbn [snd asked]; exact Hasked.
    + constructor; [split; cbn; lia | exact P].
    + intros g0 [= <-] Hv. pose proof (groups_bound r (entries g) Hv).
      cbn [List.length]. lia.
    + intros _ Hin. destruct announced; cbn [fst] in Hin;
        destruct Hin as [Hin | []]; discriminate Hin.
  - conjuncts.
    + exact Hasked.
    + constructor; [split; cbn; lia | exact P].
    + intros g0 [= <-] Hv. pose proof (groups_bound r (entries g) Hv).
      cbn [List.length]. lia.
    + intros Hh _. apply (Hdef Hh). reflexivity.
Qed.

(** X7. A resolution ends with a [TypeError] only when random.org answers
    outside the range it was asked for: when every integer that random.org
    gives during the resolution lies in the range of its request, whatever
    requests fail, the winner is defined. *)
Theorem resolve_defined_when_honoured
    (cfg : Config) (announced : bool) (now : Z) (id : string) (w : World) :
  honoured w (snd (resolveGiveaway cfg announced now id w)) ->
  ~ In TypeError (fst (resolveGiveaway cfg announced now id w)).
Proof.
  destruct (resolve_trace cfg announced now id w) as (reqs & A & _ & _ & D).
  unfold honoured. rewrite (requestsBetween_app _ _ reqs A). exact D.
Qed.

Lemma resolve_defined_when_honoured_witness :
  ~ In TypeError
      (fst (resolveGiveaway defaultConfig true 5000 Example.id0 Example.rolls3)).
Proof.
  apply (resolve_defined_when_honoured defaultConfig true 5000 Example.id0 Example.rolls3).
  unfold honoured.
  assert (H : requestsBetween Example.rolls3
                (snd (resolveGiveaway defaultConfig true 5000 Example.id0 Example.rolls3))
              = [(0, 100); (0, 1)]) by (vm_compute; reflexivity).
  rewrite H. cbn. lia.
Defined.

(** X8. A resolution asks random.org only for ranges from 0 to at least 1; and
    when the entries of the giveaway are as the form accepts them, it makes at
    most 103 requests, however many entries there are: the roll, one for each
    main number, one among the main numbers. *)
Theorem resolve_requests
    (cfg : Config) (announced : bool) (now : Z) (id : string) (w : World) :
  let requests :=
    requestsBetween w (snd (resolveGiveaway cfg announced now id w)) in
  Forall properRange requests
  /\ (forall g, findGiveaway id (giveaways w) = Some g -> validGiveaway g ->
      (List.length requests <= 103)%nat).
Proof.
  destruct (resolve_trace cfg announced now id w) as (reqs & A & P & L & _).
  cbv zeta. rewrite (requestsBetween_app _ _ reqs A). split; assumption.
Qed.

Lemma resolve_requests_witness :
  Forall properRange
    (requestsBetween Example.rolls3
       (snd (resolveGiveaway defaultConfig true 5000 Example.id0 Example.rolls3)))
  /\ (List.length
        (requestsBetween Example.rolls3
           (snd (resolveGiveaway defaultConfig true 5000 Example.id0 Example.rolls3)))
      <= 103)%nat.
Proof.
  destruct (resolve_requests defaultConfig true 5000 Example.id0 Example.rolls3)
    as [H1 H2].
  split; [exact H1 |].
  apply (H2 Example.g3); [vm_compute; reflexivity |].
  unfold validGiveaway, validEntry.
  repeat constructor; cbn; try lia; auto.
Defined.

(** ** When only the roll is answered *)

Lemma allFail_hd (script : list Answer) :
  allFail script -> exists message, hd (Failed "") script = Failed message.
Proof.
  intros H. destruct H as [| [n | message] rest Ha Hrest]; simpl.
  - exists "". reflexivity.
  - destruct Ha.
  - exists message. reflexivity.
Qed.

Lemma allFail_tl (script : list Answer) : allFail script -> allFail (tl script).
Proof. intros H. destruct H; [constructor | assumption]. Qed.

Lemma resolveGroup_allFail (arr : list Ref) (w : World) :
  allFail (randomOrg w) ->
  fst (resolveGroup arr w) = hd_error (holdersOfMax arr)
  /\ allFail (randomOrg (snd (resolveGroup arr w))).
Proof.
  intros Ha. rewrite resolveGroup_holders.
  destruct (allFail_hd _ Ha) as [message Hm].
  destruct (holdersOfMax arr) as [| a [| b tied]]; cbn [fst snd].
  - rewrite Hm. split; [reflexivity | apply allFail_tl; exact Ha].
  - split; [reflexivity | exact Ha].
  - rewrite Hm. split; [reflexivity | apply allFail_tl; exact Ha].
Qed.

Lemma resolveGroups_allFail (groups : list (list Ref)) (w : World) :
  allFail (randomOrg w) ->
  fst (resolveGroups groups w) = map (fun arr => hd_error (holdersOfMax arr)) groups
  /\ allFail (randomOrg (snd (resolveGroups groups w))).
Proof.
  revert w. induction groups as [| arr rest IH]; intros w Ha; [split; [reflexivity | exact Ha] |].
  simpl. unfold bind.
  destruct (resolveGroup_allFail arr w Ha) as [H1 A1].
  destruct (resolveGroup arr w) as [x w1]. cbn [fst snd] in *.
  destruct (IH w1 A1) as [H2 A2].
  destruct (resolveGroups rest w1) as [xs w2]. cbn [fst snd ret] in *.
  subst. split; [reflexivity | exact A2].
Qed.

Lemma pickFinalWinner_allFail (resolved : list (option Ref)) (w : World) :
  allFail (randomOrg w) ->
  fst (pickFinalWinner resolved w) = undefinedOr (hd_error resolved).
Proof.
  intros Ha. destruct (allFail_hd _ Ha) as [message Hm]. unfold pickFinalWinner.
  destruct resolved as [| a [| b rest]]; unfold bind, randomOrgInteger; cbn [fst snd];
    try rewrite Hm; reflexivity.
Qed.

Lemma chooseWinner_allFail (cands : list Ref) (w : World) :
  allFail (randomOrg w) ->
  snd (fst (chooseWinner cands w))
  = match objectKeys (groupByMain cands) with
    | k :: _ => hd_error (holdersOfMax (filter (fun c => main (snd c) =? k) cands))
    | [] => None
    end.
Proof.
  intros Ha. unfold chooseWinner, bind.
  destruct (resolveGroups_allFail
              (map (getGroup (groupByMain cands)) (objectKeys (groupByMain cands))) w Ha)
    as [H1 A1].
  destruct (resolveGroups _ w) as [resolved w1]. cbn [fst snd] in *.
  pose proof (pickFinalWinner_allFail resolved w1 A1) as H2.
  destruct (pickFinalWinner resolved w1) as [fw w2]. cbn [fst snd ret] in *.
  subst. destruct (objectKeys (groupByMain cands)) as [| k ks]; [reflexivity |].
  cbn [map hd_error undefinedOr]. rewrite getGroup_groupByMain. reflexivity.
Qed.

Lemma insertAsc_head (k : Z) (l : list Z) :
  hd_error (insertAsc k l)
  = Some (match hd_error l with Some x => Z.min k x | None => k end).
Proof.
  destruct l as [| x rest]; simpl; [reflexivity |].
  destruct (k <=? x) eqn:H; simpl; f_equal; lia.
Qed.

Lemma sortAsc_head (l : list Z) (m : Z) :
  hd_error (fold_right insertAsc [] l) = Some m ->
  In m l /\ forall k, In k l -> m <= k.
Proof.
  revert m. induction l as [| x rest IH]; intros m; simpl; [discriminate |].
  rewrite insertAsc_head.
  destruct (hd_error (fold_right insertAsc [] rest)) as [y |] eqn:Hy.
  - destruct (IH y eq_refl) as [Hin Hle]. intros [= <-]. split.
    + destruct (Z.min_spec x y) as [[_ ->] | [_ ->]]; auto.
    + intros k [<- | Hk]; [lia |]. specialize (Hle k Hk). lia.
  - intros [= <-]. split; [auto |].
    destruct rest as [| z rest]; [intros k [<- | []]; lia |].
    simpl in Hy. rewrite insertAsc_head in Hy. discriminate Hy.
Qed.

Lemma lowestMain_spec (cands : list Ref) :
  cands <> [] ->
  (exists c, In c cands /\ main (snd c) = lowestMain cands)
  /\ forall c, In c cands -> lowestMain cands <= main (snd c).
Proof.
  destruct cands as [| c0 rest]; [intros H; contradiction H; reflexivity |].
  intros _. unfold lowestMain.
  induction rest as [| c rest IH]; simpl.
  - split; [exists c0; auto |]. intros c [<- | []]. lia.
  - destruct IH as [[c1 [Hc1 Hm1]] Hle].
    set (m := fold_right (fun x m => Z.min (main (snd x)) m) (main (snd c0)) rest) in *.
    split.
    + destruct (Z.min_spec (main (snd c)) m) as [[_ ->] | [_ ->]].
      * exists c. auto.
      * exists c1. split; [| exact Hm1]. destruct Hc1 as [<- | Hc1]; auto.
    + intros c' [Hc' | [Hc' | Hc']].
      * specialize (Hle c' (or_introl Hc')). lia.
      * subst c'. lia.
      * specialize (Hle c' (or_intror Hc')). lia.
Qed.

Lemma objectKeys_head (cands : list Ref) :
  cands <> [] ->
  (forall c, In c cands -> 0 <= main (snd c) <= 100) ->
  exists ks, objectKeys (groupByMain cands) = lowestMain cands :: ks.
Proof.
  intros Hne Hb.
  assert (Hidx : forall k, In k (map fst (groupByMain cands)) -> isIndex k = true).
  { intros k Hk. apply groupByMain_keys in Hk. destruct Hk as [c [Hc <-]].
    specialize (Hb c Hc). unfold isIndex. apply andb_true_iff.
    rewrite Z.leb_le, Z.ltb_lt. lia. }
  pose proof (objectKeys_nonempty cands Hne) as Hk.
  unfold objectKeys in *.
  assert (Hall : filter isIndex (map fst (groupByMain cands))
                 = map fst (groupByMain cands)).
  { apply forallb_filter_id. apply forallb_forall. exact Hidx. }
  assert (Hnot : filter (fun k => negb (isIndex k)) (map fst (groupByMain cands)) = []).
  { destruct (filter (fun k => negb (isIndex k)) (map fst (groupByMain cands)))
      as [| x rest] eqn:Hx; [reflexivity |].
    assert (Hin : In x (x :: rest)) by (left; reflexivity).
    rewrite <- Hx in Hin. apply filter_In in Hin. destruct Hin as [Hin Hneg].
    rewrite (Hidx x Hin) in Hneg. discriminate Hneg. }
  rewrite Hall, Hnot, app_nil_r in *.
  destruct (fold_right insertAsc [] (map fst (groupByMain cands))) as [| m ks] eqn:Hs;
    [contradiction Hk; reflexivity |].
  exists ks. f_equal.
  destruct (sortAsc_head (map fst (groupByMain cands)) m) as [Hin Hle];
    [rewrite Hs; reflexivity |].
  destruct (lowestMain_spec cands Hne) as [[c [Hc Hm]] Hlow].
  apply groupByMain_keys in Hin. destruct Hin as [c' [Hc' Hm']].
  specialize (Hlow c' Hc').
  assert (Hk' : In (lowestMain cands) (map fst (groupByMain cands))).
  { apply groupByMain_keys. exists c. auto. }
  specialize (Hle _ Hk'). lia.
Qed.

(** X9. When random.org answers the roll and nothing after it, the winner is
    fixed by the entries: among the candidates with the lowest main number it
    is the first of those with the highest tiebreak, and the winner saved
    carries the user, the numbers and the choice of that entry. This holds
    for a giveaway whose entries are as the form accepts them and which has a
    candidate. *)
Theorem resolve_when_only_roll_answered
    (cfg : Config) (announced : bool) (now : Z) (id : string) (w : World)
    (g : Giveaway) (r : Z) (rest : list Answer) :
  findGiveaway id (giveaways w) = Some g -> ended g = false ->
  validGiveaway g ->
  randomOrg w = Drawn r :: rest -> allFail rest ->
  winnersCandidates r (entries g) <> [] ->
  exists i fw gw,
    fallbackWinner (winnersCandidates r (entries g)) = Some (i, fw)
    /\ winnerOf id (snd (resolveGiveaway cfg announced now id w)) = Some gw
    /\ winnerOfEntry gw fw.
Proof.
  intros Hf He Hv Hs Ha Hne.
  assert (Hr : hd (Failed "") (randomOrg w) = Drawn r) by (rewrite Hs; reflexivity).
  rewrite (resolve_chosen cfg announced now id w g r Hf He Hr Hne).
  assert (Ha' : allFail (randomOrg (rolled w))).
  { unfold rolled. cbn [randomOrgInteger snd randomOrg]. rewrite Hs. exact Ha. }
  pose proof (chooseWinner_allFail (winnersCandidates r (entries g)) (rolled w) Ha')
    as Hfw.
  assert (Hb : forall c, In c (winnersCandidates r (entries g)) ->
                         0 <= main (snd c) <= 100).
  { intros [i e] Hc. apply candidate_entry in Hc. destruct Hc as [Hnth _].
    apply nth_error_In in Hnth. unfold validGiveaway in Hv.
    rewrite Forall_forall in Hv. destruct (Hv e Hnth) as [Hm _]. exact Hm. }
  destruct (objectKeys_head _ Hne Hb) as [ks Hks]. rewrite Hks in Hfw.
  fold (fallbackWinner (winnersCandidates r (entries g))) in Hfw.
  assert (Hsome : fallbackWinner (winnersCandidates r (entries g)) <> None).
  { unfold fallbackWinner.
    destruct (lowestMain_spec _ Hne) as [[c [Hc Hm]] _].
    assert (Hgrp : filter (fun c => main (snd c) =? lowestMain (winnersCandidates r (entries g)))
                     (winnersCandidates r (entries g)) <> []).
    { intros Hn.
      assert (Hin : In c (filter (fun c => main (snd c)
                                           =? lowestMain (winnersCandidates r (entries g)))
                            (winnersCandidates r (entries g))))
        by (apply filter_In; split; [exact Hc | apply Z.eqb_eq; exact Hm]).
      rewrite Hn in Hin. exact Hin. }
    pose proof (holdersOfMax_nonempty _ Hgrp) as Hh.
    destruct (holdersOfMax _); [contradiction Hh; reflexivity | discriminate]. }
  destruct (fallbackWinner (winnersCandidates r (entries g))) as [[i fw] |] eqn:Hfb;
    [| contradiction Hsome; reflexivity].
  exists i, fw, (fst (payout cfg (pot g) fw)). split; [reflexivity |].
  split; [| apply payout_winnerOfEntry].
  destruct (chooseWinner (winnersCandidates r (entries g)) (rolled w))
    as [[resolved fw'] w3]. cbn [fst snd] in Hfw |- *. subst fw'.
  unfold winnerOf.
  destruct announced; cbn [snd giveaways];
    erewrite findGiveaway_assign by (try exact Hf; reflexivity); reflexivity.
Qed.

Lemma resolve_when_only_roll_answered_witness :
  exists i fw gw,
    fallbackWinner (winnersCandidates 3 (entries Example.g3)) = Some (i, fw)
    /\ winnerOf Example.id0
         (snd (resolveGiveaway defaultConfig true 5000 Example.id0 Example.rolls3))
       = Some gw
    /\ winnerOfEntry gw fw.
Proof.
  apply (resolve_when_only_roll_answered defaultConfig true 5000 Example.id0
           Example.rolls3 Example.g3 3 []).
  - vm_compute. reflexivity.
  - reflexivity.
  - unfold validGiveaway, validEntry. repeat constructor; cbn; try lia; auto.
  - reflexivity.
  - constructor.
  - vm_compute. discriminate.
Defined.

(** ** Custom ids *)

Lemma String_split_noColon (s : string) :
  noColon s = true -> String_split ":" s = [s].
Proof.
  induction s as [| c rest IH]; [reflexivity |].
  simpl. intros H. apply andb_true_iff in H. destruct H as [Hc Hrest].
  apply negb_true_iff in Hc. rewrite Hc, (IH Hrest). reflexivity.
Qed.

Lemma String_split_app (a b : string) :
  noColon a = true ->
  String_split ":" (a ++ String ":" b) = a :: String_split ":" b.
Proof.
  induction a as [| c rest IH]; [reflexivity |].
  simpl. intros H. apply andb_true_iff in H. destruct H as [Hc Hrest].
  apply negb_true_iff in Hc. rewrite Hc, (IH Hrest). reflexivity.
Qed.

Lemma noColon_app (a b : string) :
  noColon (a ++ b) = noColon a && noColon b.
Proof.
  induction a as [| c rest IH]; [reflexivity |].
  simpl. rewrite IH, andb_assoc. reflexivity.
Qed.

Lemma noColon_uint (d : Decimal.uint) : noColon (NilEmpty.string_of_uint d) = true.
Proof. induction d; simpl; auto. Qed.

Lemma noColon_showZ (z : Z) : noColon (showZ z) = true.
Proof.
  unfold showZ, NilZero.string_of_int.
  assert (H : forall d, noColon (NilZero.string_of_uint d) = true).
  { intros d. destruct d; try reflexivity; apply (noColon_uint (_ d)). }
  destruct (Z.to_int z); simpl; apply H.
Qed.

(** X11. The custom ids that the bot gives to its components come back to the
    giveaway they were made for, when neither the id of the giveaway nor the
    id of the user holds a colon: the join button shows the modal of the
    giveaway, the submission of that modal is the join of the giveaway, the
    force-end button is its forced end, and a double-down button is the answer
    to its double down, for the user named on the button. *)
Theorem custom_ids_route
    (cfg : Config) (announced : bool) (now : Z) (user : User) (permitted : bool)
    (form : Form) (act : Button) (id uid : string) (w : World) :
  noColon id = true -> noColon uid = true ->
  onInteraction cfg announced now
    (ButtonInteraction (joinButtonId id) user permitted) w
  = (ShowModal (modalJoinId (Some id)), w)
  /\ onInteraction cfg announced now
       (ModalSubmitInteraction (modalJoinId (Some id)) user form) w
     = (Effects (fst (modalJoin user now id form w)),
        snd (modalJoin user now id form w))
  /\ onInteraction cfg announced now
       (ButtonInteraction (forceEndButtonId id) user permitted) w
     = (Effects (caught (fst (forceEnd cfg announced now permitted id w))),
        snd (forceEnd cfg announced now permitted id w))
  /\ onInteraction cfg announced now
       (ButtonInteraction (doubleDownButtonId act id uid) user permitted) w
     = (Effects (fst (doubleDownButton act id uid (u_id user) w)),
        snd (doubleDownButton act id uid (u_id user) w)).
Proof.
  intros Hid Huid.
  assert (Hj : String_split ":" (joinButtonId id) = ["join"; id]).
  { change (joinButtonId id) with ("join" ++ String ":" id)%string.
    rewrite String_split_app, String_split_noColon; auto. }
  assert (Hm : String_split ":" (modalJoinId (Some id)) = ["modal_join"; id]).
  { change (modalJoinId (Some id)) with ("modal_join" ++ String ":" id)%string.
    rewrite String_split_app, String_split_noColon; auto. }
  assert (Hf : String_split ":" (forceEndButtonId id) = ["forceend"; id]).
  { change (forceEndButtonId id) with ("forceend" ++ String ":" id)%string.
    rewrite String_split_app, String_split_noColon; auto. }
  assert (Hd : String_split ":" (doubleDownButtonId act id uid)
               = [match act with dd_yes => "dd_yes" | dd_no => "dd_no" end; id; uid]).
  { assert (Hrest : String_split ":" (id ++ String ":" uid) = [id; uid])
      by (rewrite String_split_app, String_split_noColon; auto).
    destruct act.
    - change (doubleDownButtonId dd_yes id uid)
        with ("dd_yes" ++ String ":" (id ++ String ":" uid))%string.
      rewrite String_split_app, Hrest; auto.
    - change (doubleDownButtonId dd_no id uid)
        with ("dd_no" ++ String ":" (id ++ String ":" uid))%string.
      rewrite String_split_app, Hrest; auto. }
  unfold onInteraction. rewrite Hj, Hm, Hf, Hd.
  cbn [hd nth_error String.eqb Ascii.eqb Bool.eqb orb].
  split; [reflexivity | split; [| split]].
  - unfold bind. destruct (modalJoin user now id form w). reflexivity.
  - unfold bind. destruct (forceEnd cfg announced now permitted id w). reflexivity.
  - destruct act; cbn [String.eqb Ascii.eqb Bool.eqb orb]; unfold bind;
      destruct (doubleDownButton _ id uid (u_id user) w); reflexivity.
Qed.

Lemma custom_ids_route_witness :
  onInteraction defaultConfig true 5000
    (ButtonInteraction (doubleDownButtonId dd_no Example.id0 "1") Example.alice false)
    Example.resolved1
  = (Effects (fst (doubleDownButton dd_no Example.id0 "1" "1" Example.resolved1)),
     snd (doubleDownButton dd_no Example.id0 "1" "1" Example.resolved1)).
Proof.
  apply (custom_ids_route defaultConfig true 5000 Example.alice false
           (Example.form "" "" "" "" "") dd_no Example.id0 "1" Example.resolved1);
    reflexivity.
Defined.

(** ** The timer of the double down *)

(** X10. When the properties of the giveaways fit together, the timer of the
    double down does to the file what a decline by the user named on the
    button does: both settle a pending double down as declined and leave
    everything else, and random.org, alone. *)
Theorem timeout_is_decline (id u : string) (w : World) :
  Forall coherent (giveaways w) ->
  snd (doubleDownTimeout id w) = snd (doubleDownButton dd_no id u u w).
Proof.
  intros Hc. unfold doubleDownTimeout, doubleDownButton, bind, loadGiveaways.
  cbn [fst snd].
  destruct (findGiveaway id (giveaways w)) as [g |] eqn:Hf; [| reflexivity].
  rewrite Forall_forall in Hc. specialize (Hc g (findGiveaway_In id _ g Hf)).
  rewrite String.eqb_refl. cbn [negb].
  destruct (doubleDown g) as [dd |] eqn:Hd.
  - destruct (offered_coherent g Hc dd Hd) as (r & n & gw & _ & _ & _ & Hw & _).
    rewrite Hw. destruct (state dd); reflexivity.
  - destruct (winner g); reflexivity.
Qed.

Lemma timeout_is_decline_witness :
  snd (doubleDownTimeout Example.id0 Example.resolved1)
  = snd (doubleDownButton dd_no Example.id0 "1" "1" Example.resolved1).
Proof.
  apply (timeout_is_decline Example.id0 "1" Example.resolved1).
  change (giveaways Example.resolved1) with [Example.won1].
  constructor; [| constructor].
  unfold coherent. cbn. repeat split.
  exists Example.winner1. split; [reflexivity |]. split.
  - eexists. split; [left; reflexivity |]. cbn.
    split; [right; split; [reflexivity | vm_compute; discriminate] |]. repeat split.
  - intros dd [= <-]. reflexivity.
Defined.

(** ** Creation *)

Lemma findGiveaway_app_new (id : string) (data : list Giveaway) (g : Giveaway) :
  gid g = id ->
  findGiveaway id (data ++ [g]) = Some (orElse (findGiveaway id data) g).
Proof.
  intros Hg. unfold findGiveaway. induction data as [| y rest IH]; simpl.
  - rewrite Hg, String.eqb_refl. reflexivity.
  - destruct (String.eqb (gid y) id); [reflexivity | exact IH].
Qed.

(** X12. A request to [/api/create] without a channel id, or with an empty
    one, is refused and saves nothing. Any other request adds one giveaway at
    the end of the file: open, without entries, with the pot of the
    configuration, an id made of [G-] and the clock, which holds no colon, and
    the id of the message when the post to the channel went through. The timer
    of the resolution is armed exactly when the post went through. Under its
    id the file then finds the new giveaway, unless a giveaway with that id
    was there: then it still finds the older one. *)
Theorem apiCreate_adds_one
    (cfg : Config) (idNow now : Z) (posted : option string) (body : CreateBody)
    (w : World) :
  let res := apiCreate cfg idNow now posted body w in
  let id := ("G-" ++ showZ idNow)%string in
  match b_channelId body with
  | Some (String c rest) =>
      exists g,
        giveaways (snd res) = giveaways w ++ [g]
        /\ fresh g /\ gid g = id /\ noColon id = true
        /\ channelId g = String c rest /\ pot g = cfg_pot cfg
        /\ endsAt g = now + orElse (b_durationSec body) 60 * 1000
        /\ messageId g = posted
        /\ findGiveaway id (giveaways (snd res))
           = Some (orElse (findGiveaway id (giveaways w)) g)
        /\ snd (fst res)
           = match posted with
             | Some _ =>
                 [SetTimeout (ResolveTimer id) (orElse (b_durationSec body) 60 * 1000)]
             | None => [ConsoleError "Failed to post to channel:"]
             end
  | _ => res = ((Status400 "channelId required", []), w)
  end.
Proof.
  cbv zeta. unfold apiCreate.
  destruct (b_channelId body) as [[| c rest] |]; [reflexivity | | reflexivity].
  cbn [String.eqb]. unfold bind, loadGiveaways, saveGiveaways. cbn [fst snd].
  assert (Hno : noColon ("G-" ++ showZ idNow) = true).
  { rewrite noColon_app, noColon_showZ. reflexivity. }
  destruct posted as [msgId |]; cbn [fst snd ret giveaways]; eexists;
    (split; [reflexivity |]);
    (split; [repeat split |]);
    (split; [reflexivity |]); (split; [exact Hno |]);
    (split; [reflexivity |]); (split; [reflexivity |]);
    (split; [reflexivity |]); (split; [reflexivity |]);
    (split; [apply findGiveaway_app_new; reflexivity | reflexivity]).
Qed.

(** ** A single candidate *)

Lemma chooseWinner_single (c : Ref) (w : World) :
  chooseWinner [c] w = (([Some c], Some c), w).
Proof.
  unfold chooseWinner, groupByMain, objectKeys. cbn [fold_left pushGroup map fst filter].
  destruct (isIndex (main (snd c))); cbn [negb fold_right insertAsc app map];
    unfold getGroup; cbn [find fst snd]; rewrite Z.eqb_refl; reflexivity.
Qed.

(** X13. When a single entry matches the roll, that entry wins, whatever
    random.org would answer after the roll: the winner saved carries the
    user, the numbers and the choice of the entry, and the resolution asks
    for the roll and for nothing else. *)
Theorem sole_candidate_wins
    (cfg : Config) (announced : bool) (now : Z) (id : string) (w : World)
    (g : Giveaway) (r : Z) (i : nat) (e : Entry) :
  findGiveaway id (giveaways w) = Some g -> ended g = false ->
  hd (Failed "") (randomOrg w) = Drawn r ->
  winnersCandidates r (entries g) = [(i, e)] ->
  let w' := snd (resolveGiveaway cfg announced now id w) in
  (exists gw, winnerOf id w' = Some gw /\ winnerOfEntry gw e)
  /\ requestsBetween w w' = [(0, 100)]
  /\ randomOrg w' = tl (randomOrg w).
Proof.
  intros Hf He Hr Hc.
  assert (Hne : winnersCandidates r (entries g) <> []) by (rewrite Hc; discriminate).
  cbv zeta. rewrite (resolve_chosen cfg announced now id w g r Hf He Hr Hne).
  rewrite Hc, chooseWinner_single. cbn [fst snd].
  unfold winnerOf.
  destruct announced; cbn [snd giveaways asked randomOrg];
    (erewrite findGiveaway_assign by (try exact Hf; reflexivity));
    (split; [eexists; split; [reflexivity | apply payout_winnerOfEntry] |]);
    (split; [apply requestsBetween_app; reflexivity | reflexivity]).
Qed.

Lemma sole_candidate_wins_witness :
  (exists gw,
     winnerOf Example.id0
       (snd (resolveGiveaway defaultConfig true 5000 Example.id0 Example.rolls70))
     = Some gw
     /\ winnerOfEntry gw Example.entry1)
  /\ requestsBetween Example.rolls70
       (snd (resolveGiveaway defaultConfig true 5000 Example.id0 Example.rolls70))
     = [(0, 100)]
  /\ randomOrg (snd (resolveGiveaway defaultConfig true 5000 Example.id0 Example.rolls70))
     = tl (randomOrg Example.rolls70).
Proof.
  apply (sole_candidate_wins defaultConfig true 5000 Example.id0 Example.rolls70
           Example.g1 70 0 Example.entry1).
  - vm_compute. reflexivity.
  - reflexivity.
  - reflexivity.
  - vm_compute. reflexivity.
Defined.

(** ** A resolution that throws *)

(** X14. A resolution that ends with a [TypeError] saves nothing: the file is
    as it was, the giveaway is still open in it, without the roll that was
    drawn, although the requests to random.org were made. *)
Theorem resolve_TypeError_saves_nothing
    (cfg : Config) (announced : bool) (now : Z) (id : string) (w : World) :
  In TypeError (fst (resolveGiveaway cfg announced now id w)) ->
  giveaways (snd (resolveGiveaway cfg announced now id w)) = giveaways w
  /\ requestsBetween w (snd (resolveGiveaway cfg announced now id w)) <> [].
Proof.
  destruct (findGiveaway id (giveaways w)) as [g |] eqn:Hf.
  2:{ rewrite (resolve_missing cfg announced now id w Hf). intros []. }
  destruct (ended g) eqn:He.
  { rewrite (resolve_ended cfg announced now id w g Hf He). intros []. }
  destruct (hd (Failed "") (randomOrg w)) as [r | message] eqn:Hr.
  2:{ rewrite (resolve_roll_failed cfg announced now id w g message Hf He Hr).
      intros [H | []]. discriminate H. }
  destruct (winnersCandidates r (entries g)) as [| c0 cands] eqn:Hc.
  { rewrite (resolve_no_candidates cfg announced now id w g r Hf He Hr Hc).
    intros []. }
  assert (Hne : winnersCandidates r (entries g) <> []) by (rewrite Hc; discriminate).
  rewrite (resolve_chosen cfg announced now id w g r Hf He Hr Hne).
  pose proof (chooseWinner_giveaways (winnersCandidates r (entries g)) (rolled w)) as Hg.
  destruct (chooseWinner_trace (winnersCandidates r (entries g)) (rolled w) Hne)
    as (q & A & _).
  destruct (chooseWinner (winnersCandidates r (entries g)) (rolled w))
    as [[resolved [[i fw] |]] w3]; cbn [fst snd] in *.
  - destruct announced; intros [H | []]; discriminate H.
  - intros _. split; [rewrite Hg; reflexivity |].
    unfold rolled in A. cbn [randomOrgInteger snd asked] in A.
    rewrite <- app_assoc in A. rewrite (requestsBetween_app _ _ _ A). discriminate.
Qed.

Lemma resolve_TypeError_saves_nothing_witness :
  giveaways (snd (resolveGiveaway defaultConfig true 5000 Example.id0 Example.rolls3then5))
  = giveaways Example.rolls3then5
  /\ requestsBetween Example.rolls3then5
       (snd (resolveGiveaway defaultConfig true 5000 Example.id0 Example.rolls3then5))
     <> [].
Proof.
  apply (resolve_TypeError_saves_nothing defaultConfig true 5000 Example.id0
           Example.rolls3then5).
  vm_compute. left. reflexivity.
Defined.

(** ** From the creation to the winner *)

Lemma modalJoin_accepted (user : User) (now : Z) (id : string) (form : Form)
    (w : World) (g : Giveaway) :
  accepted form = true ->
  findGiveaway id (giveaways w) = Some g -> ended g = false ->
  snd (modalJoin user now id form w)
  = {| giveaways := assign id (joined (entryOf user now form) g) (giveaways w);
       randomOrg := randomOrg w; asked := asked w |}.
Proof.
  unfold accepted. rewrite !andb_true_iff, !negb_true_iff.
  intros [[[Hm Ht] Hc] Hk] Hf He.
  unfold modalJoin. rewrite Hm, Ht, Hc, Hk. cbn [negb].
  unfold bind, loadGiveaways. cbn [fst snd]. rewrite Hf, He. reflexivity.
Qed.

Lemma apiCreate_world (cfg : Config) (idNow now : Z) (posted : option string)
    (body : CreateBody) (w : World) (c : ascii) (rest : string) :
  b_channelId body = Some (String c rest) ->
  exists g,
    snd (apiCreate cfg idNow now posted body w)
    = {| giveaways := giveaways w ++ [g]; randomOrg := randomOrg w; asked := asked w |}
    /\ gid g = ("G-" ++ showZ idNow)%string /\ entries g = [] /\ ended g = false
    /\ pot g = cfg_pot cfg.
Proof.
  intros Hb. unfold apiCreate. rewrite Hb. cbn [String.eqb].
  unfold bind, loadGiveaways, saveGiveaways. cbn [fst snd].
  destruct posted; cbn [fst snd ret giveaways randomOrg asked];
    eexists; (split; [reflexivity |]); repeat split.
Qed.

Lemma findGiveaway_app_None (id : string) (data : list Giveaway) (g : Giveaway) :
  findGiveaway id data = None -> gid g = id ->
  findGiveaway id (data ++ [g]) = Some g.
Proof.
  intros Hn Hg. rewrite (findGiveaway_app_new id data g Hg), Hn. reflexivity.
Qed.

Lemma winnersCandidates_single (r : Z) (e : Entry) :
  satisfiesRoll r e -> winnersCandidates r [e] = [(0%nat, e)].
Proof.
  intros H. apply isCandidate_spec in H.
  unfold winnersCandidates, refs. cbn [List.length seq combine filter snd].
  rewrite H. reflexivity.
Qed.

(** X15. The handlers work together through the file and the custom ids. When
    a giveaway is created from the web page under an id that was free, a user
    presses its join button and submits the modal with fields that pass the
    checks, and the timer of the resolution then draws a roll that the entry
    matches, that user is the winner: the winner saved carries the user, the
    numbers and the choice of the entry made of the fields. *)
Theorem created_joined_resolved
    (env1 env2 env3 env4 : Env) (body : CreateBody) (user : User) (form : Form)
    (w : World) (c : ascii) (rest : string) (r : Z) :
  let id := ("G-" ++ showZ (env_idNow env1))%string in
  let e := entryOf user (env_now env3) form in
  b_channelId body = Some (String c rest) ->
  findGiveaway id (giveaways w) = None ->
  accepted form = true ->
  hd (Failed "") (randomOrg w) = Drawn r ->
  satisfiesRoll r e ->
  let w' := snd (runEvents (lifeCycle env1 env2 env3 env4 body user form) w) in
  exists gw, winnerOf id w' = Some gw /\ winnerOfEntry gw e.
Proof.
  intros id e Hb Hfree Hacc Hr Hsat. cbv zeta.
  assert (Hno : noColon id = true).
  { unfold id. rewrite noColon_app, noColon_showZ. reflexivity. }
  unfold lifeCycle, runEvents, handle, fire, bind. fold id.
  (* the creation *)
  destruct (apiCreate_world (env_cfg env1) (env_idNow env1) (env_now env1)
              (env_posted env1) body w c rest Hb)
    as (g & Hw1 & Hgid & Hent & Hend & Hpot).
  destruct (apiCreate (env_cfg env1) (env_idNow env1) (env_now env1)
              (env_posted env1) body w) as [x1 w1].
  cbn [snd] in Hw1. cbn [ret].
  assert (Hf1 : findGiveaway id (giveaways w1) = Some g).
  { rewrite Hw1. cbn [giveaways]. apply findGiveaway_app_None; assumption. }
  (* the join button *)
  assert (Hj : String_split ":" (joinButtonId id) = ["join"; id]).
  { change (joinButtonId id) with ("join" ++ String ":" id)%string.
    rewrite String_split_app, String_split_noColon; auto. }
  assert (Hm : String_split ":" (modalJoinId (Some id)) = ["modal_join"; id]).
  { change (modalJoinId (Some id)) with ("modal_join" ++ String ":" id)%string.
    rewrite String_split_app, String_split_noColon; auto. }
  unfold onInteraction. rewrite Hj, Hm.
  cbn [hd nth_error String.eqb Ascii.eqb Bool.eqb orb ret]. unfold bind.
  (* the modal *)
  pose proof (modalJoin_accepted user (env_now env3) id form w1 g Hacc Hf1 Hend) as Hw2.
  destruct (modalJoin user (env_now env3) id form w1) as [x2 w2].
  cbn [snd] in Hw2. cbn [ret].
  fold e in Hw2.
  assert (Hf2 : findGiveaway id (giveaways w2) = Some (joined e g)).
  { rewrite Hw2. cbn [giveaways]. apply (findGiveaway_assign id _ g); auto. }
  assert (He2 : ended (joined e g) = false) by exact Hend.
  assert (Hr2 : hd (Failed "") (randomOrg w2) = Drawn r).
  { rewrite Hw2, Hw1. exact Hr. }
  assert (Hc2 : winnersCandidates r (entries (joined e g)) = [(0%nat, e)]).
  { cbn [joined set_entries entries]. rewrite Hent. apply winnersCandidates_single.
    exact Hsat. }
  assert (Hne : winnersCandidates r (entries (joined e g)) <> [])
    by (rewrite Hc2; discriminate).
  (* the resolution *)
  pose proof (resolve_chosen (env_cfg env4) (env_announced env4) (env_now env4) id w2
                (joined e g) r Hf2 He2 Hr2 Hne) as Hres.
  cbv zeta in Hres. rewrite Hc2, chooseWinner_single in Hres. cbn [fst snd] in Hres.
  destruct (resolveGiveaway (env_cfg env4) (env_announced env4) (env_now env4) id w2)
    as [x3 w3].
  cbn [snd]. unfold winnerOf.
  destruct (env_announced env4); injection Hres as _ ->; unfold ret;
    cbn [snd giveaways];
    (erewrite findGiveaway_assign by (try exact Hf2; reflexivity));
    (eexists; split; [reflexivity | apply payout_winnerOfEntry]).
Qed.

Lemma created_joined_resolved_witness :
  exists gw,
    winnerOf Example.id0
      (snd (runEvents
              (lifeCycle Example.env1 Example.env1 Example.env1 Example.env1
                 Example.body1 Example.alice Example.form1)
              (Example.world [] [Drawn 70])))
    = Some gw
    /\ winnerOfEntry gw (entryOf Example.alice 5000 Example.form1).
Proof.
  assert (Hacc : accepted Example.form1 = true) by (vm_compute; reflexivity).
  assert (Hsat : satisfiesRoll 70
                   (entryOf Example.alice (env_now Example.env1) Example.form1)).
  { right. split; [vm_compute; reflexivity | vm_compute; discriminate]. }
  exact (created_joined_resolved Example.env1 Example.env1 Example.env1
           Example.env1 Example.body1 Example.alice Example.form1
           (Example.world [] [Drawn 70]) "c" "hannel" 70
           eq_refl eq_refl Hacc eq_refl Hsat).
Defined.

(** ** The tiebreak of the winner *)

Lemma resolveGroup_top (arr : list Ref) (w : World) (x : Ref) :
  fst (resolveGroup arr w) = Some x -> In x (holdersOfMax arr).
Proof.
  rewrite resolveGroup_holders. intros H.
  destruct (holdersOfMax arr) as [| a [| b tied]] eqn:Ht; cbn [fst] in H.
  - destruct (hd _ (randomOrg w)); [apply at_In in H | apply hd_error_In in H]; exact H.
  - injection H as <-. left. reflexivity.
  - destruct (hd _ (randomOrg w)); [apply at_In in H | apply hd_error_In in H]; exact H.
Qed.

Lemma resolveGroups_top (groups : list (list Ref)) (w : World) (x : Ref) :
  In (Some x) (fst (resolveGroups groups w)) ->
  exists arr, In arr groups /\ In x (holdersOfMax arr).
Proof.
  revert w. induction groups as [| arr rest IH]; intros w; simpl.
  - intros [].
  - unfold bind. destruct (resolveGroup arr w) as [y w1] eqn:H1.
    destruct (resolveGroups rest w1) as [ys w2] eqn:H2. simpl.
    intros [Hy | Hin].
    + exists arr. split; [left; reflexivity |].
      apply (resolveGroup_top arr w). rewrite H1. exact Hy.
    + destruct (IH w1) as [arr' [Ha Hx]]; [rewrite H2; exact Hin |].
      exists arr'. split; [right |]; assumption.
Qed.

Lemma chooseWinner_top (cands : list Ref) (w : World) (x c : Ref) :
  snd (fst (chooseWinner cands w)) = Some x ->
  In c cands -> main (snd c) = main (snd x) ->
  tiebreak (snd c) <= tiebreak (snd x).
Proof.
  unfold chooseWinner, bind.
  destruct (resolveGroups _ w) as [resolved w1] eqn:H1.
  destruct (pickFinalWinner resolved w1) as [fw w2] eqn:H2. simpl.
  intros -> Hc Hm.
  assert (Hin : In (Some x) resolved).
  { apply (pickFinalWinner_In resolved w1). rewrite H2. reflexivity. }
  destruct (resolveGroups_top
              (map (getGroup (groupByMain cands)) (objectKeys (groupByMain cands))) w x)
    as [arr [Ha Hx]]; [rewrite H1; exact Hin |].
  apply in_map_iff in Ha. destruct Ha as [k [<- _]].
  rewrite getGroup_groupByMain in Hx.
  unfold holdersOfMax in Hx. apply filter_In in Hx. destruct Hx as [Hx Hmax].
  apply Z.eqb_eq in Hmax. rewrite Hmax.
  apply filter_In in Hx. destruct Hx as [_ Hk]. apply Z.eqb_eq in Hk.
  apply maxTiebreak_upper. apply filter_In. split; [exact Hc |].
  apply Z.eqb_eq. congruence.
Qed.

(** X16. The winner holds the highest tiebreak of its main number: whatever
    random.org answers, no entry that matches the roll and has the main number
    of the winner that a resolution saves has a higher tiebreak than the
    winner. *)
Theorem winner_holds_top_tiebreak
    (cfg : Config) (announced : bool) (now : Z) (id : string) (w : World)
    (g g' : Giveaway) (gw : Winner) (r : Z) (e : Entry) :
  findGiveaway id (giveaways w) = Some g ->
  winner g = absent ->
  findGiveaway id (giveaways (snd (resolveGiveaway cfg announced now id w)))
  = Some g' ->
  winner g' = value gw -> roll g' = Some r ->
  In e (entries g) -> satisfiesRoll r e -> main e = w_main gw ->
  tiebreak e <= w_tiebreak gw.
Proof.
  intros Hf Hnone Hf' Hw Hroll Hin Hsat Hmain.
  destruct (ended g) eqn:He.
  { rewrite (resolve_ended cfg announced now id w g Hf He) in Hf'.
    cbn [snd] in Hf'. rewrite Hf in Hf'.
    injection Hf' as <-. rewrite Hnone in Hw. discriminate Hw. }
  destruct (hd (Failed "") (randomOrg w)) as [r0 | message] eqn:Hr.
  2:{ rewrite (resolve_roll_failed cfg announced now id w g message Hf He Hr) in Hf'.
      cbn [snd giveaways] in Hf'.
      rewrite (findGiveaway_assign id (giveaways w) g (rollFailed message g) Hf eq_refl)
        in Hf'.
      injection Hf' as <-. simpl in Hw. rewrite Hnone in Hw. discriminate Hw. }
  destruct (winnersCandidates r0 (entries g)) as [| c0 cands] eqn:Hc.
  { rewrite (resolve_no_candidates cfg announced now id w g r0 Hf He Hr Hc) in Hf'.
    cbn [snd giveaways] in Hf'.
    rewrite (findGiveaway_assign id (giveaways w) g (noWinners r0 g) Hf eq_refl) in Hf'.
    injection Hf' as <-. discriminate Hw. }
  assert (Hne : winnersCandidates r0 (entries g) <> []) by (rewrite Hc; discriminate).
  rewrite (resolve_chosen cfg announced now id w g r0 Hf He Hr Hne) in Hf'.
  pose proof (chooseWinner_top (winnersCandidates r0 (entries g)) (rolled w)) as Htop.
  pose proof (chooseWinner_giveaways (winnersCandidates r0 (entries g)) (rolled w)) as Hg.
  destruct (chooseWinner (winnersCandidates r0 (entries g)) (rolled w))
    as [[resolved [[i fw] |]] w3]; cbn [fst snd] in Htop, Hg, Hf'.
  - assert (Hgw : winner g' = value (fst (payout cfg (pot g) fw)) /\ roll g' = Some r0).
    { destruct announced; cbn [snd giveaways] in Hf';
        erewrite findGiveaway_assign in Hf' by (try exact Hf; reflexivity);
        injection Hf' as <-; split; reflexivity. }
    destruct Hgw as [Hgw Hroll0]. rewrite Hgw in Hw. injection Hw as <-.
    assert (r0 = r) by congruence. subst r0.
    destruct (entry_candidate r (entries g) e Hin Hsat) as [j Hj].
    exact (Htop (i, fw) (j, e) eq_refl Hj Hmain).
  - rewrite Hg in Hf'. unfold rolled in Hf'. cbn [randomOrgInteger snd giveaways] in Hf'.
    rewrite Hf in Hf'. injection Hf' as <-. rewrite Hnone in Hw. discriminate Hw.
Qed.

Lemma winner_holds_top_tiebreak_witness :
  tiebreak Example.low10 <= w_tiebreak Example.winner3.
Proof.
  assert (Hf : findGiveaway Example.id0 (giveaways Example.rolls3then1) = Some Example.g3)
    by (vm_compute; reflexivity).
  assert (Hf' : findGiveaway Example.id0
                  (giveaways (snd (resolveGiveaway defaultConfig true 5000 Example.id0
                                     Example.rolls3then1)))
                = Some Example.won3) by (vm_compute; reflexivity).
  assert (Hw : winner Example.won3 = value Example.winner3)
    by (vm_compute; reflexivity).
  assert (Hsat : satisfiesRoll 3 Example.low10).
  { left. split; [reflexivity | vm_compute; discriminate]. }
  exact (winner_holds_top_tiebreak defaultConfig true 5000 Example.id0 Example.rolls3then1
           Example.g3 Example.won3 Example.winner3 3 Example.low10
           Hf eq_refl Hf' Hw eq_refl (or_introl eq_refl) Hsat eq_refl).
Defined.

(** ** Who can win *)

Lemma answersInRange_app (r1 r2 : list (Z * Z)) (s1 s2 : list Answer) :
  answersInRange r1 s1 -> answersInRange r2 s2 ->
  answersInRange (r1 ++ r2) (s1 ++ s2).
Proof.
  revert s1. induction r1 as [| [lo hi] r1 IH]; intros s1 H1 H2.
  - destruct s1; [exact H2 | destruct H1].
  - destruct s1 as [| [n | message] s1]; simpl in H1; try contradiction.
    destruct H1 as [Hn H1]. simpl. split; [exact Hn | apply IH; assumption].
Qed.

(** A script of integers for one group that is not empty: the answers, the
    requests they answer, and what the group gives. *)
Lemma resolveGroup_script (arr : list Ref) :
  arr <> [] ->
  exists script reqs y,
    answersInRange reqs script
    /\ forall w tail, randomOrg w = script ++ tail ->
         resolveGroup arr w
         = (y, {| giveaways := giveaways w; randomOrg := tail;
                  asked := asked w ++ reqs |}).
Proof.
  intros Hne. pose proof (holdersOfMax_nonempty arr Hne) as Hh.
  destruct (holdersOfMax arr) as [| a [| b tied]] eqn:Ht; [congruence | |].
  - exists [], [], (Some a). split; [exact I |].
    intros w tail Hw. rewrite resolveGroup_holders, Ht, app_nil_r. simpl in Hw.
    rewrite <- Hw. destruct w; reflexivity.
  - exists [Drawn 0], [(0, Z.of_nat (List.length (a :: b :: tied)) - 1)], (Some a).
    split; [cbn [answersInRange List.length]; split; [lia | exact I] |].
    intros w tail Hw. rewrite resolveGroup_holders, Ht.
    unfold randomOrgInteger. rewrite Hw. reflexivity.
Qed.

(** A script of integers for which a group gives a chosen holder of its
    highest tiebreak. *)
Lemma resolveGroup_reach (arr : list Ref) (x : Ref) :
  In x (holdersOfMax arr) ->
  exists script reqs,
    answersInRange reqs script
    /\ forall w tail, randomOrg w = script ++ tail ->
         resolveGroup arr w
         = (Some x, {| giveaways := giveaways w; randomOrg := tail;
                       asked := asked w ++ reqs |}).
Proof.
  intros Hx.
  destruct (holdersOfMax arr) as [| a [| b tied]] eqn:Ht; [destruct Hx | |].
  - destruct Hx as [<- | []]. exists [], []. split; [exact I |].
    intros w tail Hw. rewrite resolveGroup_holders, Ht, app_nil_r. simpl in Hw.
    rewrite <- Hw. destruct w; reflexivity.
  - destruct (In_nth_error _ _ Hx) as [n Hn].
    assert (Hlt : (n < List.length (a :: b :: tied))%nat)
      by (apply nth_error_Some; congruence).
    exists [Drawn (Z.of_nat n)], [(0, Z.of_nat (List.length (a :: b :: tied)) - 1)].
    split; [cbn [answersInRange]; split; [lia | exact I] |].
    intros w tail Hw. rewrite resolveGroup_holders, Ht.
    unfold randomOrgInteger. rewrite Hw. cbn [hd tl app snd fst].
    unfold at_. destruct (Z.of_nat n <? 0) eqn:Hneg; [lia |].
    rewrite Nat2Z.id, Hn. reflexivity.
Qed.

Lemma resolveGroups_script (groups : list (list Ref)) :
  Forall (fun arr => arr <> []) groups ->
  exists script reqs ys,
    answersInRange reqs script
    /\ List.length ys = List.length groups
    /\ forall w tail, randomOrg w = script ++ tail ->
         resolveGroups groups w
         = (ys, {| giveaways := giveaways w; randomOrg := tail;
                   asked := asked w ++ reqs |}).
Proof.
  induction groups as [| arr rest IH]; intros Hall.
  - exists [], [], []. repeat split.
    intros w tail Hw. simpl in Hw |- *. unfold ret. rewrite app_nil_r, <- Hw.
    destruct w; reflexivity.
  - inversion Hall as [| ? ? Hne Hrest]; subst.
    destruct (resolveGroup_script arr Hne) as (s1 & q1 & y & H1 & R1).
    destruct (IH Hrest) as (s2 & q2 & ys & H2 & N2 & R2).
    exists (s1 ++ s2), (q1 ++ q2), (y :: ys).
    split; [apply answersInRange_app; assumption |].
    split; [simpl; congruence |].
    intros w tail Hw. simpl. unfold bind.
    rewrite (R1 w (s2 ++ tail)) by (rewrite Hw, app_assoc; reflexivity).
    rewrite (R2 _ tail) by reflexivity.
    cbn [giveaways asked ret]. rewrite app_assoc. reflexivity.
Qed.

Lemma resolveGroups_reach (groups : list (list Ref)) (p : nat) (arr : list Ref)
    (x : Ref) :
  Forall (fun arr => arr <> []) groups ->
  nth_error groups p = Some arr -> In x (holdersOfMax arr) ->
  exists script reqs ys,
    answersInRange reqs script
    /\ List.length ys = List.length groups
    /\ nth_error ys p = Some (Some x)
    /\ forall w tail, randomOrg w = script ++ tail ->
         resolveGroups groups w
         = (ys, {| giveaways := giveaways w; randomOrg := tail;
                   asked := asked w ++ reqs |}).
Proof.
  revert p. induction groups as [| arr0 rest IH]; intros p Hall Hp Hx;
    [destruct p; discriminate Hp |].
  inversion Hall as [| ? ? Hne Hrest]; subst.
  destruct p as [| p]; simpl in Hp.
  - injection Hp as ->.
    destruct (resolveGroup_reach arr x Hx) as (s1 & q1 & H1 & R1).
    destruct (resolveGroups_script rest Hrest) as (s2 & q2 & ys & H2 & N2 & R2).
    exists (s1 ++ s2), (q1 ++ q2), (Some x :: ys).
    split; [apply answersInRange_app; assumption |].
    split; [simpl; congruence |].
    split; [reflexivity |].
    intros w tail Hw. simpl. unfold bind.
    rewrite (R1 w (s2 ++ tail)) by (rewrite Hw, app_assoc; reflexivity).
    rewrite (R2 _ tail) by reflexivity.
    cbn [giveaways asked ret]. rewrite app_assoc. reflexivity.
  - destruct (resolveGroup_script arr0 Hne) as (s1 & q1 & y & H1 & R1).
    destruct (IH p Hrest Hp Hx) as (s2 & q2 & ys & H2 & N2 & P2 & R2).
    exists (s1 ++ s2), (q1 ++ q2), (y :: ys).
    split; [apply answersInRange_app; assumption |].
    split; [simpl; congruence |].
    split; [exact P2 |].
    intros w tail Hw. simpl. unfold bind.
    rewrite (R1 w (s2 ++ tail)) by (rewrite Hw, app_assoc; reflexivity).
    rewrite (R2 _ tail) by reflexivity.
    cbn [giveaways asked ret]. rewrite app_assoc. reflexivity.
Qed.

Lemma pickFinalWinner_reach (resolved : list (option Ref)) (p : nat) (x : Ref) :
  nth_error resolved p = Some (Some x) ->
  exists script reqs,
    answersInRange reqs script
    /\ forall w tail, randomOrg w = script ++ tail ->
         pickFinalWinner resolved w
         = (Some x, {| giveaways := giveaways w; randomOrg := tail;
                       asked := asked w ++ reqs |}).
Proof.
  intros Hp.
  assert (Hlt : (p < List.length resolved)%nat) by (apply nth_error_Some; congruence).
  destruct resolved as [| a [| b rest]]; [simpl in Hlt; lia | |].
  - destruct p as [| p]; [| simpl in Hlt; lia]. simpl in Hp. injection Hp as ->.
    exists [], []. split; [exact I |].
    intros w tail Hw. unfold pickFinalWinner, ret. rewrite app_nil_r.
    simpl in Hw. rewrite <- Hw. destruct w; reflexivity.
  - exists [Drawn (Z.of_nat p)], [(0, Z.of_nat (List.length (a :: b :: rest)) - 1)].
    split; [cbn [answersInRange]; split; [lia | exact I] |].
    intros w tail Hw. unfold pickFinalWinner, bind, randomOrgInteger. rewrite Hw.
    cbn [hd tl app]. unfold at_. destruct (Z.of_nat p <? 0) eqn:Hneg; [lia |].
    rewrite Nat2Z.id, Hp. reflexivity.
Qed.

Lemma groups_nonempty (cands : list Ref) :
  Forall (fun arr => arr <> [])
    (map (getGroup (groupByMain cands)) (objectKeys (groupByMain cands))).
Proof.
  apply Forall_forall. intros arr Harr. apply in_map_iff in Harr.
  destruct Harr as (k & <- & Hk). apply objectKeys_group. exact Hk.
Qed.

Lemma chooseWinner_reach (cands : list Ref) (x : Ref) :
  In x cands ->
  (forall c, In c cands -> main (snd c) = main (snd x) ->
             tiebreak (snd c) <= tiebreak (snd x)) ->
  exists script reqs resolved,
    answersInRange reqs script
    /\ forall w tail, randomOrg w = script ++ tail ->
         chooseWinner cands w
         = ((resolved, Some x),
            {| giveaways := giveaways w; randomOrg := tail;
               asked := asked w ++ reqs |}).
Proof.
  intros Hx Htop.
  pose proof (groups_nonempty cands) as Hall.
  set (grouped := groupByMain cands) in *.
  assert (Hk : In (main (snd x)) (objectKeys grouped)).
  { apply (Permutation_in _ (Permutation_sym (objectKeys_Permutation grouped))).
    apply groupByMain_keys. exists x. auto. }
  destruct (In_nth_error _ _ Hk) as [p Hp].
  assert (Hg : nth_error (map (getGroup grouped) (objectKeys grouped)) p
               = Some (getGroup grouped (main (snd x)))).
  { rewrite nth_error_map, Hp. reflexivity. }
  assert (Hh : In x (holdersOfMax (getGroup grouped (main (snd x))))).
  { unfold grouped. rewrite getGroup_groupByMain.
    set (arr := filter (fun w => main (snd w) =? main (snd x)) cands).
    assert (Hin : In x arr) by (apply filter_In; split; [exact Hx | apply Z.eqb_refl]).
    unfold holdersOfMax. apply filter_In. split; [exact Hin |]. apply Z.eqb_eq.
    assert (Hne : arr <> []) by (intros Hn; rewrite Hn in Hin; exact Hin).
    destruct (maxTiebreak_attained arr Hne) as [y [Hy Hm]].
    pose proof (maxTiebreak_upper arr x Hin) as Hup.
    apply filter_In in Hy. destruct Hy as [Hy Hmy]. apply Z.eqb_eq in Hmy.
    specialize (Htop y Hy Hmy). lia. }
  destruct (resolveGroups_reach _ p _ x Hall Hg Hh) as (s1 & q1 & ys & H1 & N1 & P1 & R1).
  destruct (pickFinalWinner_reach ys p x P1) as (s2 & q2 & H2 & R2).
  exists (s1 ++ s2), (q1 ++ q2), ys.
  split; [apply answersInRange_app; assumption |].
  intros w tail Hw. unfold chooseWinner, bind. fold grouped.
  rewrite (R1 w (s2 ++ tail)) by (rewrite Hw, app_assoc; reflexivity).
  rewrite (R2 _ tail) by reflexivity.
  cbn [giveaways asked ret]. rewrite app_assoc. reflexivity.
Qed.

(** X17. Every entry that matches the roll and holds the highest tiebreak
    among the matching entries of its main number can win: there are answers
    of random.org, every one of them an integer within the range of its
    request and every one of them asked for, with which the resolution saves
    a winner that carries the user, the numbers and the choice of that entry.
    With X16, these entries are exactly the possible winners. *)
Theorem every_top_candidate_can_win
    (cfg : Config) (announced : bool) (now : Z) (id : string) (w : World)
    (g : Giveaway) (r : Z) (e : Entry) :
  findGiveaway id (giveaways w) = Some g -> ended g = false ->
  0 <= r <= 100 ->
  In e (entries g) -> satisfiesRoll r e ->
  (forall e', In e' (entries g) -> satisfiesRoll r e' -> main e' = main e ->
              tiebreak e' <= tiebreak e) ->
  exists script,
    let w1 := withRandomOrg (Drawn r :: script) w in
    let w' := snd (resolveGiveaway cfg announced now id w1) in
    answersInRange (requestsBetween w1 w') (Drawn r :: script)
    /\ randomOrg w' = []
    /\ exists gw, winnerOf id w' = Some gw /\ winnerOfEntry gw e.
Proof.
  intros Hf He Hr Hin Hsat Htop.
  destruct (entry_candidate r (entries g) e Hin Hsat) as [i Hc].
  assert (Htop' : forall c, In c (winnersCandidates r (entries g)) ->
                    main (snd c) = main (snd (i, e)) ->
                    tiebreak (snd c) <= tiebreak (snd (i, e))).
  { intros [j e'] Hc' Hm. apply candidate_entry in Hc'. destruct Hc' as [Hnth Hsat'].
    apply (Htop e' (nth_error_In _ _ Hnth) Hsat' Hm). }
  destruct (chooseWinner_reach _ (i, e) Hc Htop') as (script & reqs & resolved & H & R).
  exists script. cbv zeta.
  set (w1 := withRandomOrg (Drawn r :: script) w).
  assert (Hf1 : findGiveaway id (giveaways w1) = Some g) by exact Hf.
  assert (Hr1 : hd (Failed "") (randomOrg w1) = Drawn r) by reflexivity.
  assert (Hne : winnersCandidates r (entries g) <> []).
  { intros Hn. rewrite Hn in Hc. exact Hc. }
  rewrite (resolve_chosen cfg announced now id w1 g r Hf1 He Hr1 Hne).
  rewrite (R (rolled w1) []) by (unfold rolled, w1; cbn; rewrite app_nil_r; reflexivity).
  cbn [fst snd]. unfold winnerOf.
  assert (Hreq : answersInRange ((0, 100) :: reqs) (Drawn r :: script)).
  { cbn [answersInRange]. split; [exact Hr | exact H]. }
  destruct announced; cbn [snd giveaways asked randomOrg];
    (erewrite findGiveaway_assign by (try exact Hf1; reflexivity));
    (split; [| split; [reflexivity
                      | eexists; split; [reflexivity | apply payout_winnerOfEntry]]]);
    (erewrite requestsBetween_app
       by (unfold rolled, w1; cbn [randomOrgInteger snd asked withRandomOrg];
           rewrite <- app_assoc; reflexivity));
    exact Hreq.
Qed.

Lemma every_top_candidate_can_win_witness :
  exists script,
    answersInRange
      (requestsBetween (withRandomOrg (Drawn 3 :: script) Example.rolls3)
         (snd (resolveGiveaway defaultConfig true 5000 Example.id0
                 (withRandomOrg (Drawn 3 :: script) Example.rolls3))))
      (Drawn 3 :: script)
    /\ randomOrg
         (snd (resolveGiveaway defaultConfig true 5000 Example.id0
                 (withRandomOrg (Drawn 3 :: script) Example.rolls3)))
       = []
    /\ exists gw,
         winnerOf Example.id0
           (snd (resolveGiveaway defaultConfig true 5000 Example.id0
                   (withRandomOrg (Drawn 3 :: script) Example.rolls3)))
         = Some gw
         /\ winnerOfEntry gw Example.high90.
Proof.
  assert (Hf : findGiveaway Example.id0 (giveaways Example.rolls3) = Some Example.g3)
    by (vm_compute; reflexivity).
  assert (Hsat : satisfiesRoll 3 Example.high90).
  { left. split; [reflexivity | vm_compute; discriminate]. }
  apply (every_top_candidate_can_win defaultConfig true 5000 Example.id0
           Example.rolls3 Example.g3 3 Example.high90 Hf eq_refl).
  - lia.
  - right. left. reflexivity.
  - exact Hsat.
  - intros e' [<- | [<- | [<- | []]]] _ Hm; cbn in *; lia.
Defined.

(** ** The probability of a valid entry *)

(** X18. For an entry as the form accepts it, the guard against a probability
    that is not positive never fires: the probability is (main + 1) / 101 for
    "under" and (101 - main) / 101 for "over" as computed, it is at least
    1 / 101 and at most 1, so that the multiplier never divides by zero. *)
Theorem valid_entry_needs_no_clamp (e : Entry) :
  validEntry e ->
  let raw :=
    if String.eqb (choice e) "under"
    then div (add (of_Z (main e)) (of_Z 1)) (of_Z 101)
    else div (sub (of_Z 101) (of_Z (main e))) (of_Z 101) in
  leb raw zero = false
  /\ winProbability e = raw
  /\ leb (div (of_Z 1) (of_Z 101)) raw = true
  /\ leb raw (of_Z 1) = true.
Proof.
  intros (Hm & _). cbv zeta. unfold winProbability.
  assert (Hall : forallb
            (fun m =>
               let under := div (add (of_Z m) (of_Z 1)) (of_Z 101) in
               let over := div (sub (of_Z 101) (of_Z m)) (of_Z 101) in
               negb (leb under zero) && negb (leb over zero)
               && leb (div (of_Z 1) (of_Z 101)) under
               && leb (div (of_Z 1) (of_Z 101)) over
               && leb under (of_Z 1) && leb over (of_Z 1))
            (map Z.of_nat (seq 0 101)) = true) by (vm_compute; reflexivity).
  rewrite forallb_forall in Hall.
  specialize (Hall (main e)).
  assert (Hin : In (main e) (map Z.of_nat (seq 0 101))).
  { apply in_map_iff. exists (Z.to_nat (main e)). split; [lia |].
    apply in_seq. lia. }
  specialize (Hall Hin). cbv zeta in Hall.
  rewrite !andb_true_iff, !negb_true_iff in Hall.
  destruct Hall as [[[[[H1 H2] H3] H4] H5] H6].
  destruct (String.eqb (choice e) "under").
  - rewrite H1. auto.
  - rewrite H2. auto.
Qed.

Lemma valid_entry_needs_no_clamp_witness :
  leb (div (sub (of_Z 101) (of_Z 60)) (of_Z 101)) zero = false
  /\ winProbability Example.entry1 = div (sub (of_Z 101) (of_Z 60)) (of_Z 101)
  /\ leb (div (of_Z 1) (of_Z 101)) (div (sub (of_Z 101) (of_Z 60)) (of_Z 101)) = true
  /\ leb (div (sub (of_Z 101) (of_Z 60)) (of_Z 101)) (of_Z 1) = true.
Proof.
  apply (valid_entry_needs_no_clamp Example.entry1).
  unfold validEntry. cbn. repeat split; try lia; auto.
Defined.
